(** * Local Polynomial Approximation attributes: kernels, centre-trace
      convolution and orientation tensor

    Shallow embedding of
    - [Python_3/Experimental/LocalPolynomialApproximation/ex_lpa_coef.py]
      ([lpa3D_init], [sconvolve]),
    - [Python_3/Experimental/LocalPolynomialApproximation/ex_lpa_eigenvals.py]
      ([lpa3D_init], the body of [doCompute]),
    - [Python_3/extlib.py] ([sconvolve]).

    Python floats are idealised as real numbers ([R]); Python integers used
    as array extents are natural numbers and index arithmetic is done in
    [Z], so that negative indices (which numpy wraps around) and indices
    past the end (which raise [IndexError]) are both visible. *)

From Stdlib Require Import Reals ZArith List Lia Lra Psatz Bool Permutation Sorted.
From Stdlib Require Import ClassicalEpsilon FunctionalExtensionality.
Import ListNotations.

Open Scope R_scope.

(** ** Exceptions and the error monad *)

(** The ways a call can fail to return a value.  [NonFinite] stands for an
    element-wise numpy division by zero: numpy does not raise there but
    stores [inf] or [nan] in the array; no real number is the result, so the
    embedding stops at the zero divisor. *)
Inductive pyerr : Type :=
| IndexError
| ZeroDivisionError
| LinAlgError
| NonFinite.

Inductive res (A : Type) : Type :=
| Ok (a : A)
| Raise (e : pyerr).

Arguments Ok {A} a.
Arguments Raise {A} e.

Definition bind {A B : Type} (m : res A) (k : A -> res B) : res B :=
  match m with
  | Ok a => k a
  | Raise e => Raise e
  end.

Notation "x <- m ;; k" := (bind m (fun x => k))
  (at level 61, m at next level, right associativity).

(** A [for x in l: acc = body(x, acc)] loop that stops at the first
    exception. *)
Fixpoint for_each {A B : Type} (l : list B) (body : B -> A -> res A) (a : A)
  : res A :=
  match l with
  | [] => Ok a
  | x :: l' => a' <- body x a ;; for_each l' body a'
  end.

(** [range(lo, hi)]. *)
Definition py_range (lo hi : Z) : list Z :=
  map (fun k => (lo + Z.of_nat k)%Z) (seq 0 (Z.to_nat (hi - lo))).

(** ** Arrays *)

(** A three-dimensional numpy array: its shape and its entries. *)
Record ndarray3 : Type := mk3 {
  dimX : nat;
  dimY : nat;
  dimZ : nat;
  data3 : nat -> nat -> nat -> R
}.

(** Index normalisation along an axis of extent [n]: [0 <= i < n] is used
    as it is, [-n <= i < 0] counts from the end, anything else raises
    [IndexError]. *)
Definition norm_index (n : nat) (i : Z) : res nat :=
  if ((0 <=? i) && (i <? Z.of_nat n))%Z then Ok (Z.to_nat i)
  else if ((- Z.of_nat n <=? i) && (i <? 0))%Z then Ok (Z.to_nat (i + Z.of_nat n))
  else Raise IndexError.

(** [a[i, j, k]]. *)
Definition getitem3 (a : ndarray3) (i j k : Z) : res R :=
  i' <- norm_index (dimX a) i ;;
  j' <- norm_index (dimY a) j ;;
  k' <- norm_index (dimZ a) k ;;
  Ok (data3 a i' j' k').

(** Replacing position [n] of a one-dimensional array. *)
Fixpoint upd (l : list R) (n : nat) (v : R) : list R :=
  match l, n with
  | [], _ => []
  | _ :: t, O => v :: t
  | h :: t, S m => h :: upd t m v
  end.

(** [l[i] = v]. *)
Definition setitem1 (l : list R) (i : Z) (v : R) : res (list R) :=
  n <- norm_index (length l) i ;; Ok (upd l n v).

(** [np.zeros(n)]. *)
Definition np_zeros (n : nat) : list R := repeat 0 n.

(** ** Centre-trace convolution *)

(** [sconvolve] of [ex_lpa_coef.py].  The [@jit] decorator is taken to
    keep the meaning of the Python text: indexing is numpy's, with
    wrap-around of negative indices and [IndexError] past the end. *)
Module Coef.

Definition sconvolve (arr filt : ndarray3) : res (list R) :=
  let X := Z.of_nat (dimX arr) in
  let Y := Z.of_nat (dimY arr) in
  let Z_ := Z.of_nat (dimZ arr) in
  let Xf := Z.of_nat (dimX filt) in
  let Yf := Z.of_nat (dimY filt) in
  let Zf := Z.of_nat (dimZ filt) in
  let X2 := (X / 2)%Z in
  let Y2 := (Y / 2)%Z in
  let Xf2 := (Xf / 2)%Z in
  let Yf2 := (Yf / 2)%Z in
  let Zf2 := (Zf / 2)%Z in
  let result := np_zeros (dimZ arr) in
  for_each (py_range Zf2 (Z_ - Zf2)) (fun i result =>
    num <- for_each (py_range 0 Xf) (fun ii num =>
             for_each (py_range 0 Yf) (fun jj num =>
               for_each (py_range 0 Zf) (fun kk num =>
                 f <- getitem3 filt (Xf - 1 - ii) (Yf - 1 - jj) (Zf - 1 - kk) ;;
                 a <- getitem3 arr (X2 - Xf2 + ii) (Y2 - Yf2 + jj) (i - Zf2 + kk) ;;
                 Ok (num + f * a)) num) num) 0 ;;
    setitem1 result i num) result.

End Coef.

(** [sconvolve] of [extlib.py]. *)
Module Extlib.

Definition sconvolve (arr filt : ndarray3) : res (list R) :=
  let X := Z.of_nat (dimX arr) in
  let Y := Z.of_nat (dimY arr) in
  let Z_ := Z.of_nat (dimZ arr) in
  let Xf := Z.of_nat (dimX filt) in
  let Yf := Z.of_nat (dimY filt) in
  let Zf := Z.of_nat (dimZ filt) in
  let X2 := (X / 2)%Z in
  let Y2 := (Y / 2)%Z in
  let Xf2 := (Xf / 2)%Z in
  let Yf2 := (Yf / 2)%Z in
  let Zf2 := (Zf / 2)%Z in
  let result := np_zeros (dimZ arr) in
  for_each (py_range Zf2 (Z_ - Zf2)) (fun i result =>
    num <- for_each (py_range 0 Xf) (fun ii num =>
             for_each (py_range 0 Yf) (fun jj num =>
               for_each (py_range 0 Zf) (fun kk num =>
                 f <- getitem3 filt (Xf - 1 - ii) (Yf - 1 - jj) (Zf - 1 - kk) ;;
                 a <- getitem3 arr (X2 - Xf2 + ii) (Y2 - Yf2 + jj) (i - Zf2 + kk) ;;
                 Ok (num + f * a)) num) num) 0 ;;
    setitem1 result i num) result.

End Extlib.

(** ** One- and two-dimensional numerics *)

(** Sum of [f 0 .. f (n-1)]. *)
Fixpoint rsum (n : nat) (f : nat -> R) : R :=
  match n with
  | O => 0
  | S m => rsum m f + f m
  end.

(** A two-dimensional numpy array: its shape and its entries. *)
Record matrix : Type := mkmat {
  nrows : nat;
  ncols : nat;
  ent : nat -> nat -> R
}.

(** [A.T]. *)
Definition transpose (A : matrix) : matrix :=
  mkmat (ncols A) (nrows A) (fun i j => ent A j i).

(** [A.dot(B)]. *)
Definition dot (A B : matrix) : matrix :=
  mkmat (nrows A) (ncols B)
        (fun i j => rsum (ncols A) (fun k => ent A i k * ent B k j)).

(** [np.diagflat(w)]. *)
Definition diagflat (w : list R) : matrix :=
  mkmat (length w) (length w)
        (fun i j => if Nat.eqb i j then nth i w 0 else 0).

Definition delta (i j : nat) : R := if Nat.eqb i j then 1 else 0.

(** [M] is the two-sided inverse of the square matrix [G]. *)
Definition is_inverse (G M : matrix) : Prop :=
  nrows G = ncols G /\ nrows M = nrows G /\ ncols M = ncols G /\
  forall i j, (i < nrows G)%nat -> (j < nrows G)%nat ->
    ent (dot M G) i j = delta i j /\ ent (dot G M) i j = delta i j.

(** [np.linalg.inv(G)], by its contract over the reals: the inverse when
    there is one, [LinAlgError] for a singular matrix. *)
Definition np_linalg_inv (G : matrix) : res matrix :=
  match excluded_middle_informative (exists M, is_inverse G M) with
  | left H => Ok (proj1_sig (constructive_indefinite_description _ H))
  | right _ => Raise LinAlgError
  end.

(** [np.linspace(start, stop, num)]: [num] evenly spaced samples, both ends
    included; a single sample is [start]. *)
Definition np_linspace (start stop : R) (num : nat) : list R :=
  let div := (num - 1)%nat in
  map (fun i =>
         if (0 <? div)%nat then start + INR i * ((stop - start) / INR div)
         else start + INR i * (stop - start))
      (seq 0 num).

(** [np.meshgrid(xtmp, ytmp, ztmp, indexing='ij')[n].flatten()] for
    [n = 0, 1, 2]: row-major order, the last axis varying fastest. *)
Definition meshgrid_flat0 (xtmp ytmp ztmp : list R) : list R :=
  flat_map (fun xi => flat_map (fun _ => map (fun _ => xi) ztmp) ytmp) xtmp.

Definition meshgrid_flat1 (xtmp ytmp ztmp : list R) : list R :=
  flat_map (fun _ => flat_map (fun yj => map (fun _ => yj) ztmp) ytmp) xtmp.

Definition meshgrid_flat2 (xtmp ytmp ztmp : list R) : list R :=
  flat_map (fun _ => flat_map (fun _ => ztmp) ytmp) xtmp.

(** Element-wise binary operation on arrays of one shape. *)
Fixpoint map2 (f : R -> R -> R) (a b : list R) : list R :=
  match a, b with
  | x :: a', y :: b' => f x y :: map2 f a' b'
  | _, _ => []
  end.

(** [a / d] for an array [a] and a scalar [d]. *)
Fixpoint arr_div (a : list R) (d : R) : res (list R) :=
  match a with
  | [] => Ok []
  | v :: a' =>
      if Req_EM_T d 0 then Raise NonFinite
      else t <- arr_div a' d ;; Ok (v / d :: t)
  end.

(** The ten monomials, in the order of the columns of the design matrix:
    [1, x, y, z, x^2, y^2, z^2, xy, xz, yz]. *)
Definition monomial (j : nat) (x y z : R) : R :=
  match j with
  | 0%nat => 1
  | 1%nat => x
  | 2%nat => y
  | 3%nat => z
  | 4%nat => x * x
  | 5%nat => y * y
  | 6%nat => z * z
  | 7%nat => x * y
  | 8%nat => x * z
  | 9%nat => y * z
  | _ => 0
  end.

(** [np.dstack((np.ones(x.size), x, y, z, x*x, y*y, z*z, x*y, x*z, y*z))
    .reshape((x.size, 10))]. *)
Definition design (x y z : list R) : matrix :=
  let cols :=
    [ repeat 1 (length x); x; y; z;
      map2 Rmult x x; map2 Rmult y y; map2 Rmult z z;
      map2 Rmult x y; map2 Rmult x z; map2 Rmult y z ] in
  mkmat (length x) 10 (fun p j => nth p (nth j cols []) 0).

(** [DB.reshape((10, xs, ys, zs))[k]]. *)
Definition reshape_kernel (DB : matrix) (xs ys zs : nat) (k : nat) : ndarray3 :=
  mk3 xs ys zs (fun a b c => ent DB k ((a * ys + b) * zs + c)).

(** ** Kernel construction *)

(** [lpa3D_init] of [ex_lpa_coef.py]. *)
Module CoefInit.

Definition lpa3D_init (xs ys zs : nat) (sigma : R) : res (nat -> ndarray3) :=
  let sx := sigma * (INR xs - 1) in
  let sy := sigma * (INR ys - 1) in
  let sz := sigma * (INR zs - 1) in
  let hxs := (INR xs - 1) / 2 in
  let hys := (INR ys - 1) / 2 in
  let hzs := (INR zs - 1) / 2 in
  let xtmp := np_linspace (- hxs) hxs xs in
  let ytmp := np_linspace (- hys) hys ys in
  let ztmp := np_linspace (- hzs) hzs zs in
  let x := meshgrid_flat0 xtmp ytmp ztmp in
  let y := meshgrid_flat1 xtmp ytmp ztmp in
  let z := meshgrid_flat2 xtmp ytmp ztmp in
  tx <- arr_div (map (fun v => v ^ 2) x) (2 * sx ^ 2) ;;
  ty <- arr_div (map (fun v => v ^ 2) y) (2 * sy ^ 2) ;;
  tz <- arr_div (map (fun v => v ^ 2) z) (2 * sz ^ 2) ;;
  let w := map exp (map Ropp (map2 Rplus (map2 Rplus tx ty) tz)) in
  let W := diagflat w in
  let A := design x y z in
  Ginv <- np_linalg_inv (dot (dot (transpose A) W) A) ;;
  let DB := dot (dot Ginv (transpose A)) W in
  Ok (reshape_kernel DB xs ys zs).

End CoefInit.

(** [lpa3D_init] of [ex_lpa_eigenvals.py]. *)
Module EigenInit.

Definition lpa3D_init (xs ys zs : nat) (sigma : R) : res (nat -> ndarray3) :=
  let sx := sigma * (INR xs - 1) in
  let sy := sigma * (INR ys - 1) in
  let sz := sigma * (INR zs - 1) in
  let hxs := (INR xs - 1) / 2 in
  let hys := (INR ys - 1) / 2 in
  let hzs := (INR zs - 1) / 2 in
  let xtmp := np_linspace (- hxs) hxs xs in
  let ytmp := np_linspace (- hys) hys ys in
  let ztmp := np_linspace (- hzs) hzs zs in
  let x := meshgrid_flat0 xtmp ytmp ztmp in
  let y := meshgrid_flat1 xtmp ytmp ztmp in
  let z := meshgrid_flat2 xtmp ytmp ztmp in
  tx <- arr_div (map (fun v => v ^ 2) x) (2 * sx ^ 2) ;;
  ty <- arr_div (map (fun v => v ^ 2) y) (2 * sy ^ 2) ;;
  tz <- arr_div (map (fun v => v ^ 2) z) (2 * sz ^ 2) ;;
  let w := map exp (map Ropp (map2 Rplus (map2 Rplus tx ty) tz)) in
  let W := diagflat w in
  let A := design x y z in
  Ginv <- np_linalg_inv (dot (dot (transpose A) W) A) ;;
  let DB := dot (dot Ginv (transpose A)) W in
  Ok (reshape_kernel DB xs ys zs).

End EigenInit.

(** ** The two compute loops *)

(** [[f(i) for i in l]], stopping at the first exception. *)
Fixpoint map_res {A B : Type} (f : A -> res B) (l : list A) : res (list B) :=
  match l with
  | [] => Ok []
  | a :: l' => b <- f a ;; t <- map_res f l' ;; Ok (b :: t)
  end.

(** One round of the [while True] loop of [doCompute] in [ex_lpa_coef.py]:
    the ten output traces [r0 .. r9] for one input block. *)
Definition coef_doCompute_step (kernel : nat -> ndarray3) (Input : ndarray3)
  : res (list (list R)) :=
  map_res (fun i => Coef.sconvolve Input (kernel i)) (seq 0 10).

(** [gam = 1/(8*((min(xs,ys,zs)-1)*wf)**2)] of [doCompute] in
    [ex_lpa_eigenvals.py]; a Python scalar division, which raises
    [ZeroDivisionError] on a zero divisor. *)
Definition gam (xs ys zs : nat) (wf : R) : res R :=
  let d := 8 * ((INR (Nat.min xs (Nat.min ys zs)) - 1) * wf) ^ 2 in
  if Req_EM_T d 0 then Raise ZeroDivisionError else Ok (1 / d).

(** The matrices built for one sample from the ten coefficients [r]. *)
Definition curvature (r : nat -> R) : matrix :=
  mkmat 3 3 (fun i j =>
    nth j (nth i [ [r 4%nat; r 7%nat / 2; r 8%nat / 2];
                   [r 7%nat / 2; r 5%nat; r 9%nat / 2];
                   [r 8%nat / 2; r 9%nat / 2; r 6%nat] ] []) 0).

Definition gradient (r : nat -> R) : matrix :=
  mkmat 3 1 (fun i j =>
    nth j (nth i [ [r 1%nat]; [r 2%nat]; [r 3%nat] ] []) 0).

Definition madd (A B : matrix) : matrix :=
  mkmat (nrows A) (ncols A) (fun i j => ent A i j + ent B i j).

Definition mscale (c : R) (A : matrix) : matrix :=
  mkmat (nrows A) (ncols A) (fun i j => c * ent A i j).

(** [T = AAT + gam*BBT]. *)
Definition tensor (r : nat -> R) (g : R) : matrix :=
  let A := curvature r in
  let AAT := dot A (transpose A) in
  let B := gradient r in
  let BBT := dot B (transpose B) in
  madd AAT (mscale g BBT).

(** [np.sort]: ascending order. *)
Fixpoint insert_sorted (a : R) (l : list R) : list R :=
  match l with
  | [] => [a]
  | b :: t => if Rle_dec a b then a :: l else b :: insert_sorted a t
  end.

Fixpoint np_sort (l : list R) : list R :=
  match l with
  | [] => []
  | a :: t => insert_sorted a (np_sort t)
  end.

Section EigenVariant.

(** [np.linalg.eigvalsh] on a 3x3 matrix returns three numbers; nothing
    else is assumed of it here. *)
Variable eigvalsh : matrix -> R * R * R.

(** The outputs [(e1, e2, e3)] at one sample. *)
Definition eigen_sample (r : nat -> R) (g : R) : R * R * R :=
  let T := tensor r g in
  let '(w0, w1, w2) := eigvalsh T in
  let v := np_sort [w0; w1; w2] in
  (nth 2 v 0, nth 1 v 0, nth 0 v 0).

(** One round of the [while True] loop of [doCompute] in
    [ex_lpa_eigenvals.py]: the output traces [e1], [e2], [e3];
    [xa.TI['nrsamp']] is the z-extent of the input block. *)
Definition eigen_doCompute_step (kernel : nat -> ndarray3) (g : R)
           (Input : ndarray3) : res (list R * list R * list R) :=
  r <- map_res (fun i => Extlib.sconvolve Input (kernel i)) (seq 0 10) ;;
  let at_sample s := eigen_sample (fun k => nth s (nth k r []) 0) g in
  let samples := seq 0 (dimZ Input) in
  Ok (map (fun s => fst (fst (at_sample s))) samples,
      map (fun s => snd (fst (at_sample s))) samples,
      map (fun s => snd (at_sample s)) samples).

End EigenVariant.

(** ** Test data: blocks sampled from a polynomial *)

(** The approximating polynomial of the header of [ex_lpa_coef.py]:
    [r0 + r1*x + r2*y + r3*z + r4*x^2 + r5*y^2 + r6*z^2 + r7*x*y + r8*x*z
    + r9*y*z]. *)
Definition poly (c : nat -> R) (x y z : R) : R :=
  rsum 10 (fun j => c j * monomial j x y z).

(** A block of shape [(X, Y, Zn)] holding the values of [f] at integer
    offsets from the analysis location: trace [(X/2, Y/2)], sample [z0]. *)
Definition sample_block (X Y Zn z0 : nat) (f : R -> R -> R -> R) : ndarray3 :=
  mk3 X Y Zn (fun a b c =>
    f (INR a - INR (X / 2)) (INR b - INR (Y / 2)) (INR c - INR z0)).

(** The sign a monomial takes under the reflection [(x,y,z) -> (-x,-y,-z)]. *)
Definition parity (j : nat) : R :=
  match j with
  | 1%nat | 2%nat | 3%nat => -1
  | _ => 1
  end.

(** ** The correlation sum of the specification *)

(** As the specification words it: the sum over all kernel indices
    [(ii, jj, kk)] of [kernel[Xf-1-ii, Yf-1-jj, Zf-1-kk]] times
    [block[X/2 - Xf/2 + ii, Y/2 - Yf/2 + jj, z - Zf/2 + kk]]. *)
Definition conv_at (arr filt : ndarray3) (z : nat) : R :=
  let X := dimX arr in
  let Y := dimY arr in
  let Xf := dimX filt in
  let Yf := dimY filt in
  let Zf := dimZ filt in
  rsum Xf (fun ii => rsum Yf (fun jj => rsum Zf (fun kk =>
    data3 filt (Xf - 1 - ii)%nat (Yf - 1 - jj)%nat (Zf - 1 - kk)%nat *
    data3 arr (X / 2 - Xf / 2 + ii)%nat (Y / 2 - Yf / 2 + jj)%nat
              (z - Zf / 2 + kk)%nat))).

(** The valid range [[Zf/2, Z - Zf/2)] of output samples. *)
Definition valid_sample (Zn Zf z : nat) : Prop :=
  (Zf / 2 <= z /\ z + Zf / 2 < Zn)%nat.

(** ** Test data: small blocks and kernels *)

(** A block of the given shape filled with one value. *)
Definition const_block (X Y Zn : nat) (v : R) : ndarray3 :=
  mk3 X Y Zn (fun _ _ _ => v).

(** A single trace of seven samples and a kernel of z-extent three. *)
Definition trace7 : ndarray3 := mk3 1 1 7 (fun _ _ c => INR c).
Definition kernel3 : ndarray3 := mk3 1 1 3 (fun _ _ c => INR c + 1).


(** A computation that either returns or raises [IndexError]. *)
Definition index_only {A : Type} (m : res A) : Prop :=
  forall e, m = Raise e -> e = IndexError.

(** ** Quadratic forms and eigenvalues of 3x3 matrices *)

(** [(T v)_i]. *)
Definition mat_vec (T : matrix) (v : nat -> R) (i : nat) : R :=
  rsum 3 (fun j => ent T i j * v j).

(** [v^t T v]. *)
Definition quad_form (T : matrix) (v : nat -> R) : R :=
  rsum 3 (fun i => v i * mat_vec T v i).

Definition nonzero3 (v : nat -> R) : Prop :=
  v 0%nat <> 0 \/ v 1%nat <> 0 \/ v 2%nat <> 0.

(** [a + b i] is a complex eigenvalue of the real matrix [T], with
    eigenvector [u + v i]: [T u = a u - b v] and [T v = b u + a v]. *)
Definition complex_eigenpair (T : matrix) (a b : R) (u v : nat -> R) : Prop :=
  (nonzero3 u \/ nonzero3 v) /\
  forall i, (i < 3)%nat ->
    mat_vec T u i = a * u i - b * v i /\
    mat_vec T v i = b * u i + a * v i.

(** [lam] is a real eigenvalue of [T]. *)
Definition is_eigenvalue (T : matrix) (lam : R) : Prop :=
  exists v, nonzero3 v /\ forall i, (i < 3)%nat -> mat_vec T v i = lam * v i.

(** Coefficients with pure curvature along x: [r4 = 1], the others [0]. *)
Definition r_curv_x (k : nat) : R := if Nat.eqb k 4 then 1 else 0.

Definition e_x (i : nat) : R := if Nat.eqb i 0 then 1 else 0.


(** An eigensolver stub that returns the same three numbers, unsorted. *)
Definition eig_stub (_ : matrix) : R * R * R := (3, 1, 2).


(** ** The sampling grid and its moments *)

(** The [a]-th coordinate of an axis of extent [n], centred at the
    middle of the window. *)
Definition coord (n a : nat) : R := INR a - (INR n - 1) / 2.

(** The Gaussian weight factor contributed by one axis. *)
Definition axis_weight (sigma : R) (n a : nat) : R :=
  exp (- (coord n a ^ 2 / (2 * (sigma * (INR n - 1)) ^ 2))).

(** Weighted moments of the coordinates of one axis. *)
Definition moment (sigma : R) (n i : nat) : R :=
  rsum n (fun a => coord n a ^ i * axis_weight sigma n a).

(** Position of the grid point [(a, b, c)] in the flattened arrays. *)
Definition flat_index (ys zs a b c : nat) : nat := (a * ys + b) * zs + c.


(** ** The intermediate arrays of [lpa3D_init], named *)

Definition lpa_x (xs ys zs : nat) : list R :=
  meshgrid_flat0 (np_linspace (- ((INR xs - 1) / 2)) ((INR xs - 1) / 2) xs)
                 (np_linspace (- ((INR ys - 1) / 2)) ((INR ys - 1) / 2) ys)
                 (np_linspace (- ((INR zs - 1) / 2)) ((INR zs - 1) / 2) zs).

Definition lpa_y (xs ys zs : nat) : list R :=
  meshgrid_flat1 (np_linspace (- ((INR xs - 1) / 2)) ((INR xs - 1) / 2) xs)
                 (np_linspace (- ((INR ys - 1) / 2)) ((INR ys - 1) / 2) ys)
                 (np_linspace (- ((INR zs - 1) / 2)) ((INR zs - 1) / 2) zs).

Definition lpa_z (xs ys zs : nat) : list R :=
  meshgrid_flat2 (np_linspace (- ((INR xs - 1) / 2)) ((INR xs - 1) / 2) xs)
                 (np_linspace (- ((INR ys - 1) / 2)) ((INR ys - 1) / 2) ys)
                 (np_linspace (- ((INR zs - 1) / 2)) ((INR zs - 1) / 2) zs).

(** The weights [w], when no divisor is zero. *)
Definition lpa_w (xs ys zs : nat) (sigma : R) : list R :=
  map exp (map Ropp
    (map2 Rplus
       (map2 Rplus
          (map (fun v => v / (2 * (sigma * (INR xs - 1)) ^ 2))
               (map (fun v => v ^ 2) (lpa_x xs ys zs)))
          (map (fun v => v / (2 * (sigma * (INR ys - 1)) ^ 2))
               (map (fun v => v ^ 2) (lpa_y xs ys zs))))
       (map (fun v => v / (2 * (sigma * (INR zs - 1)) ^ 2))
            (map (fun v => v ^ 2) (lpa_z xs ys zs))))).

(** The design matrix [A] and the normal matrix [A.T.dot(W).dot(A)]. *)
Definition lpa_A (xs ys zs : nat) : matrix :=
  design (lpa_x xs ys zs) (lpa_y xs ys zs) (lpa_z xs ys zs).

Definition lpa_G (xs ys zs : nat) (sigma : R) : matrix :=
  dot (dot (transpose (lpa_A xs ys zs)) (diagflat (lpa_w xs ys zs sigma)))
      (lpa_A xs ys zs).

(** [DB] for a given inverse of the normal matrix. *)
Definition lpa_DB (xs ys zs : nat) (sigma : R) (Ginv : matrix) : matrix :=
  dot (dot Ginv (transpose (lpa_A xs ys zs))) (diagflat (lpa_w xs ys zs sigma)).


(** Exponents of [x], [y] and [z] in the ten monomials. *)
Definition ex (j : nat) : nat := nth j [0; 1; 0; 0; 2; 0; 0; 1; 1; 0]%nat 0%nat.
Definition ey (j : nat) : nat := nth j [0; 0; 1; 0; 0; 2; 0; 1; 0; 1]%nat 0%nat.
Definition ez (j : nat) : nat := nth j [0; 0; 0; 1; 0; 0; 2; 0; 1; 1]%nat 0%nat.


(** ** The normal matrix in terms of moments, and its inverse *)

(** A 10x10 matrix whose [(k, j)] entry is the product of the moments of
    order [ex k + ex j], [ey k + ey j] and [ez k + ez j]. *)
Definition moment_matrix (mx my mz : nat -> R) : matrix :=
  mkmat 10 10 (fun k j =>
    mx (ex k + ex j)%nat * my (ey k + ey j)%nat * mz (ez k + ez j)%nat).

(** Its inverse when the odd moments vanish, in closed form. *)
Definition moment_inverse (mx my mz : nat -> R) : matrix :=
  let X0 := mx 0%nat in let X2 := mx 2%nat in let X4 := mx 4%nat in
  let Y0 := my 0%nat in let Y2 := my 2%nat in let Y4 := my 4%nat in
  let Z0 := mz 0%nat in let Z2 := mz 2%nat in let Z4 := mz 4%nat in
  let DX := X0 * X4 - X2 * X2 in
  let DY := Y0 * Y4 - Y2 * Y2 in
  let DZ := Z0 * Z4 - Z2 * Z2 in
  mkmat 10 10 (fun i j =>
    match i, j with
    | 0%nat, 0%nat => (1 + X2 * X2 / DX + Y2 * Y2 / DY + Z2 * Z2 / DZ) / (X0 * Y0 * Z0)
    | 0%nat, 4%nat | 4%nat, 0%nat => - X2 / (DX * Y0 * Z0)
    | 0%nat, 5%nat | 5%nat, 0%nat => - Y2 / (DY * X0 * Z0)
    | 0%nat, 6%nat | 6%nat, 0%nat => - Z2 / (DZ * X0 * Y0)
    | 1%nat, 1%nat => 1 / (X2 * Y0 * Z0)
    | 2%nat, 2%nat => 1 / (X0 * Y2 * Z0)
    | 3%nat, 3%nat => 1 / (X0 * Y0 * Z2)
    | 4%nat, 4%nat => X0 / (DX * Y0 * Z0)
    | 5%nat, 5%nat => Y0 / (DY * X0 * Z0)
    | 6%nat, 6%nat => Z0 / (DZ * X0 * Y0)
    | 7%nat, 7%nat => 1 / (X2 * Y2 * Z0)
    | 8%nat, 8%nat => 1 / (X2 * Y0 * Z2)
    | 9%nat, 9%nat => 1 / (X0 * Y2 * Z2)
    | _, _ => 0
    end).


(** The vector [e_0 - 4 e_q], which the normal matrix sends to zero when
    the axis of the square monomial [q] has exactly two samples. *)
Definition quarter_vector (q j : nat) : R :=
  if Nat.eqb j 0 then 1 else if Nat.eqb j q then -4 else 0.


(** Sum over the grid points [(a, b, c)] of a window. *)
Definition tsum (xs ys zs : nat) (f : nat -> nat -> nat -> R) : R :=
  rsum xs (fun a => rsum ys (fun b => rsum zs (fun c => f a b c))).


(** Coefficients of the polynomial [x]: the coefficient [r1] is [1], all
    others [0]. *)
Definition coef_x (j : nat) : R := delta j 1.


(** ** Blocks and kernels built from others *)

(** The block [s * arr1 + arr2], of the shape of [arr1]. *)
Definition block_lincomb (s : R) (arr1 arr2 : ndarray3) : ndarray3 :=
  mk3 (dimX arr1) (dimY arr1) (dimZ arr1)
      (fun a b c => s * data3 arr1 a b c + data3 arr2 a b c).

(** The block moved up by one sample along z: entry [c] holds what was
    at [c + 1]. *)
Definition shift_z (arr : ndarray3) : ndarray3 :=
  mk3 (dimX arr) (dimY arr) (dimZ arr) (fun a b c => data3 arr a b (S c)).

(** A kernel that is [1.0] at [(i0, j0, k0)] and [0.0] elsewhere, as
    [tmp] in [getGaussian] of [extlib.py] before it is smoothed. *)
Definition impulse (Xf Yf Zf i0 j0 k0 : nat) : ndarray3 :=
  mk3 Xf Yf Zf (fun a b c =>
    if (Nat.eqb a i0 && Nat.eqb b j0 && Nat.eqb c k0)%bool then 1 else 0).


(** ** The start of [doCompute] in [ex_lpa_eigenvals.py] *)

(** The statements before the [while True] loop: the kernel set, then the
    mixing constant; [zs] is the number of samples of the z-margin. *)
Definition eigen_doCompute_setup (xs ys zs : nat) (wf : R)
  : res ((nat -> ndarray3) * R) :=
  kernel <- EigenInit.lpa3D_init xs ys zs wf ;;
  g <- gam xs ys zs wf ;;
  Ok (kernel, g).

(** Coefficients that are all zero. *)
Definition r_zero (_ : nat) : R := 0.

(** The outputs [(e1, e2, e3)] at sample [s] of three output traces. *)
Definition triple_at (E : list R * list R * list R) (s : nat) : R * R * R :=
  (nth s (fst (fst E)) 0, nth s (snd (fst E)) 0, nth s (snd E) 0).


(** ** Vector filters of [extlib.py] *)

(** [np.argmin] of an empty array raises [ValueError], which the
    exceptions above do not include. *)
Inductive np_exc : Type :=
| Py (e : pyerr)
| ValueError.

Inductive outcome (A : Type) : Type :=
| Done (a : A)
| Fail (e : np_exc).

Arguments Done {A} a.
Arguments Fail {A} e.

Definition lift {A : Type} (m : res A) : outcome A :=
  match m with
  | Ok a => Done a
  | Raise e => Fail (Py e)
  end.

Definition obind {A B : Type} (m : outcome A) (k : A -> outcome B) : outcome B :=
  match m with
  | Done a => k a
  | Fail e => Fail e
  end.

Notation "x <~ m ;; k" := (obind m (fun x => k))
  (at level 61, m at next level, right associativity).

(** [a[i, j]] for a two-dimensional array. *)
Definition getitem2 (a : matrix) (i j : Z) : res R :=
  i' <- norm_index (nrows a) i ;;
  j' <- norm_index (ncols a) j ;;
  Ok (ent a i' j').

(** [l[i]]. *)
Definition getitem1 (l : list R) (i : Z) : res R :=
  n <- norm_index (length l) i ;; Ok (nth n l 0).

(** [a[:, j]]. *)
Definition getcol (a : matrix) (j : Z) : res (list R) :=
  j' <- norm_index (ncols a) j ;;
  Ok (map (fun i => ent a i j') (seq 0 (nrows a))).

(** [np.argmin]: the first position of the smallest entry. *)
Fixpoint argmin_from (best : nat) (bv : R) (i : nat) (l : list R) : nat :=
  match l with
  | [] => best
  | v :: t =>
      if Rlt_dec v bv then argmin_from i v (S i) t
      else argmin_from best bv (S i) t
  end.

Definition np_argmin (l : list R) : outcome nat :=
  match l with
  | [] => Fail ValueError
  | v :: t => Done (argmin_from 0 v 1 t)
  end.

(** [vecmean] of [extlib.py]. *)
Definition vecmean (pts : matrix) : res (list R) :=
  let n := ncols pts in
  XYZ <- for_each (py_range 0 (Z.of_nat n)) (fun i XYZ =>
           let '(X, Y, Z_) := XYZ in
           x <- getitem2 pts 0 i ;;
           y <- getitem2 pts 1 i ;;
           z <- getitem2 pts 2 i ;;
           Ok (X + x, Y + y, Z_ + z)) (0, 0, 0) ;;
  let '(X, Y, Z_) := XYZ in
  arr_div [X; Y; Z_] (INR n).

(** [vmf_l1] of [extlib.py]. *)
Definition vmf_l1 (pts : matrix) : outcome (list R) :=
  let n := ncols pts in
  dist <~ lift (for_each (py_range 0 (Z.of_nat n)) (fun i dist =>
            for_each (py_range (i + 1) (Z.of_nat n)) (fun j dist =>
              x1 <- getitem2 pts 0 j ;; x0 <- getitem2 pts 0 i ;;
              y1 <- getitem2 pts 1 j ;; y0 <- getitem2 pts 1 i ;;
              z1 <- getitem2 pts 2 j ;; z0 <- getitem2 pts 2 i ;;
              let tmp := Rabs (x1 - x0) + Rabs (y1 - y0) + Rabs (z1 - z0) in
              di <- getitem1 dist i ;;
              dist <- setitem1 dist i (di + tmp) ;;
              dj <- getitem1 dist j ;;
              setitem1 dist j (dj + tmp)) dist) (np_zeros n)) ;;
  k <~ np_argmin dist ;;
  lift (getcol pts (Z.of_nat k)).

(** [vmf_l2] of [extlib.py]. *)
Definition vmf_l2 (pts : matrix) : outcome (list R) :=
  let n := ncols pts in
  dist <~ lift (for_each (py_range 0 (Z.of_nat n)) (fun i dist =>
            for_each (py_range (i + 1) (Z.of_nat n)) (fun j dist =>
              x1 <- getitem2 pts 0 j ;; x0 <- getitem2 pts 0 i ;;
              y1 <- getitem2 pts 1 j ;; y0 <- getitem2 pts 1 i ;;
              z1 <- getitem2 pts 2 j ;; z0 <- getitem2 pts 2 i ;;
              let tmp := (x1 - x0) ^ 2 + (y1 - y0) ^ 2 + (z1 - z0) ^ 2 in
              di <- getitem1 dist i ;;
              dist <- setitem1 dist i (di + tmp) ;;
              dj <- getitem1 dist j ;;
              setitem1 dist j (dj + tmp)) dist) (np_zeros n)) ;;
  k <~ np_argmin dist ;;
  lift (getcol pts (Z.of_nat k)).

(** The distances the two median filters sum. *)
Definition dist_l1 (pts : matrix) (i j : nat) : R :=
  Rabs (ent pts 0 j - ent pts 0 i) + Rabs (ent pts 1 j - ent pts 1 i)
  + Rabs (ent pts 2 j - ent pts 2 i).

Definition dist_l2 (pts : matrix) (i j : nat) : R :=
  (ent pts 0 j - ent pts 0 i) ^ 2 + (ent pts 1 j - ent pts 1 i) ^ 2
  + (ent pts 2 j - ent pts 2 i) ^ 2.

(** Sum of the distances from point [i] to all [n] points. *)
Definition total_dist (d : nat -> nat -> R) (n i : nat) : R :=
  rsum n (fun j => d i j).

(** Column [k] of a two-dimensional array. *)
Definition column (a : matrix) (k : nat) : list R :=
  map (fun i => ent a i k) (seq 0 (nrows a)).

(** Three points on a line, as a 3 x 3 array whose columns are points. *)
Definition pts3 : matrix :=
  mkmat 3 3 (fun c i => if Nat.eqb c 0 then INR i else 0).


(** ** [vecFilter] of [extlib.py] *)

(** A four-dimensional numpy array: its shape and its entries. *)
Record ndarray4 : Type := mk4 {
  e0 : nat;
  e1 : nat;
  e2 : nat;
  e3 : nat;
  data4 : nat -> nat -> nat -> nat -> R
}.

(** A loop that stops at the first exception, which may be any. *)
Fixpoint ofor_each {A B : Type} (l : list B) (body : B -> A -> outcome A) (a : A)
  : outcome A :=
  match l with
  | [] => Done a
  | x :: l' => a' <~ body x a ;; ofor_each l' body a'
  end.

(** The slice [lo:hi] of an axis of extent [n]: a negative bound counts
    from the end, both bounds are clipped to the axis; the result is the
    first position and the number of positions. *)
Definition py_slice (n : nat) (lo hi : Z) : nat * nat :=
  let clip v := (if v <? 0 then Z.max 0 (v + Z.of_nat n)
                 else Z.min v (Z.of_nat n))%Z in
  (Z.to_nat (clip lo), Z.to_nat (clip hi - clip lo)).

(** [a[:, :, :, lo:hi]]. *)
Definition slice_last (a : ndarray4) (lo hi : Z) : ndarray4 :=
  let '(s, w) := py_slice (e3 a) lo hi in
  mk4 (e0 a) (e1 a) (e2 a) w (fun i j k l => data4 a i j k (s + l)).

(** Entry [p] of [a.flatten()], in row-major order. *)
Definition flat4 (a : ndarray4) (p : nat) : R :=
  data4 a (p / (e1 a * e2 a * e3 a))
          ((p / (e2 a * e3 a)) mod e1 a)
          ((p / e3 a) mod e2 a)
          (p mod e3 a).

(** [a.reshape(3, -1)]: [ValueError] when the size is not a multiple of
    three. *)
Definition reshape3 (a : ndarray4) : outcome matrix :=
  let total := (e0 a * e1 a * e2 a * e3 a)%nat in
  if Nat.eqb (total mod 3) 0
  then Done (mkmat 3 (total / 3) (fun c i => flat4 a (c * (total / 3) + i)))
  else Fail ValueError.

(** [out[:, z] = v]: the index is resolved first; [v] must have one entry
    per row, or a single entry, which is then broadcast. *)
Definition setcol (out : matrix) (z : Z) (v : list R) : outcome matrix :=
  j <~ lift (norm_index (ncols out) z) ;;
  if Nat.eqb (length v) (nrows out)
  then Done (mkmat (nrows out) (ncols out)
               (fun r c => if Nat.eqb c j then nth r v 0 else ent out r c))
  else if Nat.eqb (length v) 1
  then Done (mkmat (nrows out) (ncols out)
               (fun r c => if Nat.eqb c j then nth 0 v 0 else ent out r c))
  else Fail ValueError.

(** [out.fill(v)]. *)
Definition fill (out : matrix) (v : R) : matrix :=
  mkmat (nrows out) (ncols out) (fun _ _ => v).

(** [vecFilter] of [extlib.py]; [window] is a window length. *)
Definition vecFilter (indata : ndarray4) (window : nat)
           (filtFunc : matrix -> outcome (list R)) (outdata : matrix)
  : outcome matrix :=
  let nz := Z.of_nat (e3 indata) in
  let half_win := (Z.of_nat window / 2)%Z in
  let outdata := fill outdata 0 in
  outdata <~ ofor_each (py_range half_win (nz - half_win)) (fun z outdata =>
    pts <~ reshape3 (slice_last indata (z - half_win) (z + half_win + 1)) ;;
    v <~ filtFunc pts ;;
    setcol outdata z v) outdata ;;
  outdata <~ ofor_each (py_range 0 half_win) (fun z outdata =>
    col <~ lift (getcol outdata half_win) ;;
    setcol outdata z col) outdata ;;
  ofor_each (py_range (nz - half_win) nz) (fun z outdata =>
    col <~ lift (getcol outdata (nz - half_win - 1)) ;;
    setcol outdata z col) outdata.

(** The window handed to the filter at sample [z]. *)
Definition filter_window (indata : ndarray4) (window z : nat) : outcome matrix :=
  reshape3 (slice_last indata (Z.of_nat z - Z.of_nat window / 2)
                              (Z.of_nat z + Z.of_nat window / 2 + 1)).

(** The nearest sample that has a full window. *)
Definition clamp_sample (nz h z : nat) : nat :=
  Nat.max h (Nat.min z (nz - h - 1)).

(** A vector field of one trace and five samples whose first component
    counts the samples; a filter that fails. *)
Definition field5 : ndarray4 :=
  mk4 3 1 1 5 (fun c _ _ l => if Nat.eqb c 0 then INR l else 0).

Definition failing_filter (_ : matrix) : outcome (list R) := Fail ValueError.


(** The mean of component [c] over all traces and over the samples
    [z - h .. z + h]. *)
Definition window_mean (indata : ndarray4) (h c z : nat) : R :=
  rsum (e1 indata) (fun a => rsum (e2 indata) (fun b =>
    rsum (2 * h + 1) (fun l => data4 indata c a b (z - h + l)%nat)))
  / INR (e1 indata * e2 indata * (2 * h + 1)).

(** An output array of three rows and five columns that holds ones. *)
Definition ones35 : matrix := mkmat 3 5 (fun _ _ => 1).


(** ** [rolling_window] of [extlib.py] *)

(** A numpy array as a view of memory: the number stored at each byte
    address, the address of the first entry, the extent of every axis
    and, for every axis, the step in bytes from one index to the next. *)
Record strided : Type := mkview {
  memory : Z -> R;
  first_byte : Z;
  shape : list nat;
  strides : list Z
}.

(** The distance in bytes of the entry at [idx] from the first entry. *)
Fixpoint byte_offset (idx : list nat) (st : list Z) : Z :=
  match idx, st with
  | i :: idx', s :: st' => (Z.of_nat i * s + byte_offset idx' st')%Z
  | _, _ => 0%Z
  end.

(** [a[idx]]. *)
Definition view_at (a : strided) (idx : list nat) : R :=
  memory a (first_byte a + byte_offset idx (strides a)).

(** [rolling_window]: [a.shape[-1]] and [a.strides[-1]] raise
    [IndexError] on an empty tuple, [as_strided] raises [ValueError] for
    a negative extent and else returns a view of the same memory. *)
Definition rolling_window (a : strided) (window : nat) : outcome strided :=
  match shape a, strides a with
  | [], _ => Fail (Py IndexError)
  | _ :: _, [] => Fail (Py IndexError)
  | _ :: _, _ :: _ =>
      let rows := (Z.of_nat (last (shape a) 0%nat) - Z.of_nat window + 1)%Z in
      if (rows <? 0)%Z then Fail ValueError
      else Done (mkview (memory a) (first_byte a)
                   (removelast (shape a) ++ [Z.to_nat rows; window])
                   (strides a ++ [last (strides a) 0%Z]))
  end.

(** Five numbers of eight bytes, one after the other. *)
Definition line5 : strided := mkview (fun p => IZR p) 0 [5%nat] [8%Z].


(** * Properties *)

(** ** Sums *)

Lemma rsum_ext (n : nat) (f g : nat -> R) :
  (forall i, (i < n)%nat -> f i = g i) -> rsum n f = rsum n g.
Proof.
  induction n as [|n IH]; intros H; simpl; [reflexivity|].
  rewrite IH by (intros; apply H; lia).
  rewrite H by lia. reflexivity.
Qed.

Lemma rsum_zero (n : nat) (f : nat -> R) :
  (forall i, (i < n)%nat -> f i = 0) -> rsum n f = 0.
Proof.
  induction n as [|n IH]; intros H; simpl; [reflexivity|].
  rewrite IH by (intros; apply H; lia).
  rewrite H by lia. ring.
Qed.

Lemma rsum_plus (n : nat) (f g : nat -> R) :
  rsum n (fun i => f i + g i) = rsum n f + rsum n g.
Proof. induction n as [|n IH]; simpl; [ring | rewrite IH; ring]. Qed.

Lemma rsum_scal (n : nat) (c : R) (f : nat -> R) :
  rsum n (fun i => c * f i) = c * rsum n f.
Proof. induction n as [|n IH]; simpl; [ring | rewrite IH; ring]. Qed.

Lemma rsum_scal_r (n : nat) (c : R) (f : nat -> R) :
  rsum n (fun i => f i * c) = rsum n f * c.
Proof. induction n as [|n IH]; simpl; [ring | rewrite IH; ring]. Qed.

(** Exchange of two finite sums. *)
Lemma rsum_swap (n m : nat) (f : nat -> nat -> R) :
  rsum n (fun i => rsum m (fun j => f i j)) =
  rsum m (fun j => rsum n (fun i => f i j)).
Proof.
  induction n as [|n IH]; simpl.
  - symmetry. apply rsum_zero. reflexivity.
  - rewrite IH, <- rsum_plus. reflexivity.
Qed.

(** Splitting off the first term. *)
Lemma rsum_shift (n : nat) (g : nat -> R) :
  rsum (S n) g = g 0%nat + rsum n (fun i => g (S i)).
Proof.
  induction n as [|n IH]; [simpl; ring|].
  change (rsum (S (S n)) g) with (rsum (S n) g + g (S n)).
  rewrite IH. simpl. ring.
Qed.

(** Summing in the reverse order. *)
Lemma rsum_rev (n : nat) (f : nat -> R) :
  rsum n f = rsum n (fun i => f (n - 1 - i)%nat).
Proof.
  revert f. induction n as [|n IH]; intros f; [reflexivity|].
  rewrite rsum_shift, (IH (fun i => f (S i))).
  change (rsum (S n) (fun i => f (S n - 1 - i)%nat))
    with (rsum n (fun i => f (S n - 1 - i)%nat) + f (S n - 1 - n)%nat).
  replace (S n - 1 - n)%nat with 0%nat by lia.
  rewrite Rplus_comm. f_equal.
  apply rsum_ext. intros i Hi. f_equal. lia.
Qed.

Lemma rsum_delta (n j : nat) (f : nat -> R) :
  (j < n)%nat -> rsum n (fun k => f k * delta k j) = f j.
Proof.
  induction n as [|n IH]; intros Hj; [lia|]. simpl.
  destruct (Nat.eq_dec j n) as [->|Hne].
  - rewrite rsum_zero.
    + unfold delta. rewrite Nat.eqb_refl. ring.
    + intros i Hi. unfold delta.
      destruct (Nat.eqb_spec i n); [lia | ring].
  - rewrite IH by lia. unfold delta at 1.
    destruct (Nat.eqb_spec n j); [lia | ring].
Qed.

(** ** Loops and indexing *)

Ltac lia_div := Z.to_euclidean_division_equations; lia.

Lemma half_of_nat (n : nat) : Z.of_nat (n / 2) = (Z.of_nat n / 2)%Z.
Proof. apply (Nat2Z.inj_div n 2). Qed.

Lemma for_each_app {A B : Type} (l1 l2 : list B) (body : B -> A -> res A) (a : A) :
  for_each (l1 ++ l2) body a = a' <- for_each l1 body a ;; for_each l2 body a'.
Proof.
  revert a. induction l1 as [|x l1 IH]; intros a; simpl; [reflexivity|].
  destruct (body x a); simpl; [apply IH | reflexivity].
Qed.

Lemma py_range_nat (n : nat) :
  py_range 0 (Z.of_nat n) = map Z.of_nat (seq 0 n).
Proof.
  unfold py_range. rewrite Z.sub_0_r, Nat2Z.id. reflexivity.
Qed.

Lemma in_py_range (lo hi i : Z) :
  In i (py_range lo hi) <-> (lo <= i < hi)%Z.
Proof.
  unfold py_range. rewrite in_map_iff. split.
  - intros [k [<- Hk]]. apply in_seq in Hk. lia.
  - intros H. exists (Z.to_nat (i - lo)). split; [lia|].
    apply in_seq. lia.
Qed.

Lemma py_range_empty (lo hi : Z) : (hi <= lo)%Z -> py_range lo hi = [].
Proof.
  intros H. unfold py_range.
  replace (Z.to_nat (hi - lo)) with 0%nat by lia. reflexivity.
Qed.

(** A loop whose body adds [f k] to the accumulator computes a sum. *)
Lemma for_each_sum (n : nat) (body : Z -> R -> res R) (f : nat -> R) :
  (forall k acc, (k < n)%nat -> body (Z.of_nat k) acc = Ok (acc + f k)) ->
  forall acc,
    for_each (py_range 0 (Z.of_nat n)) body acc = Ok (acc + rsum n f).
Proof.
  rewrite py_range_nat.
  induction n as [|n IH]; intros H acc.
  - simpl. f_equal. ring.
  - rewrite seq_S, map_app, for_each_app, IH by (intros; apply H; lia).
    simpl. rewrite H by lia. simpl. f_equal. ring.
Qed.

Lemma norm_index_in (n : nat) (i : Z) :
  (0 <= i < Z.of_nat n)%Z -> norm_index n i = Ok (Z.to_nat i).
Proof.
  intros H. unfold norm_index.
  replace (0 <=? i)%Z with true by (symmetry; apply Z.leb_le; lia).
  replace (i <? Z.of_nat n)%Z with true by (symmetry; apply Z.ltb_lt; lia).
  reflexivity.
Qed.

Lemma norm_index_wrap (n : nat) (i : Z) :
  (- Z.of_nat n <= i < 0)%Z -> norm_index n i = Ok (Z.to_nat (i + Z.of_nat n)).
Proof.
  intros H. unfold norm_index.
  replace (0 <=? i)%Z with false by (symmetry; apply Z.leb_gt; lia).
  replace (- Z.of_nat n <=? i)%Z with true by (symmetry; apply Z.leb_le; lia).
  replace (i <? 0)%Z with true by (symmetry; apply Z.ltb_lt; lia).
  reflexivity.
Qed.

Lemma norm_index_out (n : nat) (i : Z) :
  (i < - Z.of_nat n \/ Z.of_nat n <= i)%Z -> norm_index n i = Raise IndexError.
Proof.
  intros H. unfold norm_index.
  destruct (Z.leb_spec 0 i), (Z.ltb_spec i (Z.of_nat n)),
    (Z.leb_spec (- Z.of_nat n) i), (Z.ltb_spec i 0); simpl; try reflexivity; lia.
Qed.

Lemma getitem3_in (a : ndarray3) (i j k : Z) :
  (0 <= i < Z.of_nat (dimX a))%Z ->
  (0 <= j < Z.of_nat (dimY a))%Z ->
  (0 <= k < Z.of_nat (dimZ a))%Z ->
  getitem3 a i j k = Ok (data3 a (Z.to_nat i) (Z.to_nat j) (Z.to_nat k)).
Proof.
  intros Hi Hj Hk. unfold getitem3.
  rewrite !norm_index_in by assumption. reflexivity.
Qed.

Lemma upd_length (l : list R) (n : nat) (v : R) : length (upd l n v) = length l.
Proof.
  revert n. induction l as [|h t IH]; intros [|n]; simpl; auto.
Qed.

Lemma nth_upd (l : list R) (n j : nat) (v : R) :
  (n < length l)%nat ->
  nth j (upd l n v) 0 = if Nat.eqb j n then v else nth j l 0.
Proof.
  revert n j. induction l as [|h t IH]; intros n j Hn; simpl in Hn; [lia|].
  destruct n as [|n], j as [|j]; simpl; try reflexivity.
  apply IH. lia.
Qed.

(** A loop that stores [g i] at every index [i] of a list of valid
    indices. *)
Lemma for_each_setitem (g : Z -> R) (body : Z -> list R -> res (list R))
      (l : list Z) :
  forall result,
    (forall i, In i l -> (0 <= i < Z.of_nat (length result))%Z) ->
    (forall i r, In i l -> body i r = setitem1 r i (g i)) ->
    exists out,
      for_each l body result = Ok out /\
      length out = length result /\
      forall j, (In (Z.of_nat j) l -> nth j out 0 = g (Z.of_nat j)) /\
                (~ In (Z.of_nat j) l -> nth j out 0 = nth j result 0).
Proof.
  induction l as [|i l IH]; intros result Hin Hbody.
  - exists result. simpl. repeat split; tauto.
  - assert (Hi : (0 <= i < Z.of_nat (length result))%Z)
      by (apply Hin; left; reflexivity).
    simpl. rewrite Hbody by (left; reflexivity).
    unfold setitem1. rewrite norm_index_in by exact Hi. simpl.
    destruct (IH (upd result (Z.to_nat i) (g i))) as [out [E [L N]]].
    + intros k Hk. rewrite upd_length. apply Hin. right. exact Hk.
    + intros k r Hk. apply Hbody. right. exact Hk.
    + exists out. split; [exact E|]. split; [rewrite L; apply upd_length|].
      intros j. destruct (N j) as [N1 N2]. split.
      * intros [->|Hj]; [|auto].
        destruct (in_dec Z.eq_dec (Z.of_nat j) l) as [Hl|Hl]; [auto|].
        rewrite N2 by exact Hl. rewrite nth_upd by lia.
        rewrite Nat2Z.id, Nat.eqb_refl. reflexivity.
      * intros Hj. rewrite N2 by tauto. rewrite nth_upd by lia.
        destruct (Nat.eqb_spec j (Z.to_nat i)) as [->|]; [|reflexivity].
        exfalso. apply Hj. left. lia.
Qed.

(** ** What the centre-trace convolution computes *)

Lemma np_zeros_length (n : nat) : length (np_zeros n) = n.
Proof. apply repeat_length. Qed.

Lemma nth_np_zeros (n j : nat) : nth j (np_zeros n) 0 = 0.
Proof.
  unfold np_zeros. revert j. induction n as [|n IH]; intros [|j]; simpl; auto.
Qed.

(** The three inner loops never leave the block when its trace extents
    are at least those of the kernel, and accumulate the correlation sum. *)
Lemma inner_loops_sum (arr filt : ndarray3) (i : Z) :
  (dimX filt <= dimX arr)%nat ->
  (dimY filt <= dimY arr)%nat ->
  (Z.of_nat (dimZ filt) / 2 <= i < Z.of_nat (dimZ arr) - Z.of_nat (dimZ filt) / 2)%Z ->
  let X := Z.of_nat (dimX arr) in
  let Y := Z.of_nat (dimY arr) in
  let Xf := Z.of_nat (dimX filt) in
  let Yf := Z.of_nat (dimY filt) in
  let Zf := Z.of_nat (dimZ filt) in
  for_each (py_range 0 Xf) (fun ii num =>
    for_each (py_range 0 Yf) (fun jj num =>
      for_each (py_range 0 Zf) (fun kk num =>
        f <- getitem3 filt (Xf - 1 - ii) (Yf - 1 - jj) (Zf - 1 - kk) ;;
        a <- getitem3 arr (X / 2 - Xf / 2 + ii) (Y / 2 - Yf / 2 + jj)
                          (i - Zf / 2 + kk) ;;
        Ok (num + f * a)) num) num) 0
  = Ok (conv_at arr filt (Z.to_nat i)).
Proof.
  intros HX HY Hi X Y Xf Yf Zf.
  replace (conv_at arr filt (Z.to_nat i)) with (0 + conv_at arr filt (Z.to_nat i))
    by ring.
  unfold conv_at.
  apply for_each_sum. intros ii acc Hii.
  apply for_each_sum. intros jj acc' Hjj.
  apply for_each_sum. intros kk acc'' Hkk.
  subst X Y Xf Yf Zf.
  rewrite !getitem3_in by lia_div. cbn [bind].
  pose proof (half_of_nat (dimX arr)). pose proof (half_of_nat (dimX filt)).
  pose proof (half_of_nat (dimY arr)). pose proof (half_of_nat (dimY filt)).
  pose proof (half_of_nat (dimZ filt)).
  repeat match goal with
         | |- Ok _ = Ok _ => apply f_equal
         | |- (_ + _)%R = (_ + _)%R => apply f_equal
         | |- (_ * _)%R = (_ * _)%R => apply f_equal2
         | |- data3 _ _ _ _ = data3 _ _ _ _ => f_equal
         end; lia_div.
Qed.

Lemma sconvolve_in_bounds (arr filt : ndarray3) :
  (dimX filt <= dimX arr)%nat ->
  (dimY filt <= dimY arr)%nat ->
  exists out,
    Coef.sconvolve arr filt = Ok out /\
    length out = dimZ arr /\
    forall z,
      (valid_sample (dimZ arr) (dimZ filt) z -> nth z out 0 = conv_at arr filt z) /\
      (~ valid_sample (dimZ arr) (dimZ filt) z -> nth z out 0 = 0).
Proof.
  intros HX HY. unfold Coef.sconvolve.
  destruct (for_each_setitem
              (fun i => conv_at arr filt (Z.to_nat i))
              (fun i result =>
                 num <- for_each (py_range 0 (Z.of_nat (dimX filt))) (fun ii num =>
                   for_each (py_range 0 (Z.of_nat (dimY filt))) (fun jj num =>
                     for_each (py_range 0 (Z.of_nat (dimZ filt))) (fun kk num =>
                       f <- getitem3 filt (Z.of_nat (dimX filt) - 1 - ii)
                              (Z.of_nat (dimY filt) - 1 - jj)
                              (Z.of_nat (dimZ filt) - 1 - kk) ;;
                       a <- getitem3 arr
                              (Z.of_nat (dimX arr) / 2 - Z.of_nat (dimX filt) / 2 + ii)
                              (Z.of_nat (dimY arr) / 2 - Z.of_nat (dimY filt) / 2 + jj)
                              (i - Z.of_nat (dimZ filt) / 2 + kk) ;;
                       Ok (num + f * a)) num) num) 0 ;;
                 setitem1 result i num)
              (py_range (Z.of_nat (dimZ filt) / 2)
                        (Z.of_nat (dimZ arr) - Z.of_nat (dimZ filt) / 2))
              (np_zeros (dimZ arr))) as [out [E [L N]]].
  - intros i Hi. apply in_py_range in Hi. rewrite np_zeros_length. lia_div.
  - intros i r Hi. apply in_py_range in Hi.
    rewrite inner_loops_sum by assumption. reflexivity.
  - exists out. split; [exact E|]. split; [rewrite L; apply np_zeros_length|].
    intros z. destruct (N z) as [N1 N2].
    pose proof (half_of_nat (dimZ filt)) as Hh.
    unfold valid_sample. split.
    + intros Hv. rewrite N1, Nat2Z.id; [reflexivity|].
      apply in_py_range. lia.
    + intros Hv. rewrite N2; [apply nth_np_zeros|].
      rewrite in_py_range. lia.
Qed.

(** A loop that stores one value per round leaves the length and all
    other positions as they were, whenever it returns. *)
Lemma for_each_setitem_frame (inner : Z -> res R) (l : list Z) :
  forall result out,
    (forall i, In i l -> (0 <= i < Z.of_nat (length result))%Z) ->
    for_each l (fun i r => num <- inner i ;; setitem1 r i num) result = Ok out ->
    length out = length result /\
    forall j, ~ In (Z.of_nat j) l -> nth j out 0 = nth j result 0.
Proof.
  induction l as [|i l IH]; intros result out Hin H; simpl in H.
  - injection H as <-. split; reflexivity.
  - assert (Hi : (0 <= i < Z.of_nat (length result))%Z)
      by (apply Hin; left; reflexivity).
    destruct (inner i) as [num|e]; simpl in H; [|discriminate H].
    unfold setitem1 in H. rewrite norm_index_in in H by exact Hi.
    simpl in H. apply IH in H.
    + destruct H as [L N]. rewrite upd_length in L. split; [exact L|].
      intros j Hj. rewrite N by (intros Hl; apply Hj; right; exact Hl).
      rewrite nth_upd by lia.
      destruct (Nat.eqb_spec j (Z.to_nat i)) as [->|]; [|reflexivity].
      exfalso. apply Hj. left. lia.
    + intros k Hk. rewrite upd_length. apply Hin. right. exact Hk.
Qed.

(** Whenever [sconvolve] returns, the profile has the length of the
    block's z-extent and is zero outside the valid range. *)
Lemma sconvolve_returns (arr filt : ndarray3) (out : list R) :
  Coef.sconvolve arr filt = Ok out ->
  length out = dimZ arr /\
  forall z, ~ valid_sample (dimZ arr) (dimZ filt) z -> nth z out 0 = 0.
Proof.
  unfold Coef.sconvolve. cbv zeta. intros H.
  apply (for_each_setitem_frame
           (fun i =>
              for_each (py_range 0 (Z.of_nat (dimX filt))) (fun ii num =>
                for_each (py_range 0 (Z.of_nat (dimY filt))) (fun jj num =>
                  for_each (py_range 0 (Z.of_nat (dimZ filt))) (fun kk num =>
                    f <- getitem3 filt (Z.of_nat (dimX filt) - 1 - ii)
                           (Z.of_nat (dimY filt) - 1 - jj)
                           (Z.of_nat (dimZ filt) - 1 - kk) ;;
                    a <- getitem3 arr
                           (Z.of_nat (dimX arr) / 2 - Z.of_nat (dimX filt) / 2 + ii)
                           (Z.of_nat (dimY arr) / 2 - Z.of_nat (dimY filt) / 2 + jj)
                           (i - Z.of_nat (dimZ filt) / 2 + kk) ;;
                    Ok (num + f * a)) num) num) 0)) in H.
  - destruct H as [L N]. rewrite np_zeros_length in L. split; [exact L|].
    intros z Hz. rewrite N; [apply nth_np_zeros|].
    rewrite in_py_range. pose proof (half_of_nat (dimZ filt)).
    unfold valid_sample in Hz. lia.
  - intros i Hi. apply in_py_range in Hi. rewrite np_zeros_length. lia_div.
Qed.

Lemma sconvolve_short_block (arr filt : ndarray3) :
  (dimZ arr < dimZ filt)%nat -> Coef.sconvolve arr filt = Ok (np_zeros (dimZ arr)).
Proof.
  intros H. unfold Coef.sconvolve.
  rewrite py_range_empty; [reflexivity | lia_div].
Qed.

(** C2: when the block is at least as large as the kernel on every axis,
    both copies of [sconvolve] return a profile whose value at every [z]
    of the valid range [[Zf/2, Z - Zf/2)] is the sum over all kernel
    indices [(ii, jj, kk)] of [kernel[Xf-1-ii, Yf-1-jj, Zf-1-kk]] times
    [block[X/2 - Xf/2 + ii, Y/2 - Yf/2 + jj, z - Zf/2 + kk]]; for a kernel
    of z-extent 3 and a block of z-extent 7 the loop visits exactly the
    samples 1, 2, 3, 4, 5. *)
Theorem C2_sconvolve_flipped_correlation (arr filt : ndarray3) :
  (dimX filt <= dimX arr)%nat ->
  (dimY filt <= dimY arr)%nat ->
  (dimZ filt <= dimZ arr)%nat ->
  (exists out,
     Coef.sconvolve arr filt = Ok out /\
     Extlib.sconvolve arr filt = Ok out /\
     forall z, (dimZ filt / 2 <= z < dimZ arr - dimZ filt / 2)%nat ->
               nth z out 0 = conv_at arr filt z) /\
  (dimZ filt = 3%nat -> dimZ arr = 7%nat ->
   py_range (Z.of_nat (dimZ filt) / 2)
            (Z.of_nat (dimZ arr) - Z.of_nat (dimZ filt) / 2)
   = [1; 2; 3; 4; 5]%Z /\
   forall z, valid_sample (dimZ arr) (dimZ filt) z <-> (1 <= z <= 5)%nat).
Proof.
  intros HX HY HZ. split.
  - destruct (sconvolve_in_bounds arr filt HX HY) as [out [E [_ N]]].
    exists out. split; [exact E|]. split; [exact E|].
    intros z Hz. apply (N z). unfold valid_sample. lia.
  - intros -> ->. split; [reflexivity|].
    intros z. unfold valid_sample.
    change (3 / 2)%nat with 1%nat. lia.
Qed.

Lemma C2_sconvolve_flipped_correlation_witness :
  (exists out,
     Coef.sconvolve trace7 kernel3 = Ok out /\
     Extlib.sconvolve trace7 kernel3 = Ok out /\
     forall z, (dimZ kernel3 / 2 <= z < dimZ trace7 - dimZ kernel3 / 2)%nat ->
               nth z out 0 = conv_at trace7 kernel3 z) /\
  (dimZ kernel3 = 3%nat -> dimZ trace7 = 7%nat ->
   py_range (Z.of_nat (dimZ kernel3) / 2)
            (Z.of_nat (dimZ trace7) - Z.of_nat (dimZ kernel3) / 2)
   = [1; 2; 3; 4; 5]%Z /\
   forall z, valid_sample (dimZ trace7) (dimZ kernel3) z <-> (1 <= z <= 5)%nat).
Proof.
  apply (C2_sconvolve_flipped_correlation trace7 kernel3); simpl; lia.
Defined.

(** The value the loop stores at sample 3 of [trace7] under [kernel3]:
    [3*2 + 2*3 + 1*4]. *)
Example conv_at_trace7 : conv_at trace7 kernel3 3 = 16.
Proof. unfold conv_at. simpl. lra. Qed.

(** C10, as stated, fails: with a block of one trace and a kernel three
    traces wide, the z-extents being equal, the index of the third kernel
    column is past the end of the block and the call raises [IndexError]
    instead of returning a vector. *)
Lemma C10_counterexample :
  ~ (forall arr filt : ndarray3,
        (dimZ filt <= dimZ arr)%nat ->
        exists out,
          Coef.sconvolve arr filt = Ok out /\
          length out = dimZ arr /\
          forall z, ~ valid_sample (dimZ arr) (dimZ filt) z -> nth z out 0 = 0).
Proof.
  intros H.
  destruct (H (const_block 1 1 3 1) (const_block 3 1 3 1)) as [out [E _]].
  - simpl. lia.
  - vm_compute in E. discriminate E.
Qed.

(** C10, amended: for every block and kernel with [Zf <= Z], whenever a
    copy of [sconvolve] returns, the result is a vector of length exactly
    [Z] whose entries outside the valid range are [0]; and it does return
    when the block's trace extents are at least the kernel's. *)
Theorem C10_zero_outside_valid_range (arr filt : ndarray3) :
  (dimZ filt <= dimZ arr)%nat ->
  (forall out,
      Coef.sconvolve arr filt = Ok out \/ Extlib.sconvolve arr filt = Ok out ->
      length out = dimZ arr /\
      forall z, (z < dimZ arr)%nat ->
                ~ (dimZ filt / 2 <= z < dimZ arr - dimZ filt / 2)%nat ->
                nth z out 0 = 0) /\
  ((dimX filt <= dimX arr)%nat -> (dimY filt <= dimY arr)%nat ->
   exists out,
     Coef.sconvolve arr filt = Ok out /\ Extlib.sconvolve arr filt = Ok out).
Proof.
  intros HZ. split.
  - intros out H.
    assert (E : Coef.sconvolve arr filt = Ok out) by (destruct H; assumption).
    destruct (sconvolve_returns arr filt out E) as [L N].
    split; [exact L|]. intros z Hz Hv. apply N. unfold valid_sample. lia.
  - intros HX HY.
    destruct (sconvolve_in_bounds arr filt HX HY) as [out [E _]].
    exists out. split; exact E.
Qed.

Lemma C10_zero_outside_valid_range_witness :
  (forall out,
      Coef.sconvolve trace7 kernel3 = Ok out \/
      Extlib.sconvolve trace7 kernel3 = Ok out ->
      length out = dimZ trace7 /\
      forall z, (z < dimZ trace7)%nat ->
                ~ (dimZ kernel3 / 2 <= z < dimZ trace7 - dimZ kernel3 / 2)%nat ->
                nth z out 0 = 0) /\
  ((dimX kernel3 <= dimX trace7)%nat -> (dimY kernel3 <= dimY trace7)%nat ->
   exists out,
     Coef.sconvolve trace7 kernel3 = Ok out /\
     Extlib.sconvolve trace7 kernel3 = Ok out).
Proof.
  apply (C10_zero_outside_valid_range trace7 kernel3). simpl. lia.
Defined.

(** ** Blocks smaller than the kernel *)

Lemma index_only_bind {A B : Type} (m : res A) (k : A -> res B) :
  index_only m -> (forall a, index_only (k a)) -> index_only (bind m k).
Proof.
  intros Hm Hk e. destruct m as [a|e']; simpl.
  - apply Hk.
  - intros E. apply Hm. congruence.
Qed.

Lemma index_only_for_each {A B : Type} (l : list B) (body : B -> A -> res A) :
  (forall x a, index_only (body x a)) ->
  forall a, index_only (for_each l body a).
Proof.
  intros Hb. induction l as [|x l IH]; intros a; simpl.
  - intros e E. discriminate E.
  - apply index_only_bind; [apply Hb | exact IH].
Qed.

(** A loop one of whose rounds always raises [IndexError], the others
    raising nothing else, raises [IndexError]. *)
Lemma for_each_raises {A B : Type} (l : list B) (body : B -> A -> res A) (x0 : B) :
  In x0 l ->
  (forall a, body x0 a = Raise IndexError) ->
  (forall x a, index_only (body x a)) ->
  forall a, for_each l body a = Raise IndexError.
Proof.
  intros Hin H0 Hb. induction l as [|x l IH]; intros a; [destruct Hin|].
  simpl. destruct (body x a) as [a'|e] eqn:E; simpl.
  - destruct Hin as [->|Hin].
    + rewrite H0 in E. discriminate E.
    + apply IH. exact Hin.
  - f_equal. apply (Hb x a). exact E.
Qed.

Lemma index_only_norm_index (n : nat) (i : Z) : index_only (norm_index n i).
Proof.
  unfold norm_index. intros e.
  destruct (_ && _); [discriminate|].
  destruct (_ && _); [discriminate|]. congruence.
Qed.

Lemma index_only_getitem3 (a : ndarray3) (i j k : Z) : index_only (getitem3 a i j k).
Proof.
  unfold getitem3.
  repeat (apply index_only_bind; [apply index_only_norm_index | intros ?]).
  intros e E. discriminate E.
Qed.

Lemma index_only_setitem1 (l : list R) (i : Z) (v : R) : index_only (setitem1 l i v).
Proof.
  unfold setitem1.
  apply index_only_bind; [apply index_only_norm_index | intros ?].
  intros e E. discriminate E.
Qed.

Lemma index_only_sconvolve (arr filt : ndarray3) :
  index_only (Coef.sconvolve arr filt).
Proof.
  unfold Coef.sconvolve. cbv zeta.
  apply index_only_for_each. intros i r.
  apply index_only_bind; [|intros; apply index_only_setitem1].
  apply index_only_for_each. intros ii a.
  apply index_only_for_each. intros jj a'.
  apply index_only_for_each. intros kk a''.
  apply index_only_bind; [apply index_only_getitem3 | intros f].
  apply index_only_bind; [apply index_only_getitem3 | intros v].
  intros e E. discriminate E.
Qed.

Lemma bind_raises {A B : Type} (m : res A) (k : A -> res B) :
  index_only m -> (forall a, k a = Raise IndexError) ->
  bind m k = Raise IndexError.
Proof.
  intros Hm Hk. destruct m as [a|e]; simpl; [apply Hk|].
  f_equal. apply Hm. reflexivity.
Qed.

Lemma index_only_inner_body (arr filt : ndarray3) (i1 i2 i3 j1 j2 j3 : Z) (num : R) :
  index_only (f <- getitem3 filt i1 i2 i3 ;;
              a <- getitem3 arr j1 j2 j3 ;;
              Ok (num + f * a)).
Proof.
  apply index_only_bind; [apply index_only_getitem3 | intros f].
  apply index_only_bind; [apply index_only_getitem3 | intros v].
  intros e E. discriminate E.
Qed.

Ltac index_only_loops :=
  repeat first [ apply index_only_inner_body
               | apply index_only_for_each; intros ].

(** With a non-empty kernel and a non-empty valid range, a block whose
    upper half along x or along y is shorter than the kernel's makes the
    first output sample raise [IndexError]. *)
Lemma sconvolve_index_error (arr filt : ndarray3) :
  (0 < dimX filt)%nat -> (0 < dimY filt)%nat -> (0 < dimZ filt)%nat ->
  (2 * (dimZ filt / 2) < dimZ arr)%nat ->
  (dimX arr - dimX arr / 2 < dimX filt - dimX filt / 2 \/
   dimY arr - dimY arr / 2 < dimY filt - dimY filt / 2)%nat ->
  Coef.sconvolve arr filt = Raise IndexError.
Proof.
  intros PX PY PZ HR Hxy. unfold Coef.sconvolve. cbv zeta.
  pose proof (half_of_nat (dimX arr)). pose proof (half_of_nat (dimX filt)).
  pose proof (half_of_nat (dimY arr)). pose proof (half_of_nat (dimY filt)).
  pose proof (half_of_nat (dimZ filt)).
  apply for_each_raises with (x0 := (Z.of_nat (dimZ filt) / 2)%Z).
  - apply in_py_range. lia.
  - intros r.
    match goal with |- bind ?m _ = _ => assert (E : m = Raise IndexError) end;
      [| rewrite E; reflexivity].
    destruct Hxy as [Hx|Hy].
    + apply for_each_raises with (x0 := (Z.of_nat (dimX filt) - 1)%Z);
        [apply in_py_range; lia | | intros; index_only_loops].
      intros a. apply for_each_raises with (x0 := 0%Z);
        [apply in_py_range; lia | | intros; index_only_loops].
      intros a'. apply for_each_raises with (x0 := 0%Z);
        [apply in_py_range; lia | | intros; index_only_loops].
      intros a''. apply bind_raises; [apply index_only_getitem3 | intros f].
      unfold getitem3. rewrite norm_index_out by lia. reflexivity.
    + apply for_each_raises with (x0 := 0%Z);
        [apply in_py_range; lia | | intros; index_only_loops].
      intros a. apply for_each_raises with (x0 := (Z.of_nat (dimY filt) - 1)%Z);
        [apply in_py_range; lia | | intros; index_only_loops].
      intros a'. apply for_each_raises with (x0 := 0%Z);
        [apply in_py_range; lia | | intros; index_only_loops].
      intros a''. apply bind_raises; [apply index_only_getitem3 | intros f].
      match goal with
      | |- bind ?m _ = _ => assert (G : m = Raise IndexError)
      end; [| rewrite G; reflexivity].
      unfold getitem3. apply bind_raises; [apply index_only_norm_index | intros x].
      rewrite norm_index_out by lia. reflexivity.
  - intros i r. apply index_only_bind; [index_only_loops|].
    intros; apply index_only_setitem1.
Qed.

(** A block one trace wide under a kernel two traces wide is accepted:
    the index [-1] wraps around to the only trace. *)
Example sconvolve_wraps :
  Coef.sconvolve (const_block 1 1 3 1) (const_block 2 1 3 1) = Ok [0; 0 + 1 * 1 + 1 * 1 + 1 * 1 + 1 * 1 + 1 * 1 + 1 * 1; 0].
Proof. vm_compute. reflexivity. Qed.

(** C4, as stated, fails: a block of z-extent 1 under a kernel of z-extent
    3 raises nothing; the call returns a profile (of zeros). *)
Lemma C4_counterexample :
  ~ (forall arr filt : ndarray3,
        (dimX arr < dimX filt \/ dimY arr < dimY filt \/ dimZ arr < dimZ filt)%nat ->
        exists e, Coef.sconvolve arr filt = Raise e).
Proof.
  intros H.
  destruct (H (const_block 3 3 1 1) (const_block 3 3 3 1)) as [e E].
  - simpl. lia.
  - vm_compute in E. discriminate E.
Qed.

(** C4, amended: [sconvolve] checks no shape.  A block whose z-extent is
    smaller than the kernel's gets an all-zero profile of length [Z] and
    no error; the only exception the function can raise is [IndexError];
    and it does raise it when the kernel and the valid range are not empty
    and the block's upper half along x or y is shorter than the kernel's,
    so that a kernel index runs past the end of the block. *)
Theorem C4_no_shape_check (arr filt : ndarray3) :
  ((dimZ arr < dimZ filt)%nat ->
   Coef.sconvolve arr filt = Ok (np_zeros (dimZ arr)) /\
   Extlib.sconvolve arr filt = Ok (np_zeros (dimZ arr))) /\
  (forall e, Coef.sconvolve arr filt = Raise e \/ Extlib.sconvolve arr filt = Raise e ->
             e = IndexError) /\
  ((0 < dimX filt)%nat -> (0 < dimY filt)%nat -> (0 < dimZ filt)%nat ->
   (2 * (dimZ filt / 2) < dimZ arr)%nat ->
   (dimX arr - dimX arr / 2 < dimX filt - dimX filt / 2 \/
    dimY arr - dimY arr / 2 < dimY filt - dimY filt / 2)%nat ->
   Coef.sconvolve arr filt = Raise IndexError /\
   Extlib.sconvolve arr filt = Raise IndexError).
Proof.
  split; [|split].
  - intros H. split; apply sconvolve_short_block; exact H.
  - intros e [E|E]; apply (index_only_sconvolve arr filt e); exact E.
  - intros PX PY PZ HR Hxy. split; apply sconvolve_index_error; assumption.
Qed.

Lemma C4_no_shape_check_witness :
  Coef.sconvolve (const_block 3 3 1 1) (const_block 3 3 3 1) = Ok (np_zeros 1) /\
  Coef.sconvolve (const_block 1 1 3 1) (const_block 3 1 3 1) = Raise IndexError.
Proof.
  split.
  - apply (proj1 (C4_no_shape_check (const_block 3 3 1 1) (const_block 3 3 3 1))).
    simpl. lia.
  - apply (proj2 (proj2 (C4_no_shape_check (const_block 1 1 3 1)
                                            (const_block 3 1 3 1))));
      simpl; lia.
Defined.

(** C8: the two copies of [lpa3D_init] return the same kernel set for all
    arguments, and the two copies of [sconvolve] the same profile. *)
Theorem C8_duplicates_agree :
  (forall (xs ys zs : nat) (sigma : R),
      CoefInit.lpa3D_init xs ys zs sigma = EigenInit.lpa3D_init xs ys zs sigma) /\
  (forall arr filt : ndarray3,
      Coef.sconvolve arr filt = Extlib.sconvolve arr filt).
Proof. split; reflexivity. Qed.

(** ** The orientation tensor *)

Lemma tensor_entries (r : nat -> R) (g : R) (i j : nat) :
  ent (tensor r g) i j =
  rsum 3 (fun k => ent (curvature r) i k * ent (curvature r) j k)
  + g * (ent (gradient r) i 0%nat * ent (gradient r) j 0%nat).
Proof. unfold tensor. simpl. ring. Qed.

Lemma tensor_symmetric (r : nat -> R) (g : R) (i j : nat) :
  ent (tensor r g) i j = ent (tensor r g) j i.
Proof.
  rewrite !tensor_entries. f_equal; [|ring].
  apply rsum_ext. intros. ring.
Qed.

(** The quadratic form of the tensor is a sum of squares. *)
Lemma tensor_quad_form (r : nat -> R) (g : R) (v : nat -> R) :
  quad_form (tensor r g) v =
  rsum 3 (fun k => (rsum 3 (fun i => v i * ent (curvature r) i k)) ^ 2)
  + g * (rsum 3 (fun i => v i * ent (gradient r) i 0%nat)) ^ 2.
Proof.
  unfold quad_form, mat_vec.
  cbn [rsum]. rewrite !tensor_entries. cbn [rsum]. ring.
Qed.

Lemma tensor_psd (r : nat -> R) (g : R) (v : nat -> R) :
  0 <= g -> 0 <= quad_form (tensor r g) v.
Proof.
  intros Hg. rewrite tensor_quad_form. cbn [rsum].
  repeat match goal with
         | |- context [?x ^ 2] =>
             let s := fresh "s" in
             let Hs := fresh "Hs" in
             assert (Hs : 0 <= x ^ 2) by (apply pow2_ge_0);
             set (s := x ^ 2) in *; clearbody s
         end.
  nra.
Qed.

Section Symmetric3.

Variable T : matrix.
Hypothesis T_sym : forall i j, ent T i j = ent T j i.
Hypothesis T_psd : forall v, 0 <= quad_form T v.

(** A complex eigenvalue of a symmetric matrix is real. *)
Lemma sym_eigen_real (a b : R) (u v : nat -> R) :
  complex_eigenpair T a b u v -> b = 0.
Proof.
  intros [Hnz H].
  destruct (H 0%nat ltac:(lia)) as [U0 V0].
  destruct (H 1%nat ltac:(lia)) as [U1 V1].
  destruct (H 2%nat ltac:(lia)) as [U2 V2].
  assert (S : rsum 3 (fun i => v i * mat_vec T u i) =
              rsum 3 (fun i => u i * mat_vec T v i)).
  { unfold mat_vec. cbn [rsum].
    rewrite (T_sym 1 0), (T_sym 2 0), (T_sym 2 1). ring. }
  cbn [rsum] in S. rewrite U0, U1, U2, V0, V1, V2 in S.
  assert (B : b * (u 0%nat ^ 2 + u 1%nat ^ 2 + u 2%nat ^ 2 +
                   v 0%nat ^ 2 + v 1%nat ^ 2 + v 2%nat ^ 2) = 0) by lra.
  apply Rmult_integral in B. destruct B as [B|B]; [exact B|].
  exfalso.
  pose proof (pow2_ge_0 (u 0%nat)). pose proof (pow2_ge_0 (u 1%nat)).
  pose proof (pow2_ge_0 (u 2%nat)). pose proof (pow2_ge_0 (v 0%nat)).
  pose proof (pow2_ge_0 (v 1%nat)). pose proof (pow2_ge_0 (v 2%nat)).
  assert (Z0 : forall x, 0 <= x ^ 2 -> x ^ 2 <= 0 -> x = 0).
  { intros x _ Hx. simpl in Hx. nra. }
  destruct Hnz as [[N|[N|N]]|[N|[N|N]]]; apply N; apply Z0; lra.
Qed.

(** A real eigenvalue of a positive semi-definite matrix is not
    negative. *)
Lemma psd_eigen_nonneg (lam : R) : is_eigenvalue T lam -> 0 <= lam.
Proof.
  intros [v [Hnz H]].
  pose proof (T_psd v) as P. unfold quad_form in P. cbn [rsum] in P.
  rewrite (H 0%nat), (H 1%nat), (H 2%nat) in P by lia.
  pose proof (pow2_ge_0 (v 0%nat)) as P0. pose proof (pow2_ge_0 (v 1%nat)) as P1.
  pose proof (pow2_ge_0 (v 2%nat)) as P2.
  assert (S : 0 < v 0%nat ^ 2 + v 1%nat ^ 2 + v 2%nat ^ 2).
  { assert (Z0 : forall x, x <> 0 -> 0 < x ^ 2).
    { intros x Hx. simpl. nra. }
    destruct Hnz as [N|[N|N]]; apply Z0 in N; lra. }
  assert (E : 0 <= lam * (v 0%nat ^ 2 + v 1%nat ^ 2 + v 2%nat ^ 2)) by lra.
  nra.
Qed.

Lemma sym_psd_complex_eigen (a b : R) (u v : nat -> R) :
  complex_eigenpair T a b u v -> b = 0 /\ 0 <= a.
Proof.
  intros H. pose proof (sym_eigen_real a b u v H) as Hb. split; [exact Hb|].
  subst b. destruct H as [[Hnz|Hnz] H]; apply psd_eigen_nonneg.
  - exists u. split; [exact Hnz|]. intros i Hi.
    destruct (H i Hi) as [E _]. rewrite E. ring.
  - exists v. split; [exact Hnz|]. intros i Hi.
    destruct (H i Hi) as [_ E]. rewrite E. ring.
Qed.

End Symmetric3.

(** ** Sorting *)

Lemma insert_sorted_perm (a : R) (l : list R) :
  Permutation (insert_sorted a l) (a :: l).
Proof.
  induction l as [|b t IH]; simpl; [reflexivity|].
  destruct (Rle_dec a b); [reflexivity|].
  rewrite IH. apply perm_swap.
Qed.

Lemma np_sort_perm (l : list R) : Permutation (np_sort l) l.
Proof.
  induction l as [|a t IH]; simpl; [reflexivity|].
  rewrite insert_sorted_perm. apply perm_skip. exact IH.
Qed.

Lemma insert_sorted_sorted (a : R) (l : list R) :
  LocallySorted Rle l -> LocallySorted Rle (insert_sorted a l).
Proof.
  induction 1 as [|b|b c t Hs IH Hbc]; simpl.
  - constructor.
  - destruct (Rle_dec a b);
      (apply LSorted_consn; [apply LSorted_cons1 | lra]).
  - destruct (Rle_dec a b).
    + apply LSorted_consn; [apply LSorted_consn; assumption | assumption].
    + simpl in IH. destruct (Rle_dec a c).
      * apply LSorted_consn; [exact IH | lra].
      * apply LSorted_consn; assumption.
Qed.

Lemma np_sort_sorted (l : list R) : LocallySorted Rle (np_sort l).
Proof.
  induction l as [|a t IH]; simpl; [constructor|].
  apply insert_sorted_sorted. exact IH.
Qed.

(** Sorting three numbers. *)
Lemma np_sort3 (a b c : R) :
  exists x y z,
    np_sort [a; b; c] = [x; y; z] /\ x <= y /\ y <= z /\
    Permutation [x; y; z] [a; b; c].
Proof.
  pose proof (np_sort_perm [a; b; c]) as P.
  pose proof (np_sort_sorted [a; b; c]) as S.
  pose proof (Permutation_length P) as L.
  destruct (np_sort [a; b; c]) as [|x [|y [|z [|? ?]]]]; try discriminate L.
  exists x, y, z. inversion S as [| |? ? ? S' Hxy]; subst.
  inversion S' as [| |? ? ? _ Hyz]; subst.
  repeat split; assumption.
Qed.

Lemma nth_map_seq (f : nat -> R) (n s : nat) :
  (s < n)%nat -> nth s (map f (seq 0 n)) 0 = f s.
Proof.
  intros H. rewrite (nth_indep _ 0 (f 0%nat)) by (rewrite length_map, length_seq; exact H).
  rewrite (map_nth f (seq 0 n) 0%nat s), seq_nth by exact H. reflexivity.
Qed.

(** C5: for every coefficient tuple and every [gamma >= 0] the tensor
    [T = Ah Ah^t + gamma g g^t] is symmetric and positive semi-definite;
    hence every complex eigenvalue [a + b i] of [T] is real ([b = 0]) and
    not negative, and when the three numbers the eigensolver returns are
    eigenvalues of [T] the smallest output [e3] is not negative. *)
Theorem C5_tensor_psd (r : nat -> R) (g : R) :
  0 <= g ->
  (forall i j, ent (tensor r g) i j = ent (tensor r g) j i) /\
  (forall v, 0 <= quad_form (tensor r g) v) /\
  (forall a b u v, complex_eigenpair (tensor r g) a b u v -> b = 0 /\ 0 <= a) /\
  (forall eigvalsh : matrix -> R * R * R,
      (let '(w0, w1, w2) := eigvalsh (tensor r g) in
       is_eigenvalue (tensor r g) w0 /\ is_eigenvalue (tensor r g) w1 /\
       is_eigenvalue (tensor r g) w2) ->
      let '(e1, e2, e3) := eigen_sample eigvalsh r g in
      0 <= e3 /\ e3 <= e2 /\ e2 <= e1).
Proof.
  intros Hg.
  assert (Sy : forall i j, ent (tensor r g) i j = ent (tensor r g) j i)
    by (intros; apply tensor_symmetric).
  assert (Ps : forall v, 0 <= quad_form (tensor r g) v)
    by (intros; apply tensor_psd; exact Hg).
  repeat split; try assumption.
  - apply (sym_eigen_real (tensor r g) Sy a b u v H).
  - apply (sym_psd_complex_eigen (tensor r g) Sy Ps a b u v H).
  - intros eigvalsh H. unfold eigen_sample.
    destruct (eigvalsh (tensor r g)) as [[w0 w1] w2].
    destruct H as [H0 [H1 H2]].
    apply (psd_eigen_nonneg _ Ps) in H0, H1, H2.
    destruct (np_sort3 w0 w1 w2) as [x [y [z [E [Hxy [Hyz P]]]]]].
    rewrite E. simpl. repeat split; try lra.
    assert (I : In x [w0; w1; w2])
      by (apply (Permutation_in x P); left; reflexivity).
    simpl in I. destruct I as [<-|[<-|[<-|[]]]]; assumption.
Qed.

Lemma C5_tensor_psd_witness :
  (forall i j, ent (tensor r_curv_x (25 / 128)) i j
               = ent (tensor r_curv_x (25 / 128)) j i) /\
  (forall v, 0 <= quad_form (tensor r_curv_x (25 / 128)) v) /\
  (forall a b u v,
      complex_eigenpair (tensor r_curv_x (25 / 128)) a b u v -> b = 0 /\ 0 <= a) /\
  (forall eigvalsh : matrix -> R * R * R,
      (let '(w0, w1, w2) := eigvalsh (tensor r_curv_x (25 / 128)) in
       is_eigenvalue (tensor r_curv_x (25 / 128)) w0 /\
       is_eigenvalue (tensor r_curv_x (25 / 128)) w1 /\
       is_eigenvalue (tensor r_curv_x (25 / 128)) w2) ->
      let '(e1, e2, e3) := eigen_sample eigvalsh r_curv_x (25 / 128) in
      0 <= e3 /\ e3 <= e2 /\ e2 <= e1).
Proof.
  apply (C5_tensor_psd r_curv_x (25 / 128)). lra.
Defined.

(** With [r4 = 1] and all other coefficients [0] the tensor is
    [diag(1, 0, 0)]: [1] is an eigenvalue, with eigenvector [e_x]. *)
Example tensor_curv_x_eigen : is_eigenvalue (tensor r_curv_x (25 / 128)) 1.
Proof.
  exists e_x. split; [left; unfold e_x; simpl; lra|].
  intros i Hi. unfold mat_vec. cbn [rsum]. rewrite !tensor_entries.
  destruct i as [|[|[|i]]]; [| | | lia]; unfold e_x, r_curv_x; simpl; lra.
Qed.

(** ** The mixing constant *)

(** C7: whenever the division is defined, [gam] is
    [1 / (8 * ((min(xs, ys, zs) - 1) * wf)^2)]; for [xs = ys = zs = 5] and
    [wf = 0.2] this is exactly [0.1953125]. *)
Theorem C7_gamma_formula (xs ys zs : nat) (wf : R) :
  wf <> 0 ->
  Nat.min xs (Nat.min ys zs) <> 1%nat ->
  gam xs ys zs wf =
    Ok (1 / (8 * ((INR (Nat.min xs (Nat.min ys zs)) - 1) * wf) ^ 2)) /\
  (xs = 5%nat -> ys = 5%nat -> zs = 5%nat -> wf = 0.2 ->
   gam xs ys zs wf = Ok 0.1953125).
Proof.
  intros Hwf Hmin.
  assert (Hm : INR (Nat.min xs (Nat.min ys zs)) - 1 <> 0).
  { intros E. apply Hmin. apply INR_eq. simpl. lra. }
  assert (Hd : 8 * ((INR (Nat.min xs (Nat.min ys zs)) - 1) * wf) ^ 2 <> 0).
  { apply Rmult_integral_contrapositive_currified; [lra|].
    apply pow_nonzero.
    apply Rmult_integral_contrapositive_currified; assumption. }
  assert (G : gam xs ys zs wf =
              Ok (1 / (8 * ((INR (Nat.min xs (Nat.min ys zs)) - 1) * wf) ^ 2))).
  { unfold gam. destruct (Req_EM_T _ 0) as [E|_]; [contradiction|reflexivity]. }
  split; [exact G|].
  intros -> -> -> ->. rewrite G. f_equal. simpl. lra.
Qed.

Lemma C7_gamma_formula_witness : gam 5 5 5 0.2 = Ok 0.1953125.
Proof.
  apply (C7_gamma_formula 5 5 5 0.2); try reflexivity; [lra | simpl; lia].
Defined.

(** ** The flattened grid *)

Lemma np_linspace_length (start stop : R) (n : nat) :
  length (np_linspace start stop n) = n.
Proof. unfold np_linspace. rewrite length_map, length_seq. reflexivity. Qed.

Lemma nth_np_linspace (n a : nat) :
  (a < n)%nat ->
  nth a (np_linspace (- ((INR n - 1) / 2)) ((INR n - 1) / 2) n) 0 = coord n a.
Proof.
  intros Ha. unfold np_linspace.
  rewrite nth_map_seq by exact Ha. unfold coord.
  destruct (Nat.ltb_spec 0 (n - 1)) as [Hn|Hn].
  - assert (E : INR (n - 1) = INR n - 1).
    { rewrite minus_INR by lia. simpl. reflexivity. }
    rewrite E.
    assert (1 < INR n) by (apply (lt_INR 1 n); lia).
    field. lra.
  - assert (n = 1%nat) by lia. subst n.
    assert (a = 0%nat) by lia. subst a. simpl. lra.
Qed.

(** Position [a * m + r] of a concatenation of blocks of length [m]. *)
Lemma nth_flat_map_blocks {A : Type} (f : A -> list R) (m : nat) (l : list A)
      (d : A) (a r : nat) :
  (forall x, length (f x) = m) ->
  (a < length l)%nat -> (r < m)%nat ->
  nth (a * m + r) (flat_map f l) 0 = nth r (f (nth a l d)) 0.
Proof.
  intros Hf. revert a. induction l as [|x l IH]; intros a Ha Hr; simpl in Ha; [lia|].
  simpl. destruct a as [|a].
  - simpl. rewrite app_nth1 by (rewrite Hf; exact Hr). reflexivity.
  - rewrite app_nth2 by (rewrite Hf; simpl; lia).
    rewrite Hf. replace (S a * m + r - m)%nat with (a * m + r)%nat by (simpl; lia).
    apply IH; [lia | exact Hr].
Qed.

Lemma flat_map_blocks_length {A : Type} (f : A -> list R) (m : nat) (l : list A) :
  (forall x, length (f x) = m) -> length (flat_map f l) = (length l * m)%nat.
Proof.
  intros Hf. induction l as [|x l IH]; simpl; [reflexivity|].
  rewrite length_app, Hf, IH. reflexivity.
Qed.

Section Meshgrid.

Variables xt yt zt : list R.

Let xs := length xt.
Let ys := length yt.
Let zs := length zt.

Lemma meshgrid_inner_length (g : R -> list R) :
  (forall v, length (g v) = zs) -> length (flat_map g yt) = (ys * zs)%nat.
Proof. intros H. apply flat_map_blocks_length. exact H. Qed.

Lemma meshgrid_flat0_length :
  length (meshgrid_flat0 xt yt zt) = (xs * ys * zs)%nat.
Proof.
  unfold meshgrid_flat0.
  rewrite (flat_map_blocks_length _ (ys * zs)).
  - subst xs. lia.
  - intros x. apply meshgrid_inner_length. intros v. apply length_map.
Qed.

Lemma meshgrid_flat1_length :
  length (meshgrid_flat1 xt yt zt) = (xs * ys * zs)%nat.
Proof.
  unfold meshgrid_flat1.
  rewrite (flat_map_blocks_length _ (ys * zs)).
  - subst xs. lia.
  - intros x. apply meshgrid_inner_length. intros v. apply length_map.
Qed.

Lemma meshgrid_flat2_length :
  length (meshgrid_flat2 xt yt zt) = (xs * ys * zs)%nat.
Proof.
  unfold meshgrid_flat2.
  rewrite (flat_map_blocks_length _ (ys * zs)).
  - subst xs. lia.
  - intros x. apply meshgrid_inner_length. intros v. reflexivity.
Qed.

Variables a b c : nat.
Hypothesis Ha : (a < xs)%nat.
Hypothesis Hb : (b < ys)%nat.
Hypothesis Hc : (c < zs)%nat.

Lemma flat_index_split :
  flat_index ys zs a b c = (a * (ys * zs) + (b * zs + c))%nat /\
  (b * zs + c < ys * zs)%nat.
Proof. unfold flat_index. split; nia. Qed.

Lemma nth_meshgrid_flat0 :
  nth (flat_index ys zs a b c) (meshgrid_flat0 xt yt zt) 0 = nth a xt 0.
Proof.
  destruct flat_index_split as [-> Hlt]. unfold meshgrid_flat0.
  rewrite (nth_flat_map_blocks _ (ys * zs) xt 0 a _); try assumption.
  - rewrite (nth_flat_map_blocks _ zs yt 0 b c); try assumption.
    + rewrite (nth_indep _ 0 ((fun _ => nth a xt 0) 0))
        by (rewrite length_map; exact Hc).
      rewrite (map_nth (fun _ => nth a xt 0) zt 0 c). reflexivity.
    + intros v. apply length_map.
  - intros x. apply meshgrid_inner_length. intros v. apply length_map.
Qed.

Lemma nth_meshgrid_flat1 :
  nth (flat_index ys zs a b c) (meshgrid_flat1 xt yt zt) 0 = nth b yt 0.
Proof.
  destruct flat_index_split as [-> Hlt]. unfold meshgrid_flat1.
  rewrite (nth_flat_map_blocks _ (ys * zs) xt 0 a _); try assumption.
  - rewrite (nth_flat_map_blocks _ zs yt 0 b c); try assumption.
    + rewrite (nth_indep _ 0 ((fun _ => nth b yt 0) 0))
        by (rewrite length_map; exact Hc).
      rewrite (map_nth (fun _ => nth b yt 0) zt 0 c). reflexivity.
    + intros v. apply length_map.
  - intros x. apply meshgrid_inner_length. intros v. apply length_map.
Qed.

Lemma nth_meshgrid_flat2 :
  nth (flat_index ys zs a b c) (meshgrid_flat2 xt yt zt) 0 = nth c zt 0.
Proof.
  destruct flat_index_split as [-> Hlt]. unfold meshgrid_flat2.
  rewrite (nth_flat_map_blocks _ (ys * zs) xt 0 a _); try assumption.
  - rewrite (nth_flat_map_blocks _ zs yt 0 b c); try assumption.
    + reflexivity.
    + intros v. reflexivity.
  - intros x. apply meshgrid_inner_length. intros v. reflexivity.
Qed.

End Meshgrid.

(** ** Element-wise operations *)

Lemma arr_div_ok (a : list R) (d : R) :
  d <> 0 -> arr_div a d = Ok (map (fun v => v / d) a).
Proof.
  intros Hd. induction a as [|v a IH]; simpl; [reflexivity|].
  destruct (Req_EM_T d 0) as [E|_]; [contradiction|].
  rewrite IH. reflexivity.
Qed.

Lemma arr_div_zero (a : list R) (d : R) :
  d = 0 -> a <> [] -> arr_div a d = Raise NonFinite.
Proof.
  intros Hd Ha. destruct a as [|v a]; [contradiction|]. simpl.
  destruct (Req_EM_T d 0) as [_|N]; [reflexivity | contradiction].
Qed.

Lemma arr_div_nil (d : R) : arr_div [] d = Ok [].
Proof. reflexivity. Qed.

Lemma map2_length (f : R -> R -> R) (a b : list R) :
  length b = length a -> length (map2 f a b) = length a.
Proof.
  revert b. induction a as [|x a IH]; intros [|y b] H; simpl in *;
    try reflexivity; try discriminate.
  f_equal. apply IH. lia.
Qed.

Lemma nth_map2 (f : R -> R -> R) (a b : list R) (i : nat) :
  length b = length a -> (i < length a)%nat ->
  nth i (map2 f a b) 0 = f (nth i a 0) (nth i b 0).
Proof.
  revert b i. induction a as [|x a IH]; intros [|y b] i H Hi; simpl in *;
    try lia; try discriminate.
  destruct i as [|i]; [reflexivity|]. apply IH; lia.
Qed.

Lemma nth_map_R (f : R -> R) (l : list R) (i : nat) :
  (i < length l)%nat -> nth i (map f l) 0 = f (nth i l 0).
Proof.
  intros Hi. rewrite (nth_indep _ 0 (f 0)) by (rewrite length_map; exact Hi).
  apply map_nth.
Qed.

Lemma nth_repeat_R (v : R) (n i : nat) : (i < n)%nat -> nth i (repeat v n) 0 = v.
Proof.
  revert i. induction n as [|n IH]; intros i Hi; [lia|].
  destruct i as [|i]; simpl; [reflexivity | apply IH; lia].
Qed.

(** ** The arrays of [lpa3D_init] *)

Section Grid.

Variables xs ys zs : nat.
Variable sigma : R.

Let N := (xs * ys * zs)%nat.

Lemma lpa_x_length : length (lpa_x xs ys zs) = N.
Proof.
  unfold lpa_x. rewrite meshgrid_flat0_length, !np_linspace_length. reflexivity.
Qed.

Lemma lpa_y_length : length (lpa_y xs ys zs) = N.
Proof.
  unfold lpa_y. rewrite meshgrid_flat1_length, !np_linspace_length. reflexivity.
Qed.

Lemma lpa_z_length : length (lpa_z xs ys zs) = N.
Proof.
  unfold lpa_z. rewrite meshgrid_flat2_length, !np_linspace_length. reflexivity.
Qed.

Lemma lpa_w_length : length (lpa_w xs ys zs sigma) = N.
Proof.
  unfold lpa_w.
  rewrite !length_map, !map2_length; rewrite ?length_map, ?map2_length;
    rewrite ?length_map, ?lpa_x_length, ?lpa_y_length, ?lpa_z_length;
    reflexivity.
Qed.

Lemma flat_index_lt (a b c : nat) :
  (a < xs)%nat -> (b < ys)%nat -> (c < zs)%nat ->
  (flat_index ys zs a b c < N)%nat.
Proof.
  intros Ha Hb Hc. unfold flat_index, N.
  assert (H1 : (a * ys + b + 1 <= xs * ys)%nat) by nia.
  assert (H2 : ((a * ys + b + 1) * zs <= xs * ys * zs)%nat)
    by (apply Nat.mul_le_mono_r; exact H1).
  nia.
Qed.

Variables a b c : nat.
Hypothesis Ha : (a < xs)%nat.
Hypothesis Hb : (b < ys)%nat.
Hypothesis Hc : (c < zs)%nat.

Let p := flat_index ys zs a b c.

Lemma nth_lpa_x : nth p (lpa_x xs ys zs) 0 = coord xs a.
Proof.
  unfold lpa_x, p.
  rewrite <- (np_linspace_length (- ((INR ys - 1) / 2)) ((INR ys - 1) / 2) ys) at 1.
  rewrite <- (np_linspace_length (- ((INR zs - 1) / 2)) ((INR zs - 1) / 2) zs) at 1.
  rewrite nth_meshgrid_flat0 by (rewrite np_linspace_length; assumption).
  apply nth_np_linspace. exact Ha.
Qed.

Lemma nth_lpa_y : nth p (lpa_y xs ys zs) 0 = coord ys b.
Proof.
  unfold lpa_y, p.
  rewrite <- (np_linspace_length (- ((INR ys - 1) / 2)) ((INR ys - 1) / 2) ys) at 1.
  rewrite <- (np_linspace_length (- ((INR zs - 1) / 2)) ((INR zs - 1) / 2) zs) at 1.
  rewrite nth_meshgrid_flat1 by (rewrite np_linspace_length; assumption).
  apply nth_np_linspace. exact Hb.
Qed.

Lemma nth_lpa_z : nth p (lpa_z xs ys zs) 0 = coord zs c.
Proof.
  unfold lpa_z, p.
  rewrite <- (np_linspace_length (- ((INR ys - 1) / 2)) ((INR ys - 1) / 2) ys) at 1.
  rewrite <- (np_linspace_length (- ((INR zs - 1) / 2)) ((INR zs - 1) / 2) zs) at 1.
  rewrite nth_meshgrid_flat2 by (rewrite np_linspace_length; assumption).
  apply nth_np_linspace. exact Hc.
Qed.

Lemma p_lt : (p < N)%nat.
Proof. apply flat_index_lt; assumption. Qed.

(** A row of the design matrix holds the ten monomials at the grid
    point. *)
Lemma lpa_A_entry (j : nat) :
  ent (lpa_A xs ys zs) p j = monomial j (coord xs a) (coord ys b) (coord zs c).
Proof.
  pose proof p_lt as Hp.
  pose proof lpa_x_length as Lx. pose proof lpa_y_length as Ly.
  pose proof lpa_z_length as Lz.
  unfold lpa_A, design. cbn [ent].
  do 10 (destruct j as [|j];
         [cbn [nth monomial];
          rewrite ?nth_repeat_R, ?nth_map2 by lia;
          rewrite ?nth_lpa_x, ?nth_lpa_y, ?nth_lpa_z; reflexivity|]).
  cbn [nth monomial]. destruct j, p; reflexivity.
Qed.

(** The weight of a grid point is the product of the three axis
    factors. *)
Lemma lpa_w_entry :
  nth p (lpa_w xs ys zs sigma) 0 =
  axis_weight sigma xs a * axis_weight sigma ys b * axis_weight sigma zs c.
Proof.
  pose proof p_lt as Hp.
  pose proof lpa_x_length as Lx. pose proof lpa_y_length as Ly.
  pose proof lpa_z_length as Lz.
  unfold lpa_w.
  rewrite nth_map_R
    by (rewrite length_map, !map2_length; rewrite ?length_map, ?map2_length;
        rewrite ?length_map; lia).
  rewrite nth_map_R
    by (rewrite !map2_length; rewrite ?length_map, ?map2_length;
        rewrite ?length_map; lia).
  rewrite nth_map2
    by (rewrite ?length_map, ?map2_length; rewrite ?length_map; lia).
  rewrite nth_map2 by (rewrite ?length_map; lia).
  rewrite !nth_map_R by (rewrite ?length_map; lia).
  rewrite nth_lpa_x, nth_lpa_y, nth_lpa_z.
  unfold axis_weight. rewrite <- !exp_plus. f_equal. ring.
Qed.

End Grid.

(** ** Sums over the flattened grid *)

Lemma rsum_add (n m : nat) (f : nat -> R) :
  rsum (n + m) f = rsum n f + rsum m (fun i => f (n + i)%nat).
Proof.
  induction m as [|m IH].
  - rewrite Nat.add_0_r. simpl. ring.
  - rewrite Nat.add_succ_r. simpl. rewrite IH. ring.
Qed.

Lemma rsum_mul (n m : nat) (f : nat -> R) :
  rsum (n * m) f = rsum n (fun a => rsum m (fun r => f (a * m + r)%nat)).
Proof.
  induction n as [|n IH]; [reflexivity|].
  replace (S n * m)%nat with (n * m + m)%nat by lia.
  rewrite rsum_add, IH. reflexivity.
Qed.

Lemma rsum_flat (xs ys zs : nat) (f : nat -> R) :
  rsum (xs * ys * zs) f =
  rsum xs (fun a => rsum ys (fun b => rsum zs (fun c =>
    f (flat_index ys zs a b c)))).
Proof.
  rewrite rsum_mul, rsum_mul. reflexivity.
Qed.

(** A triple sum of products of one-variable terms is the product of the
    three sums. *)
Lemma rsum_separate (xs ys zs : nat) (f g h : nat -> R) :
  rsum xs (fun a => rsum ys (fun b => rsum zs (fun c => f a * g b * h c))) =
  rsum xs f * rsum ys g * rsum zs h.
Proof.
  rewrite (rsum_ext _ _ (fun a => f a * (rsum ys g * rsum zs h))).
  - rewrite rsum_scal_r. ring.
  - intros a _.
    rewrite (rsum_ext _ _ (fun b => (f a * rsum zs h) * g b)).
    + rewrite rsum_scal. ring.
    + intros b _. rewrite rsum_scal. ring.
Qed.

(** Multiplying by a diagonal matrix on the right scales the columns. *)
Lemma dot_diagflat (B : matrix) (w : list R) (i p : nat) :
  ncols B = length w -> (p < length w)%nat ->
  ent (dot B (diagflat w)) i p = ent B i p * nth p w 0.
Proof.
  intros Hc Hp. cbn [dot ent diagflat]. rewrite Hc.
  rewrite (rsum_ext _ _ (fun q => (ent B i q * nth q w 0) * delta q p)).
  - apply (rsum_delta (length w) p (fun q => ent B i q * nth q w 0)). exact Hp.
  - intros q Hq. unfold delta. destruct (Nat.eqb_spec q p); subst; ring.
Qed.

(** ** The normal matrix *)

Lemma monomial_pow (j : nat) (x y z : R) :
  (j < 10)%nat -> monomial j x y z = x ^ ex j * y ^ ey j * z ^ ez j.
Proof.
  intros Hj.
  do 10 (destruct j as [|j]; [unfold ex, ey, ez; simpl; ring|]). lia.
Qed.

Lemma lpa3D_init_eq (xs ys zs : nat) (sigma : R) :
  CoefInit.lpa3D_init xs ys zs sigma =
  tx <- arr_div (map (fun v => v ^ 2) (lpa_x xs ys zs))
                (2 * (sigma * (INR xs - 1)) ^ 2) ;;
  ty <- arr_div (map (fun v => v ^ 2) (lpa_y xs ys zs))
                (2 * (sigma * (INR ys - 1)) ^ 2) ;;
  tz <- arr_div (map (fun v => v ^ 2) (lpa_z xs ys zs))
                (2 * (sigma * (INR zs - 1)) ^ 2) ;;
  let w := map exp (map Ropp (map2 Rplus (map2 Rplus tx ty) tz)) in
  Ginv <- np_linalg_inv
            (dot (dot (transpose (lpa_A xs ys zs)) (diagflat w)) (lpa_A xs ys zs)) ;;
  Ok (reshape_kernel
        (dot (dot Ginv (transpose (lpa_A xs ys zs))) (diagflat w)) xs ys zs).
Proof. reflexivity. Qed.

Lemma divisor_zero_iff (sigma : R) (n : nat) :
  2 * (sigma * (INR n - 1)) ^ 2 = 0 <-> sigma = 0 \/ n = 1%nat.
Proof.
  split.
  - intros H.
    assert (E : sigma * (INR n - 1) = 0) by (simpl in H; nra).
    apply Rmult_integral in E. destruct E as [E|E]; [left; exact E|].
    right. apply INR_eq. simpl. lra.
  - intros [->| ->]; simpl; ring.
Qed.

(** With no zero divisor the construction reaches the inversion of the
    normal matrix. *)
Lemma lpa3D_init_regular (xs ys zs : nat) (sigma : R) :
  sigma <> 0 -> xs <> 1%nat -> ys <> 1%nat -> zs <> 1%nat ->
  CoefInit.lpa3D_init xs ys zs sigma =
  Ginv <- np_linalg_inv (lpa_G xs ys zs sigma) ;;
  Ok (reshape_kernel (lpa_DB xs ys zs sigma Ginv) xs ys zs).
Proof.
  intros Hs Hx Hy Hz. rewrite lpa3D_init_eq.
  rewrite !arr_div_ok by (rewrite divisor_zero_iff; tauto).
  reflexivity.
Qed.

(** On a non-empty grid a zero divisor stops the construction. *)
Lemma lpa3D_init_nonfinite (xs ys zs : nat) (sigma : R) :
  (1 <= xs)%nat -> (1 <= ys)%nat -> (1 <= zs)%nat ->
  sigma = 0 \/ xs = 1%nat \/ ys = 1%nat \/ zs = 1%nat ->
  CoefInit.lpa3D_init xs ys zs sigma = Raise NonFinite.
Proof.
  intros Hx Hy Hz H. rewrite lpa3D_init_eq.
  assert (HN : (0 < xs * ys * zs)%nat).
  { apply Nat.mul_pos_pos; [apply Nat.mul_pos_pos|]; lia. }
  assert (NE : forall l : list R, length l = (xs * ys * zs)%nat ->
                                  map (fun v => v ^ 2) l <> []).
  { intros l Hl E. apply (f_equal (@length R)) in E.
    rewrite length_map, Hl in E. simpl in E. lia. }
  destruct (Req_EM_T (2 * (sigma * (INR xs - 1)) ^ 2) 0) as [Ex|Ex].
  { rewrite arr_div_zero; [reflexivity | exact Ex | apply NE, lpa_x_length]. }
  rewrite (arr_div_ok _ _ Ex). cbn [bind].
  destruct (Req_EM_T (2 * (sigma * (INR ys - 1)) ^ 2) 0) as [Ey|Ey].
  { rewrite arr_div_zero; [reflexivity | exact Ey | apply NE, lpa_y_length]. }
  rewrite (arr_div_ok _ _ Ey). cbn [bind].
  destruct (Req_EM_T (2 * (sigma * (INR zs - 1)) ^ 2) 0) as [Ez|Ez].
  { rewrite arr_div_zero; [reflexivity | exact Ez | apply NE, lpa_z_length]. }
  exfalso. rewrite divisor_zero_iff in Ex, Ey, Ez. tauto.
Qed.

Section NormalMatrix.

Variables xs ys zs : nat.
Variable sigma : R.

Lemma lpa_G_shape :
  nrows (lpa_G xs ys zs sigma) = 10%nat /\ ncols (lpa_G xs ys zs sigma) = 10%nat.
Proof. split; reflexivity. Qed.

(** [(A^t W A)_kj] is the sum over the grid of [A_pk w_p A_pj]. *)
Lemma lpa_G_sum (k j : nat) :
  ent (lpa_G xs ys zs sigma) k j =
  rsum (xs * ys * zs) (fun p =>
    ent (lpa_A xs ys zs) p k * nth p (lpa_w xs ys zs sigma) 0 *
    ent (lpa_A xs ys zs) p j).
Proof.
  unfold lpa_G. cbn [dot ent ncols nrows diagflat transpose].
  rewrite lpa_w_length. apply rsum_ext. intros p Hp.
  f_equal.
  pose proof (dot_diagflat (transpose (lpa_A xs ys zs))
                           (lpa_w xs ys zs sigma) k p) as D.
  cbn [dot ent ncols nrows diagflat transpose] in D.
  rewrite lpa_w_length in D. apply D; [|exact Hp].
  unfold lpa_A, design. cbn [nrows]. apply lpa_x_length.
Qed.

(** Its entries are products of axis moments. *)
Lemma lpa_G_entry (k j : nat) :
  (k < 10)%nat -> (j < 10)%nat ->
  ent (lpa_G xs ys zs sigma) k j =
  moment sigma xs (ex k + ex j) * moment sigma ys (ey k + ey j) *
  moment sigma zs (ez k + ez j).
Proof.
  intros Hk Hj. rewrite lpa_G_sum, rsum_flat.
  unfold moment. rewrite <- rsum_separate.
  apply rsum_ext. intros a Ha. apply rsum_ext. intros b Hb.
  apply rsum_ext. intros c Hc.
  rewrite !lpa_A_entry, lpa_w_entry by assumption.
  rewrite !monomial_pow by assumption.
  rewrite !pow_add. ring.
Qed.

End NormalMatrix.

(** ** Moments of one axis *)

Lemma rsum_nonneg (n : nat) (f : nat -> R) :
  (forall a, (a < n)%nat -> 0 <= f a) -> 0 <= rsum n f.
Proof.
  induction n as [|n IH]; intros H; simpl; [lra|].
  pose proof (IH (fun a Ha => H a (Nat.lt_lt_succ_r _ _ Ha))).
  pose proof (H n (Nat.lt_succ_diag_r n)). lra.
Qed.

Lemma rsum_ge_term (n a0 : nat) (f : nat -> R) :
  (forall a, (a < n)%nat -> 0 <= f a) -> (a0 < n)%nat -> f a0 <= rsum n f.
Proof.
  induction n as [|n IH]; intros H Ha; [lia|]. simpl.
  pose proof (H n (Nat.lt_succ_diag_r n)) as Hn.
  pose proof (rsum_nonneg n f (fun a Ha' => H a (Nat.lt_lt_succ_r _ _ Ha'))) as Hs.
  destruct (Nat.eq_dec a0 n) as [->|Hne]; [lra|].
  pose proof (IH (fun a Ha' => H a (Nat.lt_lt_succ_r _ _ Ha')) ltac:(lia)). lra.
Qed.

Lemma rsum_prod (n m : nat) (f g : nat -> R) :
  rsum n (fun a => rsum m (fun b => f a * g b)) = rsum n f * rsum m g.
Proof.
  rewrite <- rsum_scal_r. apply rsum_ext. intros a _. apply rsum_scal.
Qed.

(** Strict Cauchy-Schwarz for positive weights: if [q] takes two
    different values then [(sum w) (sum w q^2) > (sum w q)^2]. *)
Lemma weighted_variance_pos (n : nat) (w q : nat -> R) (a0 b0 : nat) :
  (forall a, (a < n)%nat -> 0 < w a) ->
  (a0 < n)%nat -> (b0 < n)%nat -> q a0 <> q b0 ->
  0 < rsum n w * rsum n (fun a => q a ^ 2 * w a)
      - rsum n (fun a => q a * w a) ^ 2.
Proof.
  intros Hw Ha Hb Hq.
  set (F := fun a b => w a * w b * (q a - q b) ^ 2).
  assert (E : rsum n (fun a => rsum n (fun b => F a b)) =
              2 * (rsum n w * rsum n (fun a => q a ^ 2 * w a)
                   - rsum n (fun a => q a * w a) ^ 2)).
  { rewrite (rsum_ext _ _ (fun a =>
       rsum n (fun b => (q a ^ 2 * w a) * w b)
       + (rsum n (fun b => (-2 * (q a * w a)) * (q b * w b))
          + rsum n (fun b => w a * (q b ^ 2 * w b))))).
    - rewrite rsum_plus, rsum_plus, !rsum_prod.
      rewrite (rsum_scal n (-2)). ring.
    - intros a _. rewrite <- !rsum_plus. apply rsum_ext. intros b _.
      unfold F. ring. }
  assert (P : forall a b, (a < n)%nat -> (b < n)%nat -> 0 <= F a b).
  { intros a b Ha' Hb'. unfold F.
    pose proof (Hw a Ha'). pose proof (Hw b Hb').
    pose proof (pow2_ge_0 (q a - q b)).
    apply Rmult_le_pos; [apply Rmult_le_pos|]; lra. }
  assert (L : F a0 b0 <= rsum n (fun a => rsum n (fun b => F a b))).
  { apply Rle_trans with (rsum n (fun b => F a0 b)).
    - apply (rsum_ge_term n b0 (fun b => F a0 b)); [|exact Hb].
      intros b Hb'. apply P; assumption.
    - apply (rsum_ge_term n a0 (fun a => rsum n (fun b => F a b))); [|exact Ha].
      intros a Ha'. apply rsum_nonneg. intros b Hb'. apply P; assumption. }
  assert (S : 0 < F a0 b0).
  { unfold F. pose proof (Hw a0 Ha). pose proof (Hw b0 Hb).
    assert (0 < (q a0 - q b0) ^ 2).
    { assert (q a0 - q b0 <> 0) by lra. simpl. nra. }
    apply Rmult_lt_0_compat; [apply Rmult_lt_0_compat|]; lra. }
  lra.
Qed.

Section AxisMoments.

Variable sigma : R.
Variable n : nat.

Lemma axis_weight_pos (a : nat) : 0 < axis_weight sigma n a.
Proof. apply exp_pos. Qed.

Lemma coord_rev (a : nat) : (a < n)%nat -> coord n (n - 1 - a) = - coord n a.
Proof.
  intros Ha. unfold coord. rewrite !minus_INR by lia. simpl. lra.
Qed.

Lemma axis_weight_rev (a : nat) :
  (a < n)%nat -> axis_weight sigma n (n - 1 - a) = axis_weight sigma n a.
Proof.
  intros Ha. unfold axis_weight. rewrite coord_rev by exact Ha.
  do 2 f_equal. unfold Rdiv. f_equal. ring.
Qed.

(** Moments of odd order vanish by symmetry. *)
Lemma moment_odd (i : nat) :
  (forall x : R, (- x) ^ i = - x ^ i) -> moment sigma n i = 0.
Proof.
  intros Hodd. unfold moment.
  assert (E : rsum n (fun a => coord n a ^ i * axis_weight sigma n a) =
              - rsum n (fun a => coord n a ^ i * axis_weight sigma n a)).
  { rewrite rsum_rev at 1.
    rewrite (rsum_ext _ _
               (fun a => -1 * (coord n a ^ i * axis_weight sigma n a))).
    - rewrite rsum_scal. ring.
    - intros a Ha.
      rewrite coord_rev, axis_weight_rev, Hodd by exact Ha. ring. }
  lra.
Qed.

End AxisMoments.

Section MomentInverse.

Variables mx my mz : nat -> R.

Hypothesis mx1 : mx 1%nat = 0.
Hypothesis mx3 : mx 3%nat = 0.
Hypothesis my1 : my 1%nat = 0.
Hypothesis my3 : my 3%nat = 0.
Hypothesis mz1 : mz 1%nat = 0.
Hypothesis mz3 : mz 3%nat = 0.
Hypothesis mx0 : mx 0%nat <> 0.
Hypothesis my0 : my 0%nat <> 0.
Hypothesis mz0 : mz 0%nat <> 0.
Hypothesis mx2 : mx 2%nat <> 0.
Hypothesis my2 : my 2%nat <> 0.
Hypothesis mz2 : mz 2%nat <> 0.
Hypothesis dx : mx 0%nat * mx 4%nat - mx 2%nat * mx 2%nat <> 0.
Hypothesis dy : my 0%nat * my 4%nat - my 2%nat * my 2%nat <> 0.
Hypothesis dz : mz 0%nat * mz 4%nat - mz 2%nat * mz 2%nat <> 0.

Ltac entry :=
  cbv [dot moment_matrix moment_inverse ent ncols nrows rsum ex ey ez nth
       Nat.add delta Nat.eqb];
  rewrite ?mx1, ?mx3, ?my1, ?my3, ?mz1, ?mz3;
  field; repeat split; assumption.

Lemma moment_inverse_left (i j : nat) :
  (i < 10)%nat -> (j < 10)%nat ->
  ent (dot (moment_inverse mx my mz) (moment_matrix mx my mz)) i j = delta i j.
Proof.
  intros Hi Hj.
  do 10 (destruct i as [|i];
         [do 10 (destruct j as [|j]; [entry|]); lia|]).
  lia.
Qed.

Lemma moment_inverse_right (i j : nat) :
  (i < 10)%nat -> (j < 10)%nat ->
  ent (dot (moment_matrix mx my mz) (moment_inverse mx my mz)) i j = delta i j.
Proof.
  intros Hi Hj.
  do 10 (destruct i as [|i];
         [do 10 (destruct j as [|j]; [entry|]); lia|]).
  lia.
Qed.

Lemma moment_inverse_ok :
  is_inverse (moment_matrix mx my mz) (moment_inverse mx my mz).
Proof.
  unfold is_inverse. repeat split; try reflexivity.
  - apply moment_inverse_left; assumption.
  - apply moment_inverse_right; assumption.
Qed.

End MomentInverse.

(** ** Size conditions on one axis *)

Section AxisSize.

Variable sigma : R.
Variable n : nat.

Lemma moment0_sum : moment sigma n 0 = rsum n (axis_weight sigma n).
Proof. unfold moment. apply rsum_ext. intros a _. simpl. ring. Qed.

Lemma moment0_pos : (1 <= n)%nat -> 0 < moment sigma n 0.
Proof.
  intros Hn. rewrite moment0_sum.
  apply Rlt_le_trans with (axis_weight sigma n 0).
  - apply axis_weight_pos.
  - apply (rsum_ge_term n 0 (axis_weight sigma n)); [|lia].
    intros a _. apply Rlt_le, axis_weight_pos.
Qed.

Lemma coord_first : (2 <= n)%nat -> coord n 0 <= - (1 / 2).
Proof.
  intros Hn. unfold coord. apply le_INR in Hn. simpl in Hn. simpl. lra.
Qed.

Lemma moment2_pos : (2 <= n)%nat -> 0 < moment sigma n 2.
Proof.
  intros Hn. unfold moment.
  apply Rlt_le_trans with (coord n 0 ^ 2 * axis_weight sigma n 0).
  - pose proof (coord_first Hn). pose proof (axis_weight_pos sigma n 0).
    apply Rmult_lt_0_compat; [simpl; nra | assumption].
  - apply (rsum_ge_term n 0 (fun a => coord n a ^ 2 * axis_weight sigma n a));
      [|lia].
    intros a _. apply Rmult_le_pos; [apply pow2_ge_0|].
    apply Rlt_le, axis_weight_pos.
Qed.

(** With three or more samples the squared coordinate is not constant,
    so the weighted variance of [x^2] is positive. *)
Lemma moment_var_pos :
  (3 <= n)%nat ->
  0 < moment sigma n 0 * moment sigma n 4 - moment sigma n 2 * moment sigma n 2.
Proof.
  intros Hn.
  pose proof (weighted_variance_pos n (axis_weight sigma n)
                (fun a => coord n a ^ 2) 0 1) as V.
  rewrite moment0_sum.
  replace (moment sigma n 4)
    with (rsum n (fun a => (coord n a ^ 2) ^ 2 * axis_weight sigma n a)).
  - replace (moment sigma n 2 * moment sigma n 2)
      with (rsum n (fun a => coord n a ^ 2 * axis_weight sigma n a) ^ 2)
      by (unfold moment; simpl; ring).
    apply V; try lia.
    + intros a _. apply axis_weight_pos.
    + unfold coord. apply le_INR in Hn. simpl in Hn. simpl. nra.
  - unfold moment. apply rsum_ext. intros a _. simpl. ring.
Qed.

End AxisSize.

(** With exactly two samples the coordinates are [-1/2] and [1/2], so the
    column of [x^2] is a quarter of the column of ones. *)
Lemma moment_two_samples (sigma : R) (i : nat) :
  moment sigma 2 (i + 2) = moment sigma 2 i / 4.
Proof.
  unfold moment. cbn [rsum]. rewrite !pow_add.
  unfold coord. simpl. field.
Qed.

(** ** Matrix inversion *)

Lemma np_linalg_inv_sound (G M : matrix) :
  np_linalg_inv G = Ok M -> is_inverse G M.
Proof.
  unfold np_linalg_inv.
  destruct (excluded_middle_informative _) as [H|H]; [|discriminate].
  intros E. injection E as <-.
  apply (proj2_sig (constructive_indefinite_description _ H)).
Qed.

Lemma np_linalg_inv_complete (G M : matrix) :
  is_inverse G M -> exists M', np_linalg_inv G = Ok M' /\ is_inverse G M'.
Proof.
  intros HM. unfold np_linalg_inv.
  destruct (excluded_middle_informative _) as [H|H].
  - eexists. split; [reflexivity|].
    apply (proj2_sig (constructive_indefinite_description _ H)).
  - exfalso. apply H. exists M. exact HM.
Qed.

Lemma np_linalg_inv_singular (G : matrix) :
  (forall M, ~ is_inverse G M) -> np_linalg_inv G = Raise LinAlgError.
Proof.
  intros HG. unfold np_linalg_inv.
  destruct (excluded_middle_informative _) as [[M HM]|H]; [|reflexivity].
  exfalso. exact (HG M HM).
Qed.

Lemma is_inverse_ext (G G' M : matrix) :
  nrows G' = nrows G -> ncols G' = ncols G ->
  (forall k j, (k < nrows G)%nat -> (j < nrows G)%nat -> ent G' k j = ent G k j) ->
  is_inverse G M -> is_inverse G' M.
Proof.
  intros Hr Hc He [Sq [Mr [Mc H]]]. unfold is_inverse.
  rewrite Hr, Hc. repeat split; try assumption.
  - destruct (H i j H0 H1) as [L _]. rewrite <- L.
    cbn [dot ent]. rewrite Mc, <- Sq.
    apply rsum_ext. intros k Hk. rewrite He by assumption. reflexivity.
  - destruct (H i j H0 H1) as [_ R']. rewrite <- R'.
    cbn [dot ent]. rewrite Hc, <- Sq.
    apply rsum_ext. intros k Hk. rewrite He by assumption. reflexivity.
Qed.

(** A square matrix that sends a non-zero vector to zero has no inverse. *)
Lemma singular_by_kernel (G : matrix) (v : nat -> R) (i0 : nat) :
  nrows G = ncols G ->
  (forall k, (k < nrows G)%nat ->
             rsum (nrows G) (fun j => ent G k j * v j) = 0) ->
  (i0 < nrows G)%nat -> v i0 <> 0 ->
  forall M, ~ is_inverse G M.
Proof.
  intros Sq Hk Hi Hv M [_ [Mr [Mc H]]].
  apply Hv.
  rewrite <- (rsum_delta (nrows G) i0 v Hi).
  rewrite (rsum_ext _ _ (fun j => v j * ent (dot M G) i0 j)).
  - cbn [dot ent]. rewrite Mc, <- Sq.
    rewrite (rsum_ext _ _ (fun j =>
               rsum (nrows G) (fun k => ent M i0 k * (ent G k j * v j)))).
    + rewrite rsum_swap.
      apply rsum_zero. intros k Hk'.
      rewrite rsum_scal, Hk by exact Hk'. ring.
    + intros j _. rewrite <- rsum_scal. apply rsum_ext. intros k _. ring.
  - intros j Hj. destruct (H i0 j Hi Hj) as [L _]. rewrite L.
    unfold delta. rewrite Nat.eqb_sym. reflexivity.
Qed.

(** ** When the kernel construction succeeds *)

Section Construction.

Variables xs ys zs : nat.
Variable sigma : R.

Let G := lpa_G xs ys zs sigma.

Lemma lpa_G_moment_matrix (k j : nat) :
  (k < 10)%nat -> (j < 10)%nat ->
  ent G k j =
  ent (moment_matrix (moment sigma xs) (moment sigma ys) (moment sigma zs)) k j.
Proof. intros Hk Hj. apply lpa_G_entry; assumption. Qed.

(** With at least three samples on every axis the normal matrix has an
    inverse. *)
Lemma lpa_G_invertible :
  (3 <= xs)%nat -> (3 <= ys)%nat -> (3 <= zs)%nat ->
  is_inverse G
    (moment_inverse (moment sigma xs) (moment sigma ys) (moment sigma zs)).
Proof.
  intros Hx Hy Hz.
  apply (is_inverse_ext
           (moment_matrix (moment sigma xs) (moment sigma ys) (moment sigma zs))).
  - reflexivity.
  - reflexivity.
  - intros k j Hk Hj. apply lpa_G_moment_matrix; assumption.
  - apply moment_inverse_ok;
      try (apply moment_odd; intros x; ring);
      try (apply Rgt_not_eq, moment0_pos; lia);
      try (apply Rgt_not_eq, moment2_pos; lia);
      apply Rgt_not_eq, moment_var_pos; lia.
Qed.

Lemma lpa3D_init_succeeds :
  sigma <> 0 -> (3 <= xs)%nat -> (3 <= ys)%nat -> (3 <= zs)%nat ->
  exists Ginv,
    is_inverse G Ginv /\
    CoefInit.lpa3D_init xs ys zs sigma =
      Ok (reshape_kernel (lpa_DB xs ys zs sigma Ginv) xs ys zs).
Proof.
  intros Hs Hx Hy Hz.
  destruct (np_linalg_inv_complete G _ (lpa_G_invertible Hx Hy Hz))
    as [Ginv [E HI]].
  exists Ginv. split; [exact HI|].
  rewrite lpa3D_init_regular by (try assumption; lia).
  fold G. rewrite E. reflexivity.
Qed.

(** An empty grid: the normal matrix is zero. *)
Lemma lpa3D_init_empty :
  (xs * ys * zs = 0)%nat ->
  CoefInit.lpa3D_init xs ys zs sigma = Raise LinAlgError.
Proof.
  intros HN. rewrite lpa3D_init_eq.
  assert (Ex : lpa_x xs ys zs = [])
    by (apply length_zero_iff_nil; rewrite lpa_x_length; exact HN).
  assert (Ey : lpa_y xs ys zs = [])
    by (apply length_zero_iff_nil; rewrite lpa_y_length; exact HN).
  assert (Ez : lpa_z xs ys zs = [])
    by (apply length_zero_iff_nil; rewrite lpa_z_length; exact HN).
  rewrite Ex, Ey, Ez. cbn [map arr_div bind map2].
  rewrite np_linalg_inv_singular; [reflexivity|].
  apply (singular_by_kernel _ (fun j => delta j 0) 0).
  - reflexivity.
  - intros k _. apply rsum_zero. intros j _. cbn. ring.
  - cbn. lia.
  - unfold delta. simpl. lra.
Qed.

(** An axis with exactly two samples: the normal matrix is singular. *)
Lemma lpa_G_singular_two :
  xs = 2%nat \/ ys = 2%nat \/ zs = 2%nat -> forall M, ~ is_inverse G M.
Proof.
  intros H.
  assert (S : forall q,
             (q = 4 /\ xs = 2 \/ q = 5 /\ ys = 2 \/ q = 6 /\ zs = 2)%nat ->
             forall k, (k < 10)%nat ->
               rsum 10 (fun j => ent G k j * quarter_vector q j) = 0).
  { intros q Hq k Hk.
    assert (E : rsum 10 (fun j => ent G k j * quarter_vector q j)
                = ent G k 0 - 4 * ent G k q).
    { destruct Hq as [[-> _]|[[-> _]|[-> _]]];
        cbn [rsum quarter_vector Nat.eqb]; ring. }
    rewrite E. unfold G.
    destruct Hq as [[-> Hq]|[[-> Hq]|[-> Hq]]];
      rewrite !lpa_G_entry by (try assumption; lia);
      change (ex 0) with 0%nat; change (ey 0) with 0%nat;
      change (ez 0) with 0%nat;
      change (ex 4) with 2%nat; change (ey 4) with 0%nat;
      change (ez 4) with 0%nat;
      change (ex 5) with 0%nat; change (ey 5) with 2%nat;
      change (ez 5) with 0%nat;
      change (ex 6) with 0%nat; change (ey 6) with 0%nat;
      change (ez 6) with 2%nat;
      rewrite ?Nat.add_0_r; rewrite Hq, moment_two_samples; field. }
  destruct H as [H|[H|H]].
  - apply (singular_by_kernel G (quarter_vector 4) 0);
      [reflexivity | apply S; tauto | cbn; lia | cbn; lra].
  - apply (singular_by_kernel G (quarter_vector 5) 0);
      [reflexivity | apply S; tauto | cbn; lia | cbn; lra].
  - apply (singular_by_kernel G (quarter_vector 6) 0);
      [reflexivity | apply S; tauto | cbn; lia | cbn; lra].
Qed.

(** The construction returns a kernel set exactly when every axis has
    at least three samples and [sigma] is not zero. *)
Lemma lpa3D_init_ok_inv (K : nat -> ndarray3) :
  CoefInit.lpa3D_init xs ys zs sigma = Ok K ->
  sigma <> 0 /\ (3 <= xs)%nat /\ (3 <= ys)%nat /\ (3 <= zs)%nat /\
  exists Ginv,
    is_inverse G Ginv /\
    K = reshape_kernel (lpa_DB xs ys zs sigma Ginv) xs ys zs.
Proof.
  intros HK.
  destruct (Nat.eq_dec (xs * ys * zs) 0) as [HN|HN].
  { rewrite lpa3D_init_empty in HK by exact HN. discriminate HK. }
  assert (Hx : (1 <= xs)%nat) by nia.
  assert (Hy : (1 <= ys)%nat) by nia.
  assert (Hz : (1 <= zs)%nat) by nia.
  destruct (Req_EM_T sigma 0) as [Hs|Hs].
  { rewrite lpa3D_init_nonfinite in HK by tauto. discriminate HK. }
  destruct (Nat.eq_dec xs 1) as [Ex|Ex].
  { rewrite lpa3D_init_nonfinite in HK by tauto. discriminate HK. }
  destruct (Nat.eq_dec ys 1) as [Ey|Ey].
  { rewrite lpa3D_init_nonfinite in HK by tauto. discriminate HK. }
  destruct (Nat.eq_dec zs 1) as [Ez|Ez].
  { rewrite lpa3D_init_nonfinite in HK by tauto. discriminate HK. }
  rewrite lpa3D_init_regular in HK by assumption. fold G in HK.
  destruct (np_linalg_inv G) as [Ginv|e] eqn:E; [|discriminate HK].
  apply np_linalg_inv_sound in E. cbn [bind] in HK. injection HK as <-.
  assert (T : ~ (xs = 2 \/ ys = 2 \/ zs = 2)%nat).
  { intros T. exact (lpa_G_singular_two T Ginv E). }
  repeat split; try lia; try assumption.
  exists Ginv. split; [exact E | reflexivity].
Qed.

End Construction.

(** ** Sums over the window *)

Lemma tsum_ext (xs ys zs : nat) (f g : nat -> nat -> nat -> R) :
  (forall a b c, (a < xs)%nat -> (b < ys)%nat -> (c < zs)%nat ->
                 f a b c = g a b c) ->
  tsum xs ys zs f = tsum xs ys zs g.
Proof.
  intros H. unfold tsum.
  apply rsum_ext. intros a Ha. apply rsum_ext. intros b Hb.
  apply rsum_ext. intros c Hc. apply H; assumption.
Qed.

Lemma tsum_plus (xs ys zs : nat) (f g : nat -> nat -> nat -> R) :
  tsum xs ys zs (fun a b c => f a b c + g a b c) =
  tsum xs ys zs f + tsum xs ys zs g.
Proof.
  unfold tsum. rewrite <- rsum_plus. apply rsum_ext. intros a _.
  rewrite <- rsum_plus. apply rsum_ext. intros b _. apply rsum_plus.
Qed.

Lemma tsum_scal (xs ys zs : nat) (v : R) (f : nat -> nat -> nat -> R) :
  tsum xs ys zs (fun a b c => v * f a b c) = v * tsum xs ys zs f.
Proof.
  unfold tsum. rewrite <- rsum_scal. apply rsum_ext. intros a _.
  rewrite <- rsum_scal. apply rsum_ext. intros b _. apply rsum_scal.
Qed.

Lemma tsum_zero (xs ys zs : nat) : tsum xs ys zs (fun _ _ _ => 0) = 0.
Proof.
  unfold tsum. apply rsum_zero. intros a _. apply rsum_zero. intros b _.
  apply rsum_zero. reflexivity.
Qed.

Lemma tsum_rsum (xs ys zs n : nat) (g : nat -> nat -> nat -> nat -> R) :
  tsum xs ys zs (fun a b c => rsum n (fun j => g j a b c)) =
  rsum n (fun j => tsum xs ys zs (g j)).
Proof.
  induction n as [|n IH]; cbn [rsum].
  - apply tsum_zero.
  - rewrite tsum_plus, IH. reflexivity.
Qed.

(** Reversing the three loops of the convolution: the kernel entry
    [(a, b, c)] meets the block entry at the mirrored offset. *)
Lemma conv_at_rev (arr filt : ndarray3) (z : nat) :
  conv_at arr filt z =
  tsum (dimX filt) (dimY filt) (dimZ filt) (fun a b c =>
    data3 filt a b c *
    data3 arr (dimX arr / 2 - dimX filt / 2 + (dimX filt - 1 - a))%nat
              (dimY arr / 2 - dimY filt / 2 + (dimY filt - 1 - b))%nat
              (z - dimZ filt / 2 + (dimZ filt - 1 - c))%nat).
Proof.
  unfold conv_at, tsum. cbv zeta.
  rewrite rsum_rev. apply rsum_ext. intros a Ha.
  rewrite rsum_rev. apply rsum_ext. intros b Hb.
  rewrite rsum_rev. apply rsum_ext. intros c Hc.
  replace (dimX filt - 1 - (dimX filt - 1 - a))%nat with a by lia.
  replace (dimY filt - 1 - (dimY filt - 1 - b))%nat with b by lia.
  replace (dimZ filt - 1 - (dimZ filt - 1 - c))%nat with c by lia.
  reflexivity.
Qed.

(** ** Exactness of the kernels *)

Section Exactness.

Variables xs ys zs : nat.
Variable sigma : R.
Variable Ginv : matrix.

Hypothesis Ginv_ok : is_inverse (lpa_G xs ys zs sigma) Ginv.

Let DB := lpa_DB xs ys zs sigma Ginv.
Let K := reshape_kernel DB xs ys zs.

Lemma lpa_DB_entry (k p : nat) :
  (p < xs * ys * zs)%nat ->
  ent DB k p =
  rsum 10 (fun i => ent Ginv k i * ent (lpa_A xs ys zs) p i)
  * nth p (lpa_w xs ys zs sigma) 0.
Proof.
  intros Hp. unfold DB, lpa_DB.
  rewrite dot_diagflat.
  - cbn [dot ent transpose]. destruct Ginv_ok as [_ [_ [Mc _]]].
    rewrite Mc. reflexivity.
  - cbn [dot ncols transpose]. unfold lpa_A, design. cbn [nrows].
    rewrite lpa_x_length, lpa_w_length. reflexivity.
  - rewrite lpa_w_length. exact Hp.
Qed.

(** [DB . A = I]. *)
Lemma lpa_DB_exact (k j : nat) :
  (k < 10)%nat -> (j < 10)%nat ->
  rsum (xs * ys * zs) (fun p => ent DB k p * ent (lpa_A xs ys zs) p j)
  = delta k j.
Proof.
  intros Hk Hj.
  destruct Ginv_ok as [_ [_ [Mc H]]].
  destruct (H k j Hk Hj) as [L _]. rewrite <- L.
  cbn [dot ent]. rewrite Mc. change (ncols (lpa_G xs ys zs sigma)) with 10%nat.
  rewrite (rsum_ext _ _ (fun p =>
    rsum 10 (fun i => ent Ginv k i *
      (ent (lpa_A xs ys zs) p i * nth p (lpa_w xs ys zs sigma) 0 *
       ent (lpa_A xs ys zs) p j)))).
  - rewrite rsum_swap. apply rsum_ext. intros i _.
    rewrite rsum_scal, lpa_G_sum. reflexivity.
  - intros p Hp. rewrite lpa_DB_entry by exact Hp.
    rewrite <- rsum_scal_r, <- rsum_scal_r.
    apply rsum_ext. intros i _. ring.
Qed.

(** The same, over the window: kernel [k] annihilates every monomial
    but its own. *)
Lemma kernel_exact (k j : nat) :
  (k < 10)%nat -> (j < 10)%nat ->
  tsum xs ys zs (fun a b c =>
    data3 (K k) a b c * monomial j (coord xs a) (coord ys b) (coord zs c))
  = delta k j.
Proof.
  intros Hk Hj. rewrite <- (lpa_DB_exact k j Hk Hj).
  rewrite rsum_flat. unfold tsum.
  apply rsum_ext. intros a Ha. apply rsum_ext. intros b Hb.
  apply rsum_ext. intros c Hc.
  rewrite lpa_A_entry by assumption. reflexivity.
Qed.

End Exactness.

(** ** Kernels applied by the centre-trace convolution *)

Lemma poly_reflect (c : nat -> R) (x y z : R) :
  poly c (- x) (- y) (- z) =
  rsum 10 (fun j => (c j * parity j) * monomial j x y z).
Proof. unfold poly. cbn [rsum monomial parity]. ring. Qed.

(** For an odd extent [n] the block entry met by kernel entry [a] lies at
    offset [- coord n a] from the centre [h]. *)
Lemma centre_offset (n h a : nat) :
  Nat.odd n = true -> (n / 2 <= h)%nat -> (a < n)%nat ->
  INR (h - n / 2 + (n - 1 - a)) - INR h = - coord n a.
Proof.
  intros Hodd Hh Ha.
  apply Nat.odd_spec in Hodd. destruct Hodd as [m Hm].
  assert (Hd : (n / 2 = m)%nat).
  { subst n. rewrite Nat.add_comm, Nat.mul_comm.
    rewrite Nat.div_add by lia. reflexivity. }
  rewrite Hd in *.
  replace (h - m + (n - 1 - a))%nat with (h + m - a)%nat by lia.
  unfold coord. rewrite minus_INR, plus_INR by lia.
  subst n. rewrite plus_INR, mult_INR. simpl. lra.
Qed.

Section KernelApplied.

Variables xs ys zs : nat.
Variable sigma : R.
Variable Ginv : matrix.

Hypothesis Ginv_ok : is_inverse (lpa_G xs ys zs sigma) Ginv.

Let K := reshape_kernel (lpa_DB xs ys zs sigma Ginv) xs ys zs.

(** On a constant block, kernel 0 returns the constant and every other
    kernel returns zero. *)
Lemma kernel_on_constant (X Y Zn : nat) (v : R) (k z : nat) :
  (k < 10)%nat ->
  conv_at (const_block X Y Zn v) (K k) z = v * delta k 0.
Proof.
  intros Hk. rewrite conv_at_rev.
  change (dimX (K k)) with xs. change (dimY (K k)) with ys.
  change (dimZ (K k)) with zs.
  rewrite <- (kernel_exact xs ys zs sigma Ginv Ginv_ok k 0) by lia.
  fold K. rewrite <- tsum_scal. apply tsum_ext. intros a b c _ _ _.
  cbn [const_block data3 monomial]. ring.
Qed.

(** On a block sampled from a polynomial around the analysis location,
    with odd window extents, kernel [k] returns coefficient [k] of the
    reflected polynomial. *)
Lemma kernel_on_poly (X Y Zn z0 : nat) (c : nat -> R) (k : nat) :
  Nat.odd xs = true -> Nat.odd ys = true -> Nat.odd zs = true ->
  (xs <= X)%nat -> (ys <= Y)%nat -> (zs / 2 <= z0)%nat ->
  (k < 10)%nat ->
  conv_at (sample_block X Y Zn z0 (poly c)) (K k) z0 = parity k * c k.
Proof.
  intros Ox Oy Oz HX HY Hz Hk. rewrite conv_at_rev.
  change (dimX (K k)) with xs. change (dimY (K k)) with ys.
  change (dimZ (K k)) with zs.
  rewrite (tsum_ext _ _ _ _ (fun a b c' =>
    rsum 10 (fun j => (c j * parity j) *
      (data3 (K k) a b c' *
       monomial j (coord xs a) (coord ys b) (coord zs c'))))).
  - rewrite tsum_rsum.
    rewrite (rsum_ext _ _ (fun j => (c j * parity j) * delta k j)).
    + unfold delta. cbn [rsum].
      do 10 (destruct k as [|k]; [cbn [Nat.eqb parity]; ring|]). lia.
    + intros j Hj. rewrite tsum_scal. unfold K.
      rewrite (kernel_exact xs ys zs sigma Ginv Ginv_ok k j) by assumption.
      reflexivity.
  - intros a b c' Ha Hb Hc.
    cbn [sample_block data3 dimX dimY].
    rewrite (centre_offset xs (X / 2) a), (centre_offset ys (Y / 2) b),
      (centre_offset zs z0 c'); try assumption;
      try (apply Nat.Div0.div_le_mono; assumption).
    rewrite poly_reflect, <- rsum_scal.
    apply rsum_ext. intros j _. ring.
Qed.

End KernelApplied.

(** ** The outcomes of the kernel construction *)

Lemma lpa3D_init_two (xs ys zs : nat) (sigma : R) :
  sigma <> 0 -> xs <> 1%nat -> ys <> 1%nat -> zs <> 1%nat ->
  xs = 2%nat \/ ys = 2%nat \/ zs = 2%nat ->
  CoefInit.lpa3D_init xs ys zs sigma = Raise LinAlgError.
Proof.
  intros Hs Hx Hy Hz H2. rewrite lpa3D_init_regular by assumption.
  rewrite np_linalg_inv_singular; [reflexivity|].
  apply lpa_G_singular_two. exact H2.
Qed.

(** Every outcome: a kernel set, a zero divisor on a non-empty grid, or a
    singular normal matrix. *)
Lemma lpa3D_init_outcome (xs ys zs : nat) (sigma : R) :
  (sigma <> 0 /\ (3 <= xs)%nat /\ (3 <= ys)%nat /\ (3 <= zs)%nat /\
   exists K, CoefInit.lpa3D_init xs ys zs sigma = Ok K) \/
  ((1 <= xs)%nat /\ (1 <= ys)%nat /\ (1 <= zs)%nat /\
   (sigma = 0 \/ xs = 1%nat \/ ys = 1%nat \/ zs = 1%nat) /\
   CoefInit.lpa3D_init xs ys zs sigma = Raise NonFinite) \/
  ((xs * ys * zs = 0)%nat /\
   CoefInit.lpa3D_init xs ys zs sigma = Raise LinAlgError) \/
  (sigma <> 0 /\ (2 <= xs)%nat /\ (2 <= ys)%nat /\ (2 <= zs)%nat /\
   (xs = 2%nat \/ ys = 2%nat \/ zs = 2%nat) /\
   CoefInit.lpa3D_init xs ys zs sigma = Raise LinAlgError).
Proof.
  destruct (Nat.eq_dec (xs * ys * zs) 0) as [HN|HN].
  { right. right. left. split; [exact HN | apply lpa3D_init_empty; exact HN]. }
  assert (Hx : (1 <= xs)%nat) by nia.
  assert (Hy : (1 <= ys)%nat) by nia.
  assert (Hz : (1 <= zs)%nat) by nia.
  destruct (Req_EM_T sigma 0) as [Hs|Hs].
  { right. left.
    split; [exact Hx | split; [exact Hy | split; [exact Hz | split; [tauto|]]]].
    apply lpa3D_init_nonfinite; tauto. }
  destruct (Nat.eq_dec xs 1) as [Ex|Ex].
  { right. left.
    split; [exact Hx | split; [exact Hy | split; [exact Hz | split; [tauto|]]]].
    apply lpa3D_init_nonfinite; tauto. }
  destruct (Nat.eq_dec ys 1) as [Ey|Ey].
  { right. left.
    split; [exact Hx | split; [exact Hy | split; [exact Hz | split; [tauto|]]]].
    apply lpa3D_init_nonfinite; tauto. }
  destruct (Nat.eq_dec zs 1) as [Ez|Ez].
  { right. left.
    split; [exact Hx | split; [exact Hy | split; [exact Hz | split; [tauto|]]]].
    apply lpa3D_init_nonfinite; tauto. }
  destruct (Nat.eq_dec xs 2) as [Tx|Tx].
  { right. right. right.
    split; [exact Hs | split; [lia | split; [lia | split; [lia | split; [tauto|]]]]].
    apply lpa3D_init_two; tauto. }
  destruct (Nat.eq_dec ys 2) as [Ty|Ty].
  { right. right. right.
    split; [exact Hs | split; [lia | split; [lia | split; [lia | split; [tauto|]]]]].
    apply lpa3D_init_two; tauto. }
  destruct (Nat.eq_dec zs 2) as [Tz|Tz].
  { right. right. right.
    split; [exact Hs | split; [lia | split; [lia | split; [lia | split; [tauto|]]]]].
    apply lpa3D_init_two; tauto. }
  left. split; [exact Hs | split; [lia | split; [lia | split; [lia|]]]].
  destruct (lpa3D_init_succeeds xs ys zs sigma) as [Ginv [_ E]];
    try assumption; try lia.
  eexists. exact E.
Qed.

Lemma lpa3D_init_neg (xs ys zs : nat) (sigma : R) :
  CoefInit.lpa3D_init xs ys zs (- sigma) = CoefInit.lpa3D_init xs ys zs sigma.
Proof.
  rewrite !lpa3D_init_eq.
  replace (2 * (- sigma * (INR xs - 1)) ^ 2)
    with (2 * (sigma * (INR xs - 1)) ^ 2) by ring.
  replace (2 * (- sigma * (INR ys - 1)) ^ 2)
    with (2 * (sigma * (INR ys - 1)) ^ 2) by ring.
  replace (2 * (- sigma * (INR zs - 1)) ^ 2)
    with (2 * (sigma * (INR zs - 1)) ^ 2) by ring.
  reflexivity.
Qed.

Lemma map_res_all {A B : Type} (f : A -> res B) (P : A -> B -> Prop)
      (l : list A) (da : A) (db : B) :
  (forall i, In i l -> exists b, f i = Ok b /\ P i b) ->
  exists r, map_res f l = Ok r /\ length r = length l /\
            forall n, (n < length l)%nat -> P (nth n l da) (nth n r db).
Proof.
  induction l as [|x l IH]; intros H.
  - exists []. simpl. repeat split; try reflexivity. intros n Hn. lia.
  - destruct (H x (or_introl eq_refl)) as [b [Eb Pb]].
    destruct IH as [r [Er [Lr Pr]]].
    { intros i Hi. apply H. right. exact Hi. }
    exists (b :: r). simpl. rewrite Eb, Er. simpl.
    repeat split; [f_equal; exact Lr|].
    intros [|n] Hn; [exact Pb | apply Pr; lia].
Qed.

(** C9: on a non-empty window the weight computation divides by
    [2 * (sigma * (extent - 1))^2], which is zero exactly when [sigma = 0]
    or the extent is 1, so the kernel construction meets a zero divisor
    exactly when [sigma = 0] or some axis has extent 1; the mixing constant
    divides by zero exactly when [wf = 0] or the smallest extent is 1.
    Extents of at least 1 (with a product of at least 10 and a positive
    weight factor) therefore do not exclude the division by zero. *)
Theorem C9_division_by_zero (xs ys zs : nat) (sigma wf : R) :
  (1 <= xs)%nat -> (1 <= ys)%nat -> (1 <= zs)%nat ->
  (2 * (sigma * (INR xs - 1)) ^ 2 = 0 <-> sigma = 0 \/ xs = 1%nat) /\
  (2 * (sigma * (INR ys - 1)) ^ 2 = 0 <-> sigma = 0 \/ ys = 1%nat) /\
  (2 * (sigma * (INR zs - 1)) ^ 2 = 0 <-> sigma = 0 \/ zs = 1%nat) /\
  (CoefInit.lpa3D_init xs ys zs sigma = Raise NonFinite <->
   sigma = 0 \/ xs = 1%nat \/ ys = 1%nat \/ zs = 1%nat) /\
  (EigenInit.lpa3D_init xs ys zs sigma = Raise NonFinite <->
   sigma = 0 \/ xs = 1%nat \/ ys = 1%nat \/ zs = 1%nat) /\
  (gam xs ys zs wf = Raise ZeroDivisionError <->
   wf = 0 \/ Nat.min xs (Nat.min ys zs) = 1%nat).
Proof.
  intros Hx Hy Hz.
  assert (L : CoefInit.lpa3D_init xs ys zs sigma = Raise NonFinite <->
              sigma = 0 \/ xs = 1%nat \/ ys = 1%nat \/ zs = 1%nat).
  { split.
    - intros E.
      destruct (lpa3D_init_outcome xs ys zs sigma)
        as [[_ [_ [_ [_ [K HK]]]]]|[[_ [_ [_ [H _]]]]|[[_ HE]|[_ [_ [_ [_ [_ HE]]]]]]]].
      + rewrite HK in E. discriminate E.
      + exact H.
      + rewrite HE in E. discriminate E.
      + rewrite HE in E. discriminate E.
    - intros H. apply lpa3D_init_nonfinite; assumption. }
  split; [apply divisor_zero_iff|].
  split; [apply divisor_zero_iff|].
  split; [apply divisor_zero_iff|].
  split; [exact L|]. split; [exact L|].
  unfold gam.
  assert (D : 8 * ((INR (Nat.min xs (Nat.min ys zs)) - 1) * wf) ^ 2 = 0 <->
              wf = 0 \/ Nat.min xs (Nat.min ys zs) = 1%nat).
  { split.
    - intros H.
      assert (E : (INR (Nat.min xs (Nat.min ys zs)) - 1) * wf = 0)
        by (simpl in H; nra).
      apply Rmult_integral in E. destruct E as [E|E]; [|left; exact E].
      right. apply INR_eq. simpl. lra.
    - intros [->|E]; [simpl; ring|]. rewrite E. simpl. ring. }
  destruct (Req_EM_T _ 0) as [E|E].
  - split; [intros _; apply D; exact E | reflexivity].
  - split; [discriminate | intros H; exfalso; apply E, D; exact H].
Qed.

Lemma C9_division_by_zero_witness :
  (10 <= 10 * 1 * 1)%nat /\ 0 < 0.2 /\
  CoefInit.lpa3D_init 10 1 1 0.2 = Raise NonFinite /\
  gam 10 1 1 0.2 = Raise ZeroDivisionError.
Proof.
  split; [simpl; lia|]. split; [lra|].
  destruct (C9_division_by_zero 10 1 1 0.2 0.2) as [_ [_ [_ [L [_ G]]]]];
    try lia.
  split; [apply L; right; right; left; reflexivity|].
  apply G. right. reflexivity.
Defined.

(** C3, as stated, fails: with the weight factor [-0.2] and the window
    [(3, 3, 3)] the construction raises nothing and returns a kernel
    set. *)
Lemma C3_counterexample :
  ~ (forall (xs ys zs : nat) (sigma : R),
        sigma <= 0 \/ (xs * ys * zs < 10)%nat ->
        exists e, CoefInit.lpa3D_init xs ys zs sigma = Raise e).
Proof.
  intros H.
  destruct (H 3%nat 3%nat 3%nat (- 0.2)) as [e E]; [left; lra|].
  destruct (lpa3D_init_succeeds 3 3 3 (- 0.2)) as [Ginv [_ HK]];
    try lia; [lra|].
  rewrite HK in E. discriminate E.
Qed.

(** C3, amended: the construction validates nothing and raises no
    configuration error.  A negative weight factor gives the same result
    as its absolute value; a kernel set is returned exactly when the
    weight factor is not zero and every extent is at least 3; a zero
    weight factor on a non-empty window meets a zero divisor; and when
    [nx * ny * nz < 10] no kernel set is returned, the failure being a
    zero divisor or the inversion of a singular matrix, which is
    attempted. *)
Theorem C3_no_configuration_check (xs ys zs : nat) (sigma : R) :
  CoefInit.lpa3D_init xs ys zs (- sigma) = CoefInit.lpa3D_init xs ys zs sigma /\
  ((exists K, CoefInit.lpa3D_init xs ys zs sigma = Ok K) <->
   sigma <> 0 /\ (3 <= xs)%nat /\ (3 <= ys)%nat /\ (3 <= zs)%nat) /\
  (sigma = 0 -> (1 <= xs)%nat -> (1 <= ys)%nat -> (1 <= zs)%nat ->
   CoefInit.lpa3D_init xs ys zs sigma = Raise NonFinite) /\
  ((xs * ys * zs < 10)%nat ->
   CoefInit.lpa3D_init xs ys zs sigma = Raise NonFinite \/
   CoefInit.lpa3D_init xs ys zs sigma = Raise LinAlgError).
Proof.
  split; [apply lpa3D_init_neg|]. split; [|split].
  - split.
    + intros [K HK].
      destruct (lpa3D_init_ok_inv xs ys zs sigma K HK) as [Hs [Hx [Hy [Hz _]]]].
      tauto.
    + intros [Hs [Hx [Hy Hz]]].
      destruct (lpa3D_init_succeeds xs ys zs sigma Hs Hx Hy Hz) as [Ginv [_ E]].
      eexists. exact E.
  - intros Hs Hx Hy Hz. apply lpa3D_init_nonfinite; tauto.
  - intros HN.
    destruct (lpa3D_init_outcome xs ys zs sigma)
      as [[_ [Hx [Hy [Hz _]]]]|[[_ [_ [_ [_ E]]]]|[[_ E]|[_ [_ [_ [_ [_ E]]]]]]]].
    + exfalso.
      assert ((3 * 3 <= xs * ys)%nat) by (apply Nat.mul_le_mono; assumption).
      assert ((3 * 3 * 3 <= xs * ys * zs)%nat)
        by (apply Nat.mul_le_mono; assumption).
      lia.
    + left. exact E.
    + right. exact E.
    + right. exact E.
Qed.

Lemma C3_no_configuration_check_witness :
  (exists K, CoefInit.lpa3D_init 3 3 3 (- 0.2) = Ok K) /\
  (CoefInit.lpa3D_init 2 2 2 0.2 = Raise NonFinite \/
   CoefInit.lpa3D_init 2 2 2 0.2 = Raise LinAlgError).
Proof.
  split.
  - apply (proj2 (proj1 (proj2 (C3_no_configuration_check 3 3 3 (- 0.2))))).
    repeat split; try lia. lra.
  - apply (proj2 (proj2 (proj2 (C3_no_configuration_check 2 2 2 0.2)))).
    simpl. lia.
Defined.

(** ** The coefficient loop on exact data *)

(** What a round of the coefficient loop returns for a kernel set built
    from an inverse of the normal matrix. *)
Lemma coef_step_profiles (xs ys zs : nat) (sigma : R) (Ginv : matrix)
      (Input : ndarray3) :
  (xs <= dimX Input)%nat -> (ys <= dimY Input)%nat ->
  exists r,
    coef_doCompute_step
      (reshape_kernel (lpa_DB xs ys zs sigma Ginv) xs ys zs) Input = Ok r /\
    length r = 10%nat /\
    forall k z, (k < 10)%nat -> valid_sample (dimZ Input) zs z ->
      nth z (nth k r []) 0 =
      conv_at Input (reshape_kernel (lpa_DB xs ys zs sigma Ginv) xs ys zs k) z.
Proof.
  intros HX HY. unfold coef_doCompute_step.
  destruct (map_res_all
              (fun i => Coef.sconvolve Input
                 (reshape_kernel (lpa_DB xs ys zs sigma Ginv) xs ys zs i))
              (fun i out => forall z, valid_sample (dimZ Input) zs z ->
                 nth z out 0 =
                 conv_at Input
                   (reshape_kernel (lpa_DB xs ys zs sigma Ginv) xs ys zs i) z)
              (seq 0 10) 0%nat []) as [r [E [L P]]].
  - intros i _.
    destruct (sconvolve_in_bounds Input
                (reshape_kernel (lpa_DB xs ys zs sigma Ginv) xs ys zs i))
      as [out [Eo [_ N]]]; [exact HX | exact HY |].
    exists out. split; [exact Eo|]. intros z Hz. apply (N z). exact Hz.
  - exists r. split; [exact E|]. split; [exact L|].
    intros k z Hk Hz. rewrite length_seq in P.
    specialize (P k Hk). rewrite seq_nth in P by exact Hk.
    apply P. exact Hz.
Qed.

(** C1, as stated, fails twice.  The window [(2, 2, 3)] has twelve points
    and the weight factor [0.2] is positive, yet no kernel set is built:
    the normal matrix is singular.  And for the window [(3, 3, 3)] the
    kernel of the coefficient of [x], applied by the convolution to a
    block sampled from the polynomial [x], returns [-1] at the centre,
    not [1]. *)
Lemma C1_counterexample :
  ((10 <= 2 * 2 * 3)%nat /\ 0 < 0.2 /\
   CoefInit.lpa3D_init 2 2 3 0.2 = Raise LinAlgError) /\
  (exists K out,
     CoefInit.lpa3D_init 3 3 3 0.2 = Ok K /\
     Coef.sconvolve (sample_block 3 3 3 1 (poly coef_x)) (K 1%nat) = Ok out /\
     nth 1 out 0 = -1).
Proof.
  split.
  - split; [simpl; lia|]. split; [lra|].
    apply lpa3D_init_two; try lia; lra.
  - destruct (lpa3D_init_succeeds 3 3 3 0.2) as [Ginv [HI E]]; try lia; [lra|].
    destruct (sconvolve_in_bounds (sample_block 3 3 3 1 (poly coef_x))
                (reshape_kernel (lpa_DB 3 3 3 0.2 Ginv) 3 3 3 1))
      as [out [Eo [_ N]]]; [simpl; lia | simpl; lia |].
    exists (reshape_kernel (lpa_DB 3 3 3 0.2 Ginv) 3 3 3), out.
    split; [exact E|]. split; [exact Eo|].
    destruct (N 1%nat) as [N1 _]. rewrite N1.
    + rewrite (kernel_on_poly 3 3 3 0.2 Ginv HI 3 3 3 1 coef_x 1);
        try reflexivity; try lia; try (simpl; lia).
      unfold coef_x, delta. simpl. ring.
    + unfold valid_sample. simpl. lia.
Qed.

(** C1, amended: for every window whose extents are all at least 3 and
    every weight factor other than zero, [lpa3D_init] returns ten kernels
    with [D A = I] (kernel [k] summed against monomial [j] over the window
    gives 1 for [j = k] and 0 otherwise); on a constant block of value
    [v] the coefficient loop gives [r0 = v] and [r1 .. r9 = 0] at every
    valid sample; and, the convolution applying the kernels flipped, for
    odd extents a block sampled from a polynomial of degree at most 2 with
    coefficients [c] gives at the analysis sample [r_k = c_k] for the even
    monomials and [r_k = - c_k] for [k = 1, 2, 3]. *)
Theorem C1_exact_on_model_class (xs ys zs : nat) (sigma : R) :
  (3 <= xs)%nat -> (3 <= ys)%nat -> (3 <= zs)%nat -> sigma <> 0 ->
  exists K,
    CoefInit.lpa3D_init xs ys zs sigma = Ok K /\
    (forall k j, (k < 10)%nat -> (j < 10)%nat ->
       tsum xs ys zs (fun a b c =>
         data3 (K k) a b c * monomial j (coord xs a) (coord ys b) (coord zs c))
       = delta k j) /\
    (forall X Y Zn v, (xs <= X)%nat -> (ys <= Y)%nat ->
       exists r,
         coef_doCompute_step K (const_block X Y Zn v) = Ok r /\
         length r = 10%nat /\
         forall k z, (k < 10)%nat -> valid_sample Zn zs z ->
           nth z (nth k r []) 0 = if Nat.eqb k 0 then v else 0) /\
    (Nat.odd xs = true -> Nat.odd ys = true -> Nat.odd zs = true ->
     forall X Y Zn z0 c, (xs <= X)%nat -> (ys <= Y)%nat ->
       valid_sample Zn zs z0 ->
       exists r,
         coef_doCompute_step K (sample_block X Y Zn z0 (poly c)) = Ok r /\
         forall k, (k < 10)%nat ->
           nth z0 (nth k r []) 0 = parity k * c k).
Proof.
  intros Hx Hy Hz Hs.
  destruct (lpa3D_init_succeeds xs ys zs sigma Hs Hx Hy Hz) as [Ginv [HI E]].
  exists (reshape_kernel (lpa_DB xs ys zs sigma Ginv) xs ys zs).
  split; [exact E|]. split; [|split].
  - intros k j Hk Hj. apply (kernel_exact xs ys zs sigma Ginv HI); assumption.
  - intros X Y Zn v HX HY.
    destruct (coef_step_profiles xs ys zs sigma Ginv (const_block X Y Zn v))
      as [r [Er [Lr Pr]]]; [exact HX | exact HY |].
    exists r. split; [exact Er|]. split; [exact Lr|].
    intros k z Hk Hv. rewrite (Pr k z Hk Hv).
    rewrite (kernel_on_constant xs ys zs sigma Ginv HI) by exact Hk.
    unfold delta. destruct (Nat.eqb k 0); ring.
  - intros Ox Oy Oz X Y Zn z0 c HX HY Hv.
    destruct (coef_step_profiles xs ys zs sigma Ginv
                (sample_block X Y Zn z0 (poly c)))
      as [r [Er [_ Pr]]]; [exact HX | exact HY |].
    exists r. split; [exact Er|].
    intros k Hk. rewrite (Pr k z0 Hk Hv).
    apply (kernel_on_poly xs ys zs sigma Ginv HI); try assumption.
    destruct Hv as [Hv _]. exact Hv.
Qed.

Lemma C1_exact_on_model_class_witness :
  exists K,
    CoefInit.lpa3D_init 3 3 3 0.2 = Ok K /\
    (forall k j, (k < 10)%nat -> (j < 10)%nat ->
       tsum 3 3 3 (fun a b c =>
         data3 (K k) a b c * monomial j (coord 3 a) (coord 3 b) (coord 3 c))
       = delta k j) /\
    (forall X Y Zn v, (3 <= X)%nat -> (3 <= Y)%nat ->
       exists r,
         coef_doCompute_step K (const_block X Y Zn v) = Ok r /\
         length r = 10%nat /\
         forall k z, (k < 10)%nat -> valid_sample Zn 3 z ->
           nth z (nth k r []) 0 = if Nat.eqb k 0 then v else 0) /\
    (Nat.odd 3 = true -> Nat.odd 3 = true -> Nat.odd 3 = true ->
     forall X Y Zn z0 c, (3 <= X)%nat -> (3 <= Y)%nat ->
       valid_sample Zn 3 z0 ->
       exists r,
         coef_doCompute_step K (sample_block X Y Zn z0 (poly c)) = Ok r /\
         forall k, (k < 10)%nat ->
           nth z0 (nth k r []) 0 = parity k * c k).
Proof.
  apply (C1_exact_on_model_class 3 3 3 0.2); try lia. lra.
Defined.


(** * Further properties of the centre-trace convolution *)

(** Two profiles with the same entries are the same list. *)
Lemma profile_ext (l1 l2 : list R) :
  length l1 = length l2 -> (forall z, nth z l1 0 = nth z l2 0) -> l1 = l2.
Proof.
  intros L H. apply (nth_ext l1 l2 0 0 L). intros z _. apply H.
Qed.

Lemma conv_at_ext (arr arr' filt : ndarray3) (z : nat) :
  dimX arr' = dimX arr -> dimY arr' = dimY arr ->
  (forall a b c,
      (dimX arr / 2 - dimX filt / 2 <= a < dimX arr / 2 - dimX filt / 2 + dimX filt)%nat ->
      (dimY arr / 2 - dimY filt / 2 <= b < dimY arr / 2 - dimY filt / 2 + dimY filt)%nat ->
      (z - dimZ filt / 2 <= c < z - dimZ filt / 2 + dimZ filt)%nat ->
      data3 arr' a b c = data3 arr a b c) ->
  conv_at arr' filt z = conv_at arr filt z.
Proof.
  intros EX EY H. unfold conv_at. cbv zeta. rewrite EX, EY.
  apply rsum_ext. intros ii Hii. apply rsum_ext. intros jj Hjj.
  apply rsum_ext. intros kk Hkk. f_equal. apply H; lia.
Qed.

(** Only the central [Xf] by [Yf] traces of the block are read: two
    blocks of one shape that agree there give the same profile. *)
Theorem sconvolve_reads_centre_window (arr arr' filt : ndarray3) :
  dimX arr' = dimX arr -> dimY arr' = dimY arr -> dimZ arr' = dimZ arr ->
  (dimX filt <= dimX arr)%nat -> (dimY filt <= dimY arr)%nat ->
  (forall a b c,
      (dimX arr / 2 - dimX filt / 2 <= a < dimX arr / 2 - dimX filt / 2 + dimX filt)%nat ->
      (dimY arr / 2 - dimY filt / 2 <= b < dimY arr / 2 - dimY filt / 2 + dimY filt)%nat ->
      data3 arr' a b c = data3 arr a b c) ->
  Coef.sconvolve arr' filt = Coef.sconvolve arr filt /\
  Extlib.sconvolve arr' filt = Extlib.sconvolve arr filt.
Proof.
  intros EX EY EZ HX HY H.
  assert (E : Coef.sconvolve arr' filt = Coef.sconvolve arr filt).
  { destruct (sconvolve_in_bounds arr filt HX HY) as [out [E [L N]]].
    destruct (sconvolve_in_bounds arr' filt) as [out' [E' [L' N']]];
      [rewrite EX; exact HX | rewrite EY; exact HY |].
    rewrite E, E'. f_equal. apply profile_ext; [congruence|].
    intros z. rewrite EZ in N'.
    destruct (N z) as [N1 N2]. destruct (N' z) as [N1' N2'].
    assert (D : valid_sample (dimZ arr) (dimZ filt) z \/
                ~ valid_sample (dimZ arr) (dimZ filt) z)
      by (unfold valid_sample; lia).
    destruct D as [D|D].
    - rewrite N1, N1' by exact D.
      apply conv_at_ext; try assumption. intros a b c Ha Hb _. apply H; assumption.
    - rewrite N2, N2' by exact D. reflexivity. }
  split; exact E.
Qed.

Lemma sconvolve_reads_centre_window_witness :
  Coef.sconvolve (mk3 3 1 7 (fun a _ c => if Nat.eqb a 1 then INR c else 5)) kernel3
  = Coef.sconvolve (mk3 3 1 7 (fun _ _ c => INR c)) kernel3 /\
  Extlib.sconvolve (mk3 3 1 7 (fun a _ c => if Nat.eqb a 1 then INR c else 5)) kernel3
  = Extlib.sconvolve (mk3 3 1 7 (fun _ _ c => INR c)) kernel3.
Proof.
  apply (sconvolve_reads_centre_window
           (mk3 3 1 7 (fun _ _ c => INR c))
           (mk3 3 1 7 (fun a _ c => if Nat.eqb a 1 then INR c else 5)) kernel3);
    try reflexivity; try (simpl; lia).
  intros a b c Ha Hb. simpl in Ha. simpl.
  assert (a = 1%nat) by lia. subst a. reflexivity.
Defined.

Lemma conv_at_lincomb (s : R) (arr1 arr2 filt : ndarray3) (z : nat) :
  dimX arr2 = dimX arr1 -> dimY arr2 = dimY arr1 ->
  conv_at (block_lincomb s arr1 arr2) filt z =
  s * conv_at arr1 filt z + conv_at arr2 filt z.
Proof.
  intros EX EY. unfold conv_at. cbv zeta. rewrite EX, EY.
  cbn [block_lincomb dimX dimY data3].
  rewrite <- rsum_scal, <- rsum_plus. apply rsum_ext. intros ii _.
  rewrite <- rsum_scal, <- rsum_plus. apply rsum_ext. intros jj _.
  rewrite <- rsum_scal, <- rsum_plus. apply rsum_ext. intros kk _.
  ring.
Qed.

(** Superposition: the profile of [s * arr1 + arr2] is [s] times the
    profile of [arr1] plus the profile of [arr2], at every sample. *)
Theorem sconvolve_linear (s : R) (arr1 arr2 filt : ndarray3) :
  dimX arr2 = dimX arr1 -> dimY arr2 = dimY arr1 -> dimZ arr2 = dimZ arr1 ->
  (dimX filt <= dimX arr1)%nat -> (dimY filt <= dimY arr1)%nat ->
  exists out1 out2 out,
    Coef.sconvolve arr1 filt = Ok out1 /\
    Coef.sconvolve arr2 filt = Ok out2 /\
    Coef.sconvolve (block_lincomb s arr1 arr2) filt = Ok out /\
    length out = dimZ arr1 /\
    forall z, nth z out 0 = s * nth z out1 0 + nth z out2 0.
Proof.
  intros EX EY EZ HX HY.
  destruct (sconvolve_in_bounds arr1 filt HX HY) as [out1 [E1 [L1 N1]]].
  destruct (sconvolve_in_bounds arr2 filt) as [out2 [E2 [L2 N2]]];
    [rewrite EX; exact HX | rewrite EY; exact HY |].
  destruct (sconvolve_in_bounds (block_lincomb s arr1 arr2) filt HX HY)
    as [out [E [L N]]].
  exists out1, out2, out. repeat split; try assumption.
  intros z. rewrite EZ in N2. cbn [block_lincomb dimZ] in N.
  assert (D : valid_sample (dimZ arr1) (dimZ filt) z \/
              ~ valid_sample (dimZ arr1) (dimZ filt) z)
    by (unfold valid_sample; lia).
  destruct D as [D|D].
  - rewrite (proj1 (N z) D), (proj1 (N1 z) D), (proj1 (N2 z) D).
    apply conv_at_lincomb; assumption.
  - rewrite (proj2 (N z) D), (proj2 (N1 z) D), (proj2 (N2 z) D). ring.
Qed.

Lemma sconvolve_linear_witness :
  exists out1 out2 out,
    Coef.sconvolve trace7 kernel3 = Ok out1 /\
    Coef.sconvolve trace7 kernel3 = Ok out2 /\
    Coef.sconvolve (block_lincomb 2 trace7 trace7) kernel3 = Ok out /\
    length out = dimZ trace7 /\
    forall z, nth z out 0 = 2 * nth z out1 0 + nth z out2 0.
Proof.
  apply (sconvolve_linear 2 trace7 trace7 kernel3);
    try reflexivity; simpl; lia.
Defined.

Lemma tsum_impulse (xs ys zs i0 j0 k0 : nat) (F : nat -> nat -> nat -> R) :
  (i0 < xs)%nat -> (j0 < ys)%nat -> (k0 < zs)%nat ->
  tsum xs ys zs (fun a b c =>
    (if (Nat.eqb a i0 && Nat.eqb b j0 && Nat.eqb c k0)%bool then 1 else 0)
    * F a b c) = F i0 j0 k0.
Proof.
  intros Hi Hj Hk. unfold tsum.
  rewrite (rsum_ext _ _ (fun a =>
    rsum ys (fun b => rsum zs (fun c => F a b c * delta c k0) * delta b j0)
    * delta a i0)).
  - rewrite (rsum_delta xs i0 _ Hi), (rsum_delta ys j0 _ Hj).
    apply (rsum_delta zs k0 _ Hk).
  - intros a _. rewrite <- rsum_scal_r. apply rsum_ext. intros b _.
    rewrite <- !rsum_scal_r. apply rsum_ext. intros c _.
    unfold delta.
    destruct (Nat.eqb a i0), (Nat.eqb b j0), (Nat.eqb c k0); simpl; ring.
Qed.

(** A kernel that is a single [1.0] copies one trace of the block, the
    one mirrored through the kernel; when the extents are odd and the
    [1.0] sits at the centre [(Xf/2, Yf/2, Zf/2)], the profile is the
    block's centre trace on the valid range. *)
Theorem sconvolve_impulse (arr : ndarray3) (Xf Yf Zf i0 j0 k0 : nat) :
  (Xf <= dimX arr)%nat -> (Yf <= dimY arr)%nat ->
  (i0 < Xf)%nat -> (j0 < Yf)%nat -> (k0 < Zf)%nat ->
  exists out,
    Coef.sconvolve arr (impulse Xf Yf Zf i0 j0 k0) = Ok out /\
    Extlib.sconvolve arr (impulse Xf Yf Zf i0 j0 k0) = Ok out /\
    (forall z, valid_sample (dimZ arr) Zf z ->
       nth z out 0 =
       data3 arr (dimX arr / 2 - Xf / 2 + (Xf - 1 - i0))%nat
                 (dimY arr / 2 - Yf / 2 + (Yf - 1 - j0))%nat
                 (z - Zf / 2 + (Zf - 1 - k0))%nat) /\
    (Nat.odd Xf = true -> Nat.odd Yf = true -> Nat.odd Zf = true ->
     i0 = (Xf / 2)%nat -> j0 = (Yf / 2)%nat -> k0 = (Zf / 2)%nat ->
     forall z, valid_sample (dimZ arr) Zf z ->
       nth z out 0 = data3 arr (dimX arr / 2) (dimY arr / 2) z).
Proof.
  intros HX HY Hi Hj Hk.
  destruct (sconvolve_in_bounds arr (impulse Xf Yf Zf i0 j0 k0))
    as [out [E [_ N]]]; [exact HX | exact HY |].
  assert (V : forall z, valid_sample (dimZ arr) Zf z ->
            nth z out 0 =
            data3 arr (dimX arr / 2 - Xf / 2 + (Xf - 1 - i0))%nat
                      (dimY arr / 2 - Yf / 2 + (Yf - 1 - j0))%nat
                      (z - Zf / 2 + (Zf - 1 - k0))%nat).
  { intros z Hz. rewrite (proj1 (N z) Hz), conv_at_rev.
    cbn [impulse dimX dimY dimZ data3].
    apply (tsum_impulse Xf Yf Zf i0 j0 k0
             (fun a b c =>
                data3 arr (dimX arr / 2 - Xf / 2 + (Xf - 1 - a))%nat
                          (dimY arr / 2 - Yf / 2 + (Yf - 1 - b))%nat
                          (z - Zf / 2 + (Zf - 1 - c))%nat)); assumption. }
  exists out. split; [exact E|]. split; [exact E|]. split; [exact V|].
  intros Ox Oy Oz -> -> -> z Hz. rewrite (V z Hz).
  assert (Half : forall n, Nat.odd n = true -> (n - 1 - n / 2 = n / 2)%nat).
  { intros n Hn. apply Nat.odd_spec in Hn. destruct Hn as [m ->].
    replace ((2 * m + 1) / 2)%nat with m; [lia|].
    rewrite Nat.add_comm, Nat.mul_comm, Nat.div_add by lia. reflexivity. }
  rewrite !Half by assumption.
  assert ((Xf / 2 <= dimX arr / 2)%nat) by (apply Nat.Div0.div_le_mono; exact HX).
  assert ((Yf / 2 <= dimY arr / 2)%nat) by (apply Nat.Div0.div_le_mono; exact HY).
  destruct Hz as [Hz _]. f_equal; lia.
Qed.

Lemma sconvolve_impulse_witness :
  exists out,
    Coef.sconvolve trace7 (impulse 1 1 3 0 0 1) = Ok out /\
    Extlib.sconvolve trace7 (impulse 1 1 3 0 0 1) = Ok out /\
    (forall z, valid_sample (dimZ trace7) 3 z ->
       nth z out 0 =
       data3 trace7 (dimX trace7 / 2 - 1 / 2 + (1 - 1 - 0))%nat
                    (dimY trace7 / 2 - 1 / 2 + (1 - 1 - 0))%nat
                    (z - 3 / 2 + (3 - 1 - 1))%nat) /\
    (Nat.odd 1 = true -> Nat.odd 1 = true -> Nat.odd 3 = true ->
     0%nat = (1 / 2)%nat -> 0%nat = (1 / 2)%nat -> 1%nat = (3 / 2)%nat ->
     forall z, valid_sample (dimZ trace7) 3 z ->
       nth z out 0 = data3 trace7 (dimX trace7 / 2) (dimY trace7 / 2) z).
Proof.
  apply (sconvolve_impulse trace7 1 1 3 0 0 1); simpl; lia.
Defined.

Lemma conv_at_shift_z (arr filt : ndarray3) (z : nat) :
  (dimZ filt / 2 <= z)%nat ->
  conv_at (shift_z arr) filt z = conv_at arr filt (S z).
Proof.
  intros Hz. unfold conv_at. cbv zeta. cbn [shift_z dimX dimY data3].
  apply rsum_ext. intros ii _. apply rsum_ext. intros jj _.
  apply rsum_ext. intros kk _. do 2 f_equal. lia.
Qed.

(** Moving the block up by one sample moves the profile up by one
    sample, wherever both samples are in the valid range. *)
Theorem sconvolve_shift_z (arr filt : ndarray3) :
  (dimX filt <= dimX arr)%nat -> (dimY filt <= dimY arr)%nat ->
  exists out out',
    Coef.sconvolve arr filt = Ok out /\
    Coef.sconvolve (shift_z arr) filt = Ok out' /\
    forall z, valid_sample (dimZ arr) (dimZ filt) z ->
              valid_sample (dimZ arr) (dimZ filt) (S z) ->
              nth z out' 0 = nth (S z) out 0.
Proof.
  intros HX HY.
  destruct (sconvolve_in_bounds arr filt HX HY) as [out [E [_ N]]].
  destruct (sconvolve_in_bounds (shift_z arr) filt HX HY) as [out' [E' [_ N']]].
  exists out, out'. split; [exact E|]. split; [exact E'|].
  intros z Hz HSz. cbn [shift_z dimZ] in N'.
  rewrite (proj1 (N' z) Hz), (proj1 (N (S z)) HSz).
  apply conv_at_shift_z. destruct Hz as [Hz _]. exact Hz.
Qed.

Lemma sconvolve_shift_z_witness :
  exists out out',
    Coef.sconvolve trace7 kernel3 = Ok out /\
    Coef.sconvolve (shift_z trace7) kernel3 = Ok out' /\
    forall z, valid_sample (dimZ trace7) (dimZ kernel3) z ->
              valid_sample (dimZ trace7) (dimZ kernel3) (S z) ->
              nth z out' 0 = nth (S z) out 0.
Proof.
  apply (sconvolve_shift_z trace7 kernel3); simpl; lia.
Defined.


(** * Further properties of the eigenvalue variant *)

(** The mixing constant is positive whenever it is defined. *)
Lemma gam_positive (xs ys zs : nat) (wf g : R) :
  gam xs ys zs wf = Ok g -> 0 < g.
Proof.
  unfold gam. destruct (Req_EM_T _ 0) as [E|E]; [discriminate|].
  intros H. injection H as <-.
  apply Rdiv_lt_0_compat; [lra|].
  assert (P : 0 <= ((INR (Nat.min xs (Nat.min ys zs)) - 1) * wf) ^ 2)
    by apply pow2_ge_0.
  lra.
Qed.

(** The statements before the loop succeed exactly when the weight factor
    is not zero and every window extent is at least 3; the mixing
    constant they leave is then positive, so the tensor is assembled with
    [gamma > 0] in every round. *)
Theorem eigen_setup_succeeds (xs ys zs : nat) (wf : R) :
  ((exists K g, eigen_doCompute_setup xs ys zs wf = Ok (K, g)) <->
   wf <> 0 /\ (3 <= xs)%nat /\ (3 <= ys)%nat /\ (3 <= zs)%nat) /\
  (forall K g, eigen_doCompute_setup xs ys zs wf = Ok (K, g) ->
     EigenInit.lpa3D_init xs ys zs wf = Ok K /\
     0 < g /\
     g = 1 / (8 * ((INR (Nat.min xs (Nat.min ys zs)) - 1) * wf) ^ 2)).
Proof.
  assert (S : forall K g, eigen_doCompute_setup xs ys zs wf = Ok (K, g) ->
              EigenInit.lpa3D_init xs ys zs wf = Ok K /\ gam xs ys zs wf = Ok g).
  { intros K g H. unfold eigen_doCompute_setup in H.
    destruct (EigenInit.lpa3D_init xs ys zs wf) as [K'|e]; [|discriminate H].
    cbn [bind] in H. destruct (gam xs ys zs wf) as [g'|e]; [|discriminate H].
    cbn [bind] in H. injection H as -> ->. split; reflexivity. }
  split.
  - split.
    + intros [K [g H]]. destruct (S K g H) as [HK _].
      change EigenInit.lpa3D_init with CoefInit.lpa3D_init in HK.
      destruct (lpa3D_init_ok_inv xs ys zs wf K HK) as [Hs [Hx [Hy [Hz _]]]].
      tauto.
    + intros [Hs [Hx [Hy Hz]]].
      destruct (lpa3D_init_succeeds xs ys zs wf Hs Hx Hy Hz) as [Ginv [_ E]].
      unfold eigen_doCompute_setup.
      change EigenInit.lpa3D_init with CoefInit.lpa3D_init.
      rewrite E. cbn [bind]. unfold gam.
      destruct (Req_EM_T _ 0) as [D|D].
      * exfalso. simpl in D.
        assert (Z0 : (INR (Nat.min xs (Nat.min ys zs)) - 1) * wf = 0) by nra.
        apply Rmult_integral in Z0. destruct Z0 as [Z0|Z0]; [|contradiction].
        assert (M : (3 <= Nat.min xs (Nat.min ys zs))%nat) by lia.
        apply le_INR in M. simpl in M. lra.
      * cbn [bind]. eexists _, _. reflexivity.
  - intros K g H. destruct (S K g H) as [HK Hg]. split; [exact HK|].
    split; [apply (gam_positive xs ys zs wf g Hg)|].
    unfold gam in Hg. destruct (Req_EM_T _ 0); [discriminate|].
    injection Hg as <-. reflexivity.
Qed.

Lemma eigen_setup_succeeds_witness :
  exists K g, eigen_doCompute_setup 3 3 3 0.2 = Ok (K, g) /\ 0 < g.
Proof.
  destruct (proj2 (proj1 (eigen_setup_succeeds 3 3 3 0.2))) as [K [g H]].
  - repeat split; try lia. lra.
  - exists K, g. split; [exact H|].
    apply (proj2 (eigen_setup_succeeds 3 3 3 0.2) K g H).
Defined.

(** The tensor reads the coefficients [r1 .. r9] only. *)
Lemma tensor_ext (r r' : nat -> R) (g : R) :
  (forall k, (1 <= k <= 9)%nat -> r k = r' k) -> tensor r g = tensor r' g.
Proof.
  intros H. unfold tensor, curvature, gradient.
  rewrite (H 1%nat), (H 2%nat), (H 3%nat), (H 4%nat), (H 5%nat), (H 6%nat),
    (H 7%nat), (H 8%nat), (H 9%nat) by lia.
  reflexivity.
Qed.

(** Negating the three linear coefficients leaves the tensor, and with it
    the three outputs, unchanged: the gradient enters only through
    [g g^t]. *)
Theorem tensor_ignores_gradient_sign (eigvalsh : matrix -> R * R * R)
        (r : nat -> R) (g : R) :
  tensor (fun k => parity k * r k) g = tensor r g /\
  eigen_sample eigvalsh (fun k => parity k * r k) g = eigen_sample eigvalsh r g.
Proof.
  assert (T : tensor (fun k => parity k * r k) g = tensor r g).
  { unfold tensor, madd, mscale, dot, transpose, curvature, gradient.
    cbn [nrows ncols ent]. f_equal.
    extensionality i. extensionality j.
    destruct i as [|[|[|[|i]]]]; destruct j as [|[|[|[|j]]]];
      cbn [rsum nth parity]; field. }
  split; [exact T|]. unfold eigen_sample. rewrite T. reflexivity.
Qed.

(** With [gamma > 0] the tensor is the zero matrix exactly when the nine
    coefficients [r1 .. r9] all vanish. *)
Theorem tensor_zero_iff (r : nat -> R) (g : R) :
  0 < g ->
  ((forall i j, (i < 3)%nat -> (j < 3)%nat -> ent (tensor r g) i j = 0) <->
   (forall k, (1 <= k <= 9)%nat -> r k = 0)).
Proof.
  intros Hg. split.
  - intros H.
    pose proof (H 0%nat 0%nat ltac:(lia) ltac:(lia)) as H00.
    pose proof (H 1%nat 1%nat ltac:(lia) ltac:(lia)) as H11.
    pose proof (H 2%nat 2%nat ltac:(lia) ltac:(lia)) as H22.
    rewrite tensor_entries in H00, H11, H22.
    cbn [rsum curvature gradient ent nth] in H00, H11, H22.
    assert (Sq : forall x, 0 <= x * x) by (intros; nra).
    pose proof (Sq (r 1%nat)). pose proof (Sq (r 2%nat)). pose proof (Sq (r 3%nat)).
    pose proof (Sq (r 4%nat)). pose proof (Sq (r 5%nat)). pose proof (Sq (r 6%nat)).
    pose proof (Sq (r 7%nat / 2)). pose proof (Sq (r 8%nat / 2)).
    pose proof (Sq (r 9%nat / 2)).
    assert (Z0 : forall x, x * x <= 0 -> x = 0) by (intros; nra).
    assert (G : forall x, g * (x * x) <= 0 -> x = 0).
    { intros x Hx. apply Z0. pose proof (Sq x). nra. }
    intros k Hk.
    assert (C : (k = 1 \/ k = 2 \/ k = 3 \/ k = 4 \/ k = 5 \/ k = 6 \/
                 k = 7 \/ k = 8 \/ k = 9)%nat) by lia.
    assert (P1 : 0 <= g * (r 1%nat * r 1%nat)) by (apply Rmult_le_pos; lra).
    assert (P2 : 0 <= g * (r 2%nat * r 2%nat)) by (apply Rmult_le_pos; lra).
    assert (P3 : 0 <= g * (r 3%nat * r 3%nat)) by (apply Rmult_le_pos; lra).
    destruct C as [->|[->|[->|[->|[->|[->|[->|[->| ->]]]]]]]].
    + apply G. lra.
    + apply G. lra.
    + apply G. lra.
    + apply Z0. lra.
    + apply Z0. lra.
    + apply Z0. lra.
    + assert (r 7%nat / 2 = 0) by (apply Z0; lra). lra.
    + assert (r 8%nat / 2 = 0) by (apply Z0; lra). lra.
    + assert (r 9%nat / 2 = 0) by (apply Z0; lra). lra.
  - intros H i j Hi Hj. rewrite tensor_entries.
    destruct i as [|[|[|i]]]; [| | |lia]; destruct j as [|[|[|j]]]; try lia;
      cbn [rsum curvature gradient ent nth];
      rewrite ?(H 1%nat), ?(H 2%nat), ?(H 3%nat), ?(H 4%nat), ?(H 5%nat),
        ?(H 6%nat), ?(H 7%nat), ?(H 8%nat), ?(H 9%nat) by lia;
      field.
Qed.

Lemma tensor_zero_iff_witness :
  (forall i j, (i < 3)%nat -> (j < 3)%nat -> ent (tensor r_zero 1) i j = 0) <->
  (forall k, (1 <= k <= 9)%nat -> r_zero k = 0).
Proof. apply (tensor_zero_iff r_zero 1). lra. Defined.

(** What one round of the eigenvalue loop returns when no kernel is wider
    than the block: ten profiles, and at every sample the outputs computed
    from the ten values there. *)
Lemma eigen_step_samples (eigvalsh : matrix -> R * R * R)
      (kernel : nat -> ndarray3) (g : R) (Input : ndarray3) :
  (forall i, (i < 10)%nat ->
     (dimX (kernel i) <= dimX Input)%nat /\ (dimY (kernel i) <= dimY Input)%nat) ->
  exists r E,
    eigen_doCompute_step eigvalsh kernel g Input = Ok E /\
    (forall s, (s < dimZ Input)%nat ->
       triple_at E s = eigen_sample eigvalsh (fun k => nth s (nth k r []) 0) g) /\
    (forall k z, (k < 10)%nat ->
       (valid_sample (dimZ Input) (dimZ (kernel k)) z ->
        nth z (nth k r []) 0 = conv_at Input (kernel k) z) /\
       (~ valid_sample (dimZ Input) (dimZ (kernel k)) z ->
        nth z (nth k r []) 0 = 0)).
Proof.
  intros Hk.
  destruct (map_res_all
              (fun i => Extlib.sconvolve Input (kernel i))
              (fun i out => forall z,
                 (valid_sample (dimZ Input) (dimZ (kernel i)) z ->
                  nth z out 0 = conv_at Input (kernel i) z) /\
                 (~ valid_sample (dimZ Input) (dimZ (kernel i)) z ->
                  nth z out 0 = 0))
              (seq 0 10) 0%nat []) as [r [E [L P]]].
  - intros i Hi. apply in_seq in Hi.
    destruct (Hk i ltac:(lia)) as [HX HY].
    destruct (sconvolve_in_bounds Input (kernel i) HX HY) as [out [Eo [_ N]]].
    exists out. split; [exact Eo | exact N].
  - exists r.
    eexists. unfold eigen_doCompute_step. rewrite E. cbn [bind].
    split; [reflexivity|]. split.
    + intros s Hs. unfold triple_at. cbn [fst snd].
      rewrite !nth_map_seq by exact Hs.
      destruct (eigen_sample eigvalsh _ g) as [[e1 e2] e3]. reflexivity.
    + intros k z Hk'. rewrite length_seq in P.
      specialize (P k Hk'). rewrite seq_nth in P by exact Hk'. apply P.
Qed.

(** C6: at every sample the outputs are the three numbers returned by the
    eigensolver, whatever they are, in descending order [e1 >= e2 >= e3].
    A round of the loop returns whenever no kernel is wider than the
    block, and the traces it returns have one entry per sample of the
    block; at every sample [s] the entries [e1 >= e2 >= e3] are, sorted,
    the three numbers the eigensolver returns for the tensor of the ten
    convolution profiles at [s]. *)
Theorem C6_eigen_descending (eigvalsh : matrix -> R * R * R) :
  (forall (r : nat -> R) (g : R),
      let '(e1, e2, e3) := eigen_sample eigvalsh r g in
      let '(w0, w1, w2) := eigvalsh (tensor r g) in
      e1 >= e2 /\ e2 >= e3 /\ Permutation [e1; e2; e3] [w0; w1; w2]) /\
  (forall (kernel : nat -> ndarray3) (g : R) (Input : ndarray3)
          (E1 E2 E3 : list R),
      eigen_doCompute_step eigvalsh kernel g Input = Ok (E1, E2, E3) ->
      length E1 = dimZ Input /\ length E2 = dimZ Input /\
      length E3 = dimZ Input /\
      exists r,
        map_res (fun i => Extlib.sconvolve Input (kernel i)) (seq 0 10) = Ok r /\
        forall s, (s < dimZ Input)%nat ->
          let '(w0, w1, w2) :=
            eigvalsh (tensor (fun k => nth s (nth k r []) 0) g) in
          nth s E1 0 >= nth s E2 0 /\ nth s E2 0 >= nth s E3 0 /\
          Permutation [nth s E1 0; nth s E2 0; nth s E3 0] [w0; w1; w2]) /\
  (forall (kernel : nat -> ndarray3) (g : R) (Input : ndarray3),
      (forall i, (i < 10)%nat ->
         (dimX (kernel i) <= dimX Input)%nat /\
         (dimY (kernel i) <= dimY Input)%nat) ->
      exists E1 E2 E3,
        eigen_doCompute_step eigvalsh kernel g Input = Ok (E1, E2, E3)).
Proof.
  assert (S : forall r g,
             let '(e1, e2, e3) := eigen_sample eigvalsh r g in
             let '(w0, w1, w2) := eigvalsh (tensor r g) in
             e1 >= e2 /\ e2 >= e3 /\ Permutation [e1; e2; e3] [w0; w1; w2]).
  { intros r g. unfold eigen_sample.
    destruct (eigvalsh (tensor r g)) as [[w0 w1] w2].
    destruct (np_sort3 w0 w1 w2) as [x [y [z [E [Hxy [Hyz P]]]]]].
    rewrite E. simpl. repeat split; try lra.
    rewrite <- P. symmetry. apply (Permutation_rev [x; y; z]). }
  split; [exact S|]. split.
  - intros kernel g Input E1 E2 E3 H.
    unfold eigen_doCompute_step in H.
    destruct (map_res _ _) as [r|e]; cbn [bind] in H; [|discriminate H].
    injection H as <- <- <-.
    rewrite !length_map, !length_seq.
    split; [reflexivity|]. split; [reflexivity|]. split; [reflexivity|].
    exists r. split; [reflexivity|].
    intros s Hs. rewrite !nth_map_seq by exact Hs.
    specialize (S (fun k => nth s (nth k r []) 0) g).
    destruct (eigen_sample eigvalsh _ g) as [[e1 e2] e3].
    destruct (eigvalsh _) as [[w0 w1] w2]. exact S.
  - intros kernel g Input Hk.
    destruct (eigen_step_samples eigvalsh kernel g Input Hk)
      as [r [[[E1 E2] E3] [H _]]].
    exists E1, E2, E3. exact H.
Qed.

Lemma C6_eigen_descending_witness :
  exists E1 E2 E3 r,
    eigen_doCompute_step eig_stub (fun _ => kernel3) 1 trace7 = Ok (E1, E2, E3) /\
    length E1 = dimZ trace7 /\ length E2 = dimZ trace7 /\
    length E3 = dimZ trace7 /\
    map_res (fun i => Extlib.sconvolve trace7 kernel3) (seq 0 10) = Ok r /\
    forall s, (s < dimZ trace7)%nat ->
      let '(w0, w1, w2) :=
        eig_stub (tensor (fun k => nth s (nth k r []) 0) 1) in
      nth s E1 0 >= nth s E2 0 /\ nth s E2 0 >= nth s E3 0 /\
      Permutation [nth s E1 0; nth s E2 0; nth s E3 0] [w0; w1; w2].
Proof.
  destruct (proj2 (proj2 (C6_eigen_descending eig_stub))
              (fun _ => kernel3) 1 trace7) as [E1 [E2 [E3 H]]].
  - intros i _. split; simpl; lia.
  - destruct (proj1 (proj2 (C6_eigen_descending eig_stub)) _ _ _ _ _ _ H)
      as [L1 [L2 [L3 [r [Er N]]]]].
    exists E1, E2, E3, r.
    split; [exact H|]. split; [exact L1|]. split; [exact L2|].
    split; [exact L3|]. split; [exact Er | exact N].
Defined.

(** Outside the valid range the ten profiles are zero, so whatever the
    input the outputs there are those of the zero tensor. *)
Theorem eigen_step_boundary (eigvalsh : matrix -> R * R * R)
        (kernel : nat -> ndarray3) (g : R) (Input : ndarray3) (zs : nat) :
  (forall i, (i < 10)%nat ->
     (dimX (kernel i) <= dimX Input)%nat /\ (dimY (kernel i) <= dimY Input)%nat /\
     dimZ (kernel i) = zs) ->
  exists E,
    eigen_doCompute_step eigvalsh kernel g Input = Ok E /\
    forall s, (s < dimZ Input)%nat -> ~ valid_sample (dimZ Input) zs s ->
      triple_at E s = eigen_sample eigvalsh r_zero g.
Proof.
  intros Hk.
  destruct (eigen_step_samples eigvalsh kernel g Input) as [r [E [HE [HS HR]]]].
  { intros i Hi. destruct (Hk i Hi) as [HX [HY _]]. split; assumption. }
  exists E. split; [exact HE|].
  intros s Hs Hv. rewrite (HS s Hs). unfold eigen_sample.
  rewrite (tensor_ext _ r_zero); [reflexivity|].
  intros k Hk'. destruct (Hk k ltac:(lia)) as [_ [_ HZ]].
  destruct (HR k s ltac:(lia)) as [_ N]. rewrite HZ in N. apply N. exact Hv.
Qed.

Lemma eigen_step_boundary_witness :
  exists E,
    eigen_doCompute_step eig_stub (fun _ => kernel3) 1 trace7 = Ok E /\
    forall s, (s < dimZ trace7)%nat -> ~ valid_sample (dimZ trace7) 3 s ->
      triple_at E s = eigen_sample eig_stub r_zero 1.
Proof.
  apply (eigen_step_boundary eig_stub (fun _ => kernel3) 1 trace7 3).
  intros i Hi. simpl. lia.
Defined.

(** A constant block gives the zero tensor at every sample: with the
    kernels of [lpa3D_init] the nine coefficients [r1 .. r9] vanish on the
    valid range, and all ten profiles are zero outside it. *)
Theorem eigen_step_constant_block (eigvalsh : matrix -> R * R * R)
        (xs ys zs : nat) (wf : R) (K : nat -> ndarray3) (g : R)
        (X Y Zn : nat) (v : R) :
  EigenInit.lpa3D_init xs ys zs wf = Ok K ->
  (xs <= X)%nat -> (ys <= Y)%nat ->
  exists E,
    eigen_doCompute_step eigvalsh K g (const_block X Y Zn v) = Ok E /\
    forall s, (s < Zn)%nat -> triple_at E s = eigen_sample eigvalsh r_zero g.
Proof.
  intros HK HX HY.
  change EigenInit.lpa3D_init with CoefInit.lpa3D_init in HK.
  destruct (lpa3D_init_ok_inv xs ys zs wf K HK) as [_ [_ [_ [_ [Ginv [HI ->]]]]]].
  destruct (eigen_step_samples eigvalsh
              (reshape_kernel (lpa_DB xs ys zs wf Ginv) xs ys zs) g
              (const_block X Y Zn v)) as [r [E [HE [HS HR]]]].
  { intros i _. split; assumption. }
  exists E. split; [exact HE|].
  intros s Hs. rewrite (HS s Hs). unfold eigen_sample.
  rewrite (tensor_ext _ r_zero); [reflexivity|].
  intros k Hk. destruct (HR k s ltac:(lia)) as [N1 N2].
  cbn [reshape_kernel dimZ const_block] in N1, N2.
  assert (D : valid_sample Zn zs s \/ ~ valid_sample Zn zs s)
    by (unfold valid_sample; lia).
  destruct D as [D|D].
  - rewrite (N1 D).
    rewrite (kernel_on_constant xs ys zs wf Ginv HI) by lia.
    unfold delta, r_zero.
    destruct (Nat.eqb_spec k 0); [lia | ring].
  - rewrite (N2 D). reflexivity.
Qed.

Lemma eigen_step_constant_block_witness :
  exists K E,
    EigenInit.lpa3D_init 3 3 3 0.2 = Ok K /\
    eigen_doCompute_step eig_stub K 1 (const_block 3 3 7 4) = Ok E /\
    forall s, (s < 7)%nat -> triple_at E s = eigen_sample eig_stub r_zero 1.
Proof.
  destruct (lpa3D_init_succeeds 3 3 3 0.2) as [Ginv [_ HK]]; try lia; [lra|].
  destruct (eigen_step_constant_block eig_stub 3 3 3 0.2 _ 1 3 3 7 4 HK)
    as [E HE]; try lia.
  eexists _, E. split; [exact HK | exact HE].
Defined.

(** On a block sampled from a polynomial of degree at most 2, with odd
    window extents, the outputs at the analysis sample are those of the
    tensor of the polynomial's own coefficients: the sign the convolution
    gives the linear coefficients does not reach the eigenvalues. *)
Theorem eigen_step_polynomial (eigvalsh : matrix -> R * R * R)
        (xs ys zs : nat) (wf : R) (K : nat -> ndarray3) (g : R)
        (X Y Zn z0 : nat) (c : nat -> R) :
  EigenInit.lpa3D_init xs ys zs wf = Ok K ->
  Nat.odd xs = true -> Nat.odd ys = true -> Nat.odd zs = true ->
  (xs <= X)%nat -> (ys <= Y)%nat -> valid_sample Zn zs z0 ->
  exists E,
    eigen_doCompute_step eigvalsh K g (sample_block X Y Zn z0 (poly c)) = Ok E /\
    triple_at E z0 = eigen_sample eigvalsh c g.
Proof.
  intros HK Ox Oy Oz HX HY Hv.
  change EigenInit.lpa3D_init with CoefInit.lpa3D_init in HK.
  destruct (lpa3D_init_ok_inv xs ys zs wf K HK) as [_ [_ [_ [_ [Ginv [HI ->]]]]]].
  destruct (eigen_step_samples eigvalsh
              (reshape_kernel (lpa_DB xs ys zs wf Ginv) xs ys zs) g
              (sample_block X Y Zn z0 (poly c))) as [r [E [HE [HS HR]]]].
  { intros i _. split; assumption. }
  exists E. split; [exact HE|].
  assert (Hz0 : (z0 < Zn)%nat) by (destruct Hv; lia).
  rewrite (HS z0 Hz0).
  rewrite <- (proj2 (tensor_ignores_gradient_sign eigvalsh c g)).
  unfold eigen_sample.
  rewrite (tensor_ext _ (fun k => parity k * c k)); [reflexivity|].
  intros k Hk. destruct (HR k z0 ltac:(lia)) as [N1 _].
  cbn [reshape_kernel dimZ sample_block] in N1. rewrite (N1 Hv).
  apply (kernel_on_poly xs ys zs wf Ginv HI); try assumption; try lia.
  destruct Hv as [Hv _]. exact Hv.
Qed.

Lemma eigen_step_polynomial_witness :
  exists K E,
    EigenInit.lpa3D_init 3 3 3 0.2 = Ok K /\
    eigen_doCompute_step eig_stub K 1 (sample_block 3 3 7 3 (poly coef_x)) = Ok E /\
    triple_at E 3 = eigen_sample eig_stub coef_x 1.
Proof.
  destruct (lpa3D_init_succeeds 3 3 3 0.2) as [Ginv [_ HK]]; try lia; [lra|].
  destruct (eigen_step_polynomial eig_stub 3 3 3 0.2 _ 1 3 3 7 3 coef_x HK)
    as [E HE]; try reflexivity; try lia.
  - unfold valid_sample. simpl. lia.
  - eexists _, E. split; [exact HK | exact HE].
Defined.


(** * The vector filters of [extlib.py] *)

Lemma getitem2_in (a : matrix) (i j : Z) :
  (0 <= i < Z.of_nat (nrows a))%Z -> (0 <= j < Z.of_nat (ncols a))%Z ->
  getitem2 a i j = Ok (ent a (Z.to_nat i) (Z.to_nat j)).
Proof.
  intros Hi Hj. unfold getitem2. rewrite !norm_index_in by assumption.
  reflexivity.
Qed.

Lemma getitem1_in (l : list R) (i : Z) :
  (0 <= i < Z.of_nat (length l))%Z -> getitem1 l i = Ok (nth (Z.to_nat i) l 0).
Proof.
  intros Hi. unfold getitem1. rewrite norm_index_in by assumption. reflexivity.
Qed.

Lemma rsum_bounds (n : nat) (f : nat -> R) (lo hi : R) :
  (forall i, (i < n)%nat -> lo <= f i <= hi) ->
  INR n * lo <= rsum n f <= INR n * hi.
Proof.
  induction n as [|n IH]; intros H.
  - simpl. lra.
  - rewrite S_INR. cbn [rsum].
    pose proof (IH (fun i Hi => H i (Nat.lt_lt_succ_r _ _ Hi))).
    pose proof (H n (Nat.lt_succ_diag_r n)). lra.
Qed.

(** The loop of [vecmean] adds up the three rows. *)
Lemma vecmean_loop (pts : matrix) (n : nat) (X Y Z_ : R) :
  (3 <= nrows pts)%nat -> (n <= ncols pts)%nat ->
  for_each (py_range 0 (Z.of_nat n)) (fun i XYZ =>
    let '(X, Y, Z_) := XYZ in
    x <- getitem2 pts 0 i ;;
    y <- getitem2 pts 1 i ;;
    z <- getitem2 pts 2 i ;;
    Ok (X + x, Y + y, Z_ + z)) (X, Y, Z_)
  = Ok (X + rsum n (fun i => ent pts 0 i),
        Y + rsum n (fun i => ent pts 1 i),
        Z_ + rsum n (fun i => ent pts 2 i)).
Proof.
  intros Hr. rewrite py_range_nat.
  induction n as [|n IH]; intros Hn.
  - simpl. apply f_equal. apply f_equal2; [apply f_equal2|]; ring.
  - rewrite seq_S, map_app, for_each_app, IH by lia.
    cbn [bind for_each map Nat.add].
    rewrite !getitem2_in by lia. cbn [bind].
    rewrite Nat2Z.id. cbn [rsum].
    change (Z.to_nat 0) with 0%nat. change (Z.to_nat 1) with 1%nat.
    change (Z.to_nat 2) with 2%nat.
    apply f_equal. apply f_equal2; [apply f_equal2|]; ring.
Qed.

(** With at least one point, [vecmean] returns the three row means, and
    every mean lies between any bounds that hold for the entries of the
    three rows. *)
Theorem vecmean_mean (pts : matrix) :
  (3 <= nrows pts)%nat -> (1 <= ncols pts)%nat ->
  vecmean pts =
    Ok [ rsum (ncols pts) (fun i => ent pts 0 i) / INR (ncols pts);
         rsum (ncols pts) (fun i => ent pts 1 i) / INR (ncols pts);
         rsum (ncols pts) (fun i => ent pts 2 i) / INR (ncols pts) ] /\
  forall lo hi,
    (forall c i, (c < 3)%nat -> (i < ncols pts)%nat -> lo <= ent pts c i <= hi) ->
    forall c, (c < 3)%nat ->
      lo <= rsum (ncols pts) (fun i => ent pts c i) / INR (ncols pts) <= hi.
Proof.
  intros Hr Hn.
  assert (P : 0 < INR (ncols pts)) by (apply lt_0_INR; lia).
  split.
  - unfold vecmean. cbv zeta. rewrite vecmean_loop by lia. cbn [bind].
    rewrite arr_div_ok by lra. cbn [map].
    rewrite !Rplus_0_l. reflexivity.
  - intros lo hi H c Hc.
    pose proof (rsum_bounds (ncols pts) (fun i => ent pts c i) lo hi
                  (fun i Hi => H c i Hc Hi)) as [B1 B2].
    split.
    + apply Rmult_le_reg_r with (INR (ncols pts)); [exact P|].
      unfold Rdiv. rewrite Rmult_assoc, Rinv_l by lra. lra.
    + apply Rmult_le_reg_r with (INR (ncols pts)); [exact P|].
      unfold Rdiv. rewrite Rmult_assoc, Rinv_l by lra. lra.
Qed.

Lemma vecmean_mean_witness :
  vecmean pts3 =
    Ok [ rsum (ncols pts3) (fun i => ent pts3 0 i) / INR (ncols pts3);
         rsum (ncols pts3) (fun i => ent pts3 1 i) / INR (ncols pts3);
         rsum (ncols pts3) (fun i => ent pts3 2 i) / INR (ncols pts3) ] /\
  forall lo hi,
    (forall c i, (c < 3)%nat -> (i < ncols pts3)%nat -> lo <= ent pts3 c i <= hi) ->
    forall c, (c < 3)%nat ->
      lo <= rsum (ncols pts3) (fun i => ent pts3 c i) / INR (ncols pts3) <= hi.
Proof. apply (vecmean_mean pts3); simpl; lia. Defined.

(** Edge cases of [vecmean]: without points the division by [n = 0]
    leaves no number; with points but fewer than three rows the first
    round raises [IndexError]. *)
Theorem vecmean_edges (pts : matrix) :
  (ncols pts = 0%nat -> vecmean pts = Raise NonFinite) /\
  ((nrows pts < 3)%nat -> (1 <= ncols pts)%nat -> vecmean pts = Raise IndexError).
Proof.
  split.
  - intros Hn. unfold vecmean. rewrite Hn. cbn.
    destruct (Req_EM_T 0 0) as [_|N]; [reflexivity | contradiction].
  - intros Hr Hn. unfold vecmean, getitem2. cbv zeta.
    destruct (ncols pts) as [|n] eqn:En; [lia|].
    rewrite py_range_nat. cbn [seq map for_each].
    change (Z.of_nat 0) with 0%Z.
    destruct (nrows pts) as [|[|[|r]]] eqn:Er; [| | |lia].
    + rewrite (norm_index_out 0 0) by lia. reflexivity.
    + rewrite (norm_index_in 1 0), (norm_index_in (S n) 0) by lia.
      rewrite (norm_index_out 1 1) by lia. reflexivity.
    + rewrite (norm_index_in 2 0), (norm_index_in 2 1),
        (norm_index_in (S n) 0) by lia.
      rewrite (norm_index_out 2 2) by lia. reflexivity.
Qed.

Lemma vecmean_edges_witness :
  vecmean (mkmat 3 0 (fun _ _ => 0)) = Raise NonFinite /\
  vecmean (mkmat 2 1 (fun _ _ => 0)) = Raise IndexError.
Proof.
  split.
  - apply (proj1 (vecmean_edges (mkmat 3 0 (fun _ _ => 0)))). reflexivity.
  - apply (proj2 (vecmean_edges (mkmat 2 1 (fun _ _ => 0)))); simpl; lia.
Defined.

(** ** The pairwise accumulation of the median filters *)

Lemma rsum_split (m k : nat) (f : nat -> R) :
  rsum (m + 1 + k) f = rsum m f + f m + rsum k (fun t => f (m + 1 + t)%nat).
Proof.
  rewrite rsum_add, rsum_add. cbn [rsum]. rewrite Nat.add_0_r. ring.
Qed.

Section PairLoops.

Variable n : nat.
Variable d : nat -> nat -> R.
Variable B : Z -> Z -> list R -> res (list R).

(** One round of the inner loop adds the distance of the pair to both
    of its entries. *)
Hypothesis B_step :
  forall i j D, (i < j < n)%nat -> length D = n ->
    B (Z.of_nat i) (Z.of_nat j) D =
    Ok (upd (upd D i (nth i D 0 + d i j)) j (nth j D 0 + d i j)).

Lemma pair_inner (i c : nat) (D0 : list R) :
  (i + 1 + c <= n)%nat -> length D0 = n ->
  exists D,
    for_each (map (fun k => (Z.of_nat i + 1 + Z.of_nat k)%Z) (seq 0 c))
             (B (Z.of_nat i)) D0 = Ok D /\
    length D = n /\
    forall m, (m < n)%nat ->
      nth m D 0 =
      nth m D0 0 +
      (if Nat.eqb m i then rsum c (fun t => d i (i + 1 + t))
       else if (Nat.ltb i m && Nat.ltb m (i + 1 + c))%bool then d i m else 0).
Proof.
  intros Hc L0. induction c as [|c IH].
  - exists D0. split; [reflexivity|]. split; [exact L0|].
    intros m Hm. cbn [rsum].
    destruct (Nat.eqb m i); [ring|].
    replace (Nat.ltb i m && Nat.ltb m (i + 1 + 0))%bool with false; [ring|].
    symmetry. apply andb_false_iff.
    destruct (Nat.ltb_spec i m); [right | left; reflexivity].
    apply Nat.ltb_ge. lia.
  - destruct IH as [D [E [L N]]]; [lia|].
    rewrite seq_S, map_app, for_each_app, E. cbn [bind map for_each Nat.add].
    replace (Z.of_nat i + 1 + Z.of_nat c)%Z with (Z.of_nat (i + 1 + c)) by lia.
    rewrite B_step by (try assumption; lia). cbn [bind].
    eexists. split; [reflexivity|]. split; [rewrite !upd_length; exact L|].
    intros m Hm.
    rewrite nth_upd by (rewrite upd_length; lia).
    rewrite nth_upd by lia.
    rewrite (N m Hm), (N i) by lia. rewrite (N (i + 1 + c)%nat) by lia.
    rewrite Nat.eqb_refl. cbn [rsum].
    destruct (Nat.eqb_spec m (i + 1 + c)) as [->|Hne].
    + replace (Nat.eqb (i + 1 + c) i) with false by (symmetry; apply Nat.eqb_neq; lia).
      replace (Nat.ltb i (i + 1 + c)) with true by (symmetry; apply Nat.ltb_lt; lia).
      replace (Nat.ltb (i + 1 + c) (i + 1 + c)) with false
        by (symmetry; apply Nat.ltb_ge; lia).
      replace (Nat.ltb (i + 1 + c) (i + 1 + S c)) with true
        by (symmetry; apply Nat.ltb_lt; lia).
      cbn [andb]. ring.
    + destruct (Nat.eqb_spec m i) as [->|Hmi]; [ring|].
      destruct (Nat.ltb_spec i m) as [Him|Him]; cbn [andb]; [|reflexivity].
      destruct (Nat.ltb_spec m (i + 1 + c)) as [H1|H1];
        destruct (Nat.ltb_spec m (i + 1 + S c)) as [H2|H2];
        try reflexivity; lia.
Qed.

Lemma pair_outer (I : nat) :
  (I <= n)%nat ->
  exists D,
    for_each (map Z.of_nat (seq 0 I))
             (fun i D => for_each (py_range (i + 1) (Z.of_nat n)) (B i) D)
             (np_zeros n) = Ok D /\
    length D = n /\
    forall m, (m < n)%nat ->
      nth m D 0 =
      rsum (Nat.min I m) (fun a => d a m) +
      (if Nat.ltb m I then rsum (n - m - 1) (fun t => d m (m + 1 + t)) else 0).
Proof.
  induction I as [|I IH]; intros HI.
  - exists (np_zeros n). split; [reflexivity|].
    split; [apply np_zeros_length|].
    intros m Hm. rewrite nth_np_zeros. cbn. ring.
  - destruct IH as [D [E [L N]]]; [lia|].
    rewrite seq_S, map_app, for_each_app, E. cbn [bind map for_each Nat.add].
    destruct (pair_inner I (n - I - 1) D) as [D' [E' [L' N']]];
      [lia | exact L |].
    unfold py_range.
    replace (Z.to_nat (Z.of_nat n - (Z.of_nat I + 1))) with (n - I - 1)%nat by lia.
    rewrite E'. cbn [bind].
    exists D'. split; [reflexivity|]. split; [exact L'|].
    intros m Hm. rewrite (N' m Hm), (N m Hm).
    destruct (Nat.eqb_spec m I) as [->|Hne].
    + replace (Nat.min I I) with I by lia.
      replace (Nat.min (S I) I) with I by lia.
      replace (Nat.ltb I I) with false by (symmetry; apply Nat.ltb_ge; lia).
      replace (Nat.ltb I (S I)) with true by (symmetry; apply Nat.ltb_lt; lia).
      ring.
    + destruct (Nat.ltb_spec I m) as [H1|H1].
      * replace (Nat.ltb m (I + 1 + (n - I - 1))) with true
          by (symmetry; apply Nat.ltb_lt; lia).
        replace (Nat.min I m) with I by lia.
        replace (Nat.min (S I) m) with (S I) by lia.
        replace (Nat.ltb m I) with false by (symmetry; apply Nat.ltb_ge; lia).
        replace (Nat.ltb m (S I)) with false by (symmetry; apply Nat.ltb_ge; lia).
        cbn [andb rsum]. ring.
      * replace (Nat.min I m) with m by lia.
        replace (Nat.min (S I) m) with m by lia.
        replace (Nat.ltb m I) with true by (symmetry; apply Nat.ltb_lt; lia).
        replace (Nat.ltb m (S I)) with true by (symmetry; apply Nat.ltb_lt; lia).
        cbn [andb]. ring.
Qed.

Hypothesis d_sym : forall i j, d i j = d j i.
Hypothesis d_refl : forall i, d i i = 0.

(** The triangular loops leave at every position the sum of the
    distances from that point to all points. *)
Lemma pair_loops_total :
  exists D,
    for_each (py_range 0 (Z.of_nat n))
             (fun i D => for_each (py_range (i + 1) (Z.of_nat n)) (B i) D)
             (np_zeros n) = Ok D /\
    length D = n /\
    forall m, (m < n)%nat -> nth m D 0 = total_dist d n m.
Proof.
  destruct (pair_outer n (Nat.le_refl n)) as [D [E [L N]]].
  exists D. rewrite py_range_nat. split; [exact E|]. split; [exact L|].
  intros m Hm. rewrite (N m Hm). unfold total_dist.
  replace (Nat.min n m) with m by lia.
  replace (Nat.ltb m n) with true by (symmetry; apply Nat.ltb_lt; lia).
  assert (S : rsum n (fun j => d m j) =
              rsum m (fun j => d m j) + d m m
              + rsum (n - m - 1) (fun t => d m (m + 1 + t))).
  { rewrite <- (rsum_split m (n - m - 1) (fun j => d m j)).
    f_equal. lia. }
  rewrite S, d_refl.
  rewrite (rsum_ext m (fun a => d a m) (fun j => d m j))
    by (intros; apply d_sym).
  ring.
Qed.

End PairLoops.

(** ** [np.argmin] *)

Lemma argmin_from_spec (L : list R) :
  forall l pre best,
    L = pre ++ l -> (best < length pre)%nat ->
    (forall j, (j < length pre)%nat -> nth best L 0 <= nth j L 0) ->
    (forall j, (j < best)%nat -> nth best L 0 < nth j L 0) ->
    let k := argmin_from best (nth best L 0) (length pre) l in
    (k < length L)%nat /\
    (forall j, (j < length L)%nat -> nth k L 0 <= nth j L 0) /\
    (forall j, (j < k)%nat -> nth k L 0 < nth j L 0).
Proof.
  induction l as [|v t IH]; intros pre best EL Hb Hmin Hfirst; cbn [argmin_from].
  - rewrite app_nil_r in EL. subst L. cbv zeta.
    split; [exact Hb|]. split; [exact Hmin | exact Hfirst].
  - assert (Hv : nth (length pre) L 0 = v).
    { subst L. rewrite app_nth2 by lia. rewrite Nat.sub_diag. reflexivity. }
    assert (EL' : L = (pre ++ [v]) ++ t) by (rewrite <- app_assoc; exact EL).
    assert (Len : length (pre ++ [v]) = S (length pre))
      by (rewrite length_app; simpl; lia).
    destruct (Rlt_dec v (nth best L 0)) as [Hlt|Hge].
    + specialize (IH (pre ++ [v]) (length pre) EL').
      rewrite Len, Hv in IH. apply IH.
      * lia.
      * intros j Hj. destruct (Nat.eq_dec j (length pre)) as [->|Hne].
        -- rewrite Hv. lra.
        -- pose proof (Hmin j ltac:(lia)). lra.
      * intros j Hj. pose proof (Hmin j Hj). lra.
    + specialize (IH (pre ++ [v]) best EL').
      rewrite Len in IH. apply IH.
      * lia.
      * intros j Hj. destruct (Nat.eq_dec j (length pre)) as [->|Hne].
        -- rewrite Hv. lra.
        -- apply Hmin. lia.
      * exact Hfirst.
Qed.

(** On a non-empty array [np.argmin] returns the first position of the
    smallest entry. *)
Lemma np_argmin_spec (l : list R) :
  l <> [] ->
  exists k,
    np_argmin l = Done k /\ (k < length l)%nat /\
    (forall j, (j < length l)%nat -> nth k l 0 <= nth j l 0) /\
    (forall j, (j < k)%nat -> nth k l 0 < nth j l 0).
Proof.
  intros Hl. destruct l as [|v t]; [contradiction|].
  exists (argmin_from 0 v 1 t). split; [reflexivity|].
  apply (argmin_from_spec (v :: t) t [v] 0).
  - reflexivity.
  - simpl. lia.
  - intros j Hj. simpl in Hj. assert (j = 0%nat) by lia. subst j. lra.
  - intros j Hj. lia.
Qed.

(** The end of both median filters: the column at the first smallest
    total distance. *)
Lemma vmf_tail (pts : matrix) (d : nat -> nat -> R) (loops : res (list R)) :
  (1 <= ncols pts)%nat ->
  (exists D, loops = Ok D /\ length D = ncols pts /\
             forall m, (m < ncols pts)%nat ->
                       nth m D 0 = total_dist d (ncols pts) m) ->
  exists k,
    (dist <~ lift loops ;; k <~ np_argmin dist ;; lift (getcol pts (Z.of_nat k)))
    = Done (column pts k) /\
    (k < ncols pts)%nat /\
    (forall m, (m < ncols pts)%nat ->
       total_dist d (ncols pts) k <= total_dist d (ncols pts) m) /\
    (forall m, (m < k)%nat ->
       total_dist d (ncols pts) k < total_dist d (ncols pts) m).
Proof.
  intros Hn [D [E [L N]]].
  destruct (np_argmin_spec D) as [k [Ek [Hk [Hmin Hfirst]]]].
  { intros ->. simpl in L. lia. }
  rewrite L in Hk, Hmin.
  exists k. rewrite E. cbn [lift obind]. rewrite Ek. cbn [obind].
  unfold getcol. rewrite norm_index_in by lia. cbn [bind lift].
  rewrite Nat2Z.id. split; [reflexivity|]. split; [exact Hk|]. split.
  - intros m Hm. rewrite <- (N k Hk), <- (N m Hm). apply Hmin. exact Hm.
  - intros m Hm. rewrite <- (N k Hk), <- (N m) by lia. apply Hfirst. exact Hm.
Qed.

(** ** The two median filters *)

Ltac vmf_body_step :=
  let Hr := fresh "Hr" in
  intros Hr ? ? ? ? ?;
  rewrite !getitem2_in by lia; cbn [bind];
  rewrite getitem1_in by lia; cbn [bind];
  unfold setitem1; rewrite norm_index_in by lia; cbn [bind];
  rewrite getitem1_in by (rewrite upd_length; lia); cbn [bind];
  rewrite norm_index_in by (rewrite upd_length; lia); cbn [bind];
  rewrite !Nat2Z.id;
  change (Z.to_nat 0) with 0%nat; change (Z.to_nat 1) with 1%nat;
  change (Z.to_nat 2) with 2%nat;
  rewrite (nth_upd _ _ _ _) by lia;
  match goal with
  | |- context [Nat.eqb ?j ?i] =>
      replace (Nat.eqb j i) with false by (symmetry; apply Nat.eqb_neq; lia)
  end;
  reflexivity.

Lemma vmf_l1_body (pts : matrix) :
  (3 <= nrows pts)%nat ->
  forall i j D, (i < j < ncols pts)%nat -> length D = ncols pts ->
    (fun i j dist =>
       x1 <- getitem2 pts 0 j ;; x0 <- getitem2 pts 0 i ;;
       y1 <- getitem2 pts 1 j ;; y0 <- getitem2 pts 1 i ;;
       z1 <- getitem2 pts 2 j ;; z0 <- getitem2 pts 2 i ;;
       let tmp := Rabs (x1 - x0) + Rabs (y1 - y0) + Rabs (z1 - z0) in
       di <- getitem1 dist i ;;
       dist <- setitem1 dist i (di + tmp) ;;
       dj <- getitem1 dist j ;;
       setitem1 dist j (dj + tmp)) (Z.of_nat i) (Z.of_nat j) D =
    Ok (upd (upd D i (nth i D 0 + dist_l1 pts i j)) j
            (nth j D 0 + dist_l1 pts i j)).
Proof. unfold dist_l1. vmf_body_step. Qed.

Lemma vmf_l2_body (pts : matrix) :
  (3 <= nrows pts)%nat ->
  forall i j D, (i < j < ncols pts)%nat -> length D = ncols pts ->
    (fun i j dist =>
       x1 <- getitem2 pts 0 j ;; x0 <- getitem2 pts 0 i ;;
       y1 <- getitem2 pts 1 j ;; y0 <- getitem2 pts 1 i ;;
       z1 <- getitem2 pts 2 j ;; z0 <- getitem2 pts 2 i ;;
       let tmp := (x1 - x0) ^ 2 + (y1 - y0) ^ 2 + (z1 - z0) ^ 2 in
       di <- getitem1 dist i ;;
       dist <- setitem1 dist i (di + tmp) ;;
       dj <- getitem1 dist j ;;
       setitem1 dist j (dj + tmp)) (Z.of_nat i) (Z.of_nat j) D =
    Ok (upd (upd D i (nth i D 0 + dist_l2 pts i j)) j
            (nth j D 0 + dist_l2 pts i j)).
Proof. unfold dist_l2. vmf_body_step. Qed.

Lemma dist_l1_sym (pts : matrix) (i j : nat) : dist_l1 pts i j = dist_l1 pts j i.
Proof.
  unfold dist_l1.
  rewrite (Rabs_minus_sym (ent pts 0 j)), (Rabs_minus_sym (ent pts 1 j)),
    (Rabs_minus_sym (ent pts 2 j)).
  reflexivity.
Qed.

Lemma dist_l1_refl (pts : matrix) (i : nat) : dist_l1 pts i i = 0.
Proof.
  unfold dist_l1. unfold Rminus. rewrite !Rplus_opp_r, Rabs_R0. ring.
Qed.

Lemma dist_l2_sym (pts : matrix) (i j : nat) : dist_l2 pts i j = dist_l2 pts j i.
Proof. unfold dist_l2. ring. Qed.

Lemma dist_l2_refl (pts : matrix) (i : nat) : dist_l2 pts i i = 0.
Proof. unfold dist_l2. ring. Qed.

(** With at least one point, [vmf_l1] returns one of the points (a column
    of [pts]): the first one whose summed absolute distance to all the
    points is smallest.  The triangular loops do compute, for every
    point, the sum over all the points. *)
Theorem vmf_l1_median (pts : matrix) :
  (3 <= nrows pts)%nat -> (1 <= ncols pts)%nat ->
  exists k,
    vmf_l1 pts = Done (column pts k) /\
    (k < ncols pts)%nat /\
    (forall m, (m < ncols pts)%nat ->
       total_dist (dist_l1 pts) (ncols pts) k
       <= total_dist (dist_l1 pts) (ncols pts) m) /\
    (forall m, (m < k)%nat ->
       total_dist (dist_l1 pts) (ncols pts) k
       < total_dist (dist_l1 pts) (ncols pts) m).
Proof.
  intros Hr Hn. unfold vmf_l1. cbv zeta.
  apply (vmf_tail pts (dist_l1 pts)); [exact Hn|].
  apply (pair_loops_total (ncols pts) (dist_l1 pts) _ (vmf_l1_body pts Hr)
           (dist_l1_sym pts) (dist_l1_refl pts)).
Qed.

Lemma vmf_l1_median_witness :
  exists k,
    vmf_l1 pts3 = Done (column pts3 k) /\
    (k < ncols pts3)%nat /\
    (forall m, (m < ncols pts3)%nat ->
       total_dist (dist_l1 pts3) (ncols pts3) k
       <= total_dist (dist_l1 pts3) (ncols pts3) m) /\
    (forall m, (m < k)%nat ->
       total_dist (dist_l1 pts3) (ncols pts3) k
       < total_dist (dist_l1 pts3) (ncols pts3) m).
Proof. apply (vmf_l1_median pts3); simpl; lia. Defined.

(** The same for [vmf_l2], with the squared Euclidean distance. *)
Theorem vmf_l2_median (pts : matrix) :
  (3 <= nrows pts)%nat -> (1 <= ncols pts)%nat ->
  exists k,
    vmf_l2 pts = Done (column pts k) /\
    (k < ncols pts)%nat /\
    (forall m, (m < ncols pts)%nat ->
       total_dist (dist_l2 pts) (ncols pts) k
       <= total_dist (dist_l2 pts) (ncols pts) m) /\
    (forall m, (m < k)%nat ->
       total_dist (dist_l2 pts) (ncols pts) k
       < total_dist (dist_l2 pts) (ncols pts) m).
Proof.
  intros Hr Hn. unfold vmf_l2. cbv zeta.
  apply (vmf_tail pts (dist_l2 pts)); [exact Hn|].
  apply (pair_loops_total (ncols pts) (dist_l2 pts) _ (vmf_l2_body pts Hr)
           (dist_l2_sym pts) (dist_l2_refl pts)).
Qed.

Lemma vmf_l2_median_witness :
  exists k,
    vmf_l2 pts3 = Done (column pts3 k) /\
    (k < ncols pts3)%nat /\
    (forall m, (m < ncols pts3)%nat ->
       total_dist (dist_l2 pts3) (ncols pts3) k
       <= total_dist (dist_l2 pts3) (ncols pts3) m) /\
    (forall m, (m < k)%nat ->
       total_dist (dist_l2 pts3) (ncols pts3) k
       < total_dist (dist_l2 pts3) (ncols pts3) m).
Proof. apply (vmf_l2_median pts3); simpl; lia. Defined.

Lemma py_range_cons (lo hi : Z) :
  (lo < hi)%Z -> py_range lo hi = lo :: py_range (lo + 1) hi.
Proof.
  intros H. unfold py_range.
  replace (Z.to_nat (hi - lo)) with (S (Z.to_nat (hi - (lo + 1)))) by lia.
  cbn [seq map]. f_equal; [lia|].
  rewrite <- seq_shift, map_map. apply map_ext. intros k. lia.
Qed.

Ltac vmf_first_round Hn Hr :=
  unfold getitem2;
  rewrite (py_range_cons 0) by lia; cbn [for_each];
  rewrite (py_range_cons (0 + 1)) by lia; cbn [for_each];
  match type of Hr with
  | (nrows ?p < 3)%nat =>
      destruct (nrows p) as [|[|[|r]]]; [| | |lia]
  end;
  [ rewrite (norm_index_out 0) by lia; reflexivity
  | rewrite !(norm_index_in 1 0), !(norm_index_in _ (0 + 1)),
      !(norm_index_in _ 0) by lia;
    rewrite (norm_index_out 1 1) by lia; reflexivity
  | rewrite !(norm_index_in 2 0), !(norm_index_in 2 1),
      !(norm_index_in _ (0 + 1)), !(norm_index_in _ 0) by lia;
    rewrite (norm_index_out 2 2) by lia; reflexivity ].

(** Edge cases of the two median filters: without points [np.argmin]
    raises [ValueError]; a single point is returned as it is, whatever
    the number of rows; with two or more points and fewer than three rows
    the first pair raises [IndexError]. *)
Theorem vmf_edges (pts : matrix) :
  (ncols pts = 0%nat ->
   vmf_l1 pts = Fail ValueError /\ vmf_l2 pts = Fail ValueError) /\
  (ncols pts = 1%nat ->
   vmf_l1 pts = Done (column pts 0) /\ vmf_l2 pts = Done (column pts 0)) /\
  ((2 <= ncols pts)%nat -> (nrows pts < 3)%nat ->
   vmf_l1 pts = Fail (Py IndexError) /\ vmf_l2 pts = Fail (Py IndexError)).
Proof.
  split; [|split].
  - intros Hn. unfold vmf_l1, vmf_l2. rewrite Hn. split; reflexivity.
  - intros Hn. unfold vmf_l1, vmf_l2, getcol, column. rewrite Hn.
    split; reflexivity.
  - intros Hn Hr. unfold vmf_l1, vmf_l2. cbv zeta. split.
    + match goal with
      | |- obind (lift ?m) _ = _ => assert (E : m = Raise IndexError)
      end; [|rewrite E; reflexivity].
      vmf_first_round Hn Hr.
    + match goal with
      | |- obind (lift ?m) _ = _ => assert (E : m = Raise IndexError)
      end; [|rewrite E; reflexivity].
      vmf_first_round Hn Hr.
Qed.

Lemma vmf_edges_witness :
  vmf_l1 (mkmat 3 0 (fun _ _ => 0)) = Fail ValueError /\
  vmf_l2 (mkmat 1 1 (fun _ _ => 7)) = Done (column (mkmat 1 1 (fun _ _ => 7)) 0) /\
  vmf_l1 (mkmat 2 2 (fun _ _ => 0)) = Fail (Py IndexError).
Proof.
  split; [|split].
  - apply (proj1 (vmf_edges (mkmat 3 0 (fun _ _ => 0)))). reflexivity.
  - apply (proj1 (proj2 (vmf_edges (mkmat 1 1 (fun _ _ => 7))))). reflexivity.
  - apply (proj2 (proj2 (vmf_edges (mkmat 2 2 (fun _ _ => 0))))); simpl; lia.
Defined.

(** ** [vecFilter] *)

Lemma setcol_ok (out : matrix) (z : Z) (v : list R) :
  (0 <= z < Z.of_nat (ncols out))%Z -> length v = nrows out ->
  setcol out z v =
  Done (mkmat (nrows out) (ncols out)
          (fun r c => if Nat.eqb c (Z.to_nat z) then nth r v 0 else ent out r c)).
Proof.
  intros Hz Hv. unfold setcol. rewrite norm_index_in by exact Hz.
  cbn [lift obind]. rewrite Hv, Nat.eqb_refl. reflexivity.
Qed.

(** A loop that stores the vector [G z] in column [z], for every [z] of a
    list of valid columns. *)
Lemma loop_setcol (G : Z -> list R) (body : Z -> matrix -> outcome matrix)
      (nr nc : nat) (l : list Z) :
  forall out0,
    nrows out0 = nr -> ncols out0 = nc ->
    (forall z, In z l -> (0 <= z < Z.of_nat nc)%Z /\ length (G z) = nr) ->
    (forall z out, In z l -> nrows out = nr -> ncols out = nc ->
                   body z out = setcol out z (G z)) ->
    exists out',
      ofor_each l body out0 = Done out' /\
      nrows out' = nr /\ ncols out' = nc /\
      forall r c,
        (In (Z.of_nat c) l -> ent out' r c = nth r (G (Z.of_nat c)) 0) /\
        (~ In (Z.of_nat c) l -> ent out' r c = ent out0 r c).
Proof.
  induction l as [|z l IH]; intros out0 Hr Hc Hl Hb.
  - exists out0. split; [reflexivity|]. split; [exact Hr|]. split; [exact Hc|].
    intros r c. split; [intros [] | reflexivity].
  - destruct (Hl z (or_introl eq_refl)) as [Hz HG].
    cbn [ofor_each]. rewrite (Hb z out0 (or_introl eq_refl) Hr Hc).
    rewrite setcol_ok by (rewrite ?Hc, ?Hr; assumption). cbn [obind].
    destruct (IH (mkmat (nrows out0) (ncols out0)
                    (fun r c => if Nat.eqb c (Z.to_nat z) then nth r (G z) 0
                                else ent out0 r c)))
      as [out' [E [Hr' [Hc' N]]]].
    + exact Hr.
    + exact Hc.
    + intros z' Hz'. apply Hl. right. exact Hz'.
    + intros z' out Hz'. apply Hb. right. exact Hz'.
    + exists out'. split; [exact E|]. split; [exact Hr'|]. split; [exact Hc'|].
      intros r c. destruct (N r c) as [N1 N2]. split.
      * intros [Hzc|Hin]; [|apply N1; exact Hin].
        destruct (in_dec Z.eq_dec (Z.of_nat c) l) as [Hin|Hnin];
          [apply N1; exact Hin|].
        rewrite (N2 Hnin). cbn [ent]. subst z. rewrite Nat2Z.id, Nat.eqb_refl.
        reflexivity.
      * intros Hnin. rewrite N2 by (intros H; apply Hnin; right; exact H).
        cbn [ent].
        destruct (Nat.eqb_spec c (Z.to_nat z)) as [->|]; [|reflexivity].
        exfalso. apply Hnin. left. lia.
Qed.

(** A loop that copies column [s] into every column of a list that does
    not hold [s]. *)
Lemma loop_copycol (s : Z) (nr nc : nat) (l : list Z) :
  (0 <= s < Z.of_nat nc)%Z -> ~ In s l ->
  (forall z, In z l -> (0 <= z < Z.of_nat nc)%Z) ->
  forall out0,
    nrows out0 = nr -> ncols out0 = nc ->
    exists out',
      ofor_each l (fun z out => col <~ lift (getcol out s) ;; setcol out z col) out0
      = Done out' /\
      nrows out' = nr /\ ncols out' = nc /\
      forall r c, (r < nr)%nat ->
        (In (Z.of_nat c) l -> ent out' r c = ent out0 r (Z.to_nat s)) /\
        (~ In (Z.of_nat c) l -> ent out' r c = ent out0 r c).
Proof.
  intros Hs. induction l as [|z l IH]; intros Hns Hl out0 Hr Hc.
  - exists out0. split; [reflexivity|]. split; [exact Hr|]. split; [exact Hc|].
    intros r c _. split; [intros [] | reflexivity].
  - assert (Hz : (0 <= z < Z.of_nat nc)%Z) by (apply Hl; left; reflexivity).
    assert (Hzs : z <> s) by (intros ->; apply Hns; left; reflexivity).
    cbn [ofor_each]. unfold getcol at 1.
    rewrite norm_index_in by (rewrite Hc; exact Hs). cbn [bind lift obind].
    rewrite setcol_ok
      by (rewrite ?Hc, ?length_map, ?length_seq; try assumption; reflexivity).
    cbn [obind].
    destruct (IH ltac:(intros H; apply Hns; right; exact H)
                 ltac:(intros z' Hz'; apply Hl; right; exact Hz')
                 (mkmat (nrows out0) (ncols out0)
                    (fun r c =>
                       if Nat.eqb c (Z.to_nat z)
                       then nth r (map (fun i => ent out0 i (Z.to_nat s))
                                       (seq 0 (nrows out0))) 0
                       else ent out0 r c)) Hr Hc)
      as [out' [E [Hr' [Hc' N]]]].
    exists out'. split; [exact E|]. split; [exact Hr'|]. split; [exact Hc'|].
    intros r c Hrn. destruct (N r c Hrn) as [N1 N2]. cbn [ent] in N1, N2.
    replace (Nat.eqb (Z.to_nat s) (Z.to_nat z)) with false in N1
      by (symmetry; apply Nat.eqb_neq; lia).
    split.
    + intros [Hzc|Hin]; [|apply N1; exact Hin].
      destruct (in_dec Z.eq_dec (Z.of_nat c) l) as [Hin|Hnin];
        [apply N1; exact Hin|].
      rewrite (N2 Hnin). subst z. rewrite Nat2Z.id, Nat.eqb_refl.
      apply (nth_map_seq (fun i => ent out0 i (Z.to_nat s))).
      rewrite Hr. exact Hrn.
    + intros Hnin. rewrite N2 by (intros H; apply Hnin; right; exact H).
      destruct (Nat.eqb_spec c (Z.to_nat z)) as [->|]; [|reflexivity].
      exfalso. apply Hnin. left. lia.
Qed.

(** The three loops of [vecFilter], when the filter returns the vector
    [F z] for the window at every sample [z] that has a full window. *)
Lemma vecFilter_run (indata : ndarray4) (window : nat)
        (filtFunc : matrix -> outcome (list R)) (outdata : matrix)
        (F : nat -> list R) :
  ncols outdata = e3 indata ->
  (2 * (window / 2) < e3 indata)%nat ->
  (forall z, (window / 2 <= z < e3 indata - window / 2)%nat ->
     exists pts,
       filter_window indata window z = Done pts /\
       filtFunc pts = Done (F z) /\
       length (F z) = nrows outdata) ->
  exists out',
    vecFilter indata window filtFunc outdata = Done out' /\
    nrows out' = nrows outdata /\ ncols out' = e3 indata /\
    forall r z, (r < nrows outdata)%nat -> (z < e3 indata)%nat ->
      ent out' r z = nth r (F (clamp_sample (e3 indata) (window / 2) z)) 0.
Proof.
  intros Hc Hh HF. unfold vecFilter. cbv zeta.
  pose proof (half_of_nat window) as Hw.
  set (h := (window / 2)%nat) in *. set (nz := e3 indata) in *.
  rewrite <- Hw.
  destruct (loop_setcol (fun z => F (Z.to_nat z))
              (fun z outdata =>
                 pts <~ reshape3 (slice_last indata (z - Z.of_nat h)
                                             (z + Z.of_nat h + 1)) ;;
                 v <~ filtFunc pts ;; setcol outdata z v)
              (nrows outdata) nz
              (py_range (Z.of_nat h) (Z.of_nat nz - Z.of_nat h))
              (fill outdata 0)) as [out1 [E1 [R1 [C1 N1]]]].
  - reflexivity.
  - exact Hc.
  - intros z Hz. apply in_py_range in Hz. split; [lia|].
    destruct (HF (Z.to_nat z)) as [pts [_ [_ L]]]; [lia | exact L].
  - intros z out Hz _ _. apply in_py_range in Hz.
    destruct (HF (Z.to_nat z)) as [pts [Ew [Ef _]]]; [lia|].
    unfold filter_window in Ew. rewrite <- Hw in Ew.
    rewrite Z2Nat.id in Ew by lia. rewrite Ew. cbn [obind].
    rewrite Ef. reflexivity.
  - rewrite E1. cbn [obind].
    destruct (loop_copycol (Z.of_nat h) (nrows outdata) nz
                (py_range 0 (Z.of_nat h))) with (out0 := out1)
      as [out2 [E2 [R2 [C2 N2]]]]; try assumption.
    + lia.
    + rewrite in_py_range. lia.
    + intros z Hz. apply in_py_range in Hz. lia.
    + rewrite E2. cbn [obind].
      destruct (loop_copycol (Z.of_nat nz - Z.of_nat h - 1) (nrows outdata) nz
                  (py_range (Z.of_nat nz - Z.of_nat h) (Z.of_nat nz)))
        with (out0 := out2) as [out3 [E3 [R3 [C3 N3]]]]; try assumption.
      * lia.
      * rewrite in_py_range. lia.
      * intros z Hz. apply in_py_range in Hz. lia.
      * exists out3. split; [exact E3|]. split; [exact R3|]. split; [exact C3|].
        intros r z Hr Hz. unfold clamp_sample.
        destruct (N3 r z Hr) as [N3a N3b].
        destruct (Nat.lt_ge_cases z (nz - h)) as [Hlt|Hge].
        -- rewrite N3b by (rewrite in_py_range; lia).
           destruct (N2 r z Hr) as [N2a N2b].
           destruct (Nat.lt_ge_cases z h) as [Hzh|Hzh].
           ++ rewrite N2a by (rewrite in_py_range; lia).
              rewrite Nat2Z.id.
              rewrite (proj1 (N1 r h)) by (rewrite in_py_range; lia).
              rewrite Nat2Z.id. do 2 f_equal. lia.
           ++ rewrite N2b by (rewrite in_py_range; lia).
              rewrite (proj1 (N1 r z)) by (rewrite in_py_range; lia).
              rewrite Nat2Z.id. do 2 f_equal. lia.
        -- rewrite N3a by (rewrite in_py_range; lia).
           replace (Z.to_nat (Z.of_nat nz - Z.of_nat h - 1)) with (nz - h - 1)%nat
             by lia.
           rewrite (proj2 (N2 r (nz - h - 1)%nat Hr))
             by (rewrite in_py_range; lia).
           rewrite (proj1 (N1 r (nz - h - 1)%nat)) by (rewrite in_py_range; lia).
           rewrite Nat2Z.id. do 2 f_equal. lia.
Qed.

(** The position of a window entry in the flattened window. *)
Lemma flat_position (n1 n2 w c a b l : nat) :
  (a < n1)%nat -> (b < n2)%nat -> (l < w)%nat ->
  let p := (c * (n1 * n2 * w) + flat_index n2 w a b l)%nat in
  (p / (n1 * n2 * w) = c /\ (p / (n2 * w)) mod n1 = a /\
   (p / w) mod n2 = b /\ p mod w = l)%nat.
Proof.
  intros Ha Hb Hl p. unfold flat_index in p.
  assert (B1 : (b * w + l < n2 * w)%nat).
  { assert ((b + 1) * w <= n2 * w)%nat by (apply Nat.mul_le_mono_r; lia). lia. }
  assert (B2 : ((a * n2 + b) * w + l < n1 * n2 * w)%nat).
  { assert ((a * n2 + b + 1) * w <= (n1 * n2) * w)%nat.
    { apply Nat.mul_le_mono_r.
      assert ((a + 1) * n2 <= n1 * n2)%nat by (apply Nat.mul_le_mono_r; lia).
      lia. }
    lia. }
  assert (Q1 : (p / (n2 * w) = c * n1 + a)%nat).
  { symmetry. apply (Nat.div_unique p (n2 * w) (c * n1 + a) (b * w + l) B1).
    unfold p. ring. }
  assert (Q2 : (p / w = (c * n1 + a) * n2 + b)%nat).
  { symmetry. apply (Nat.div_unique p w ((c * n1 + a) * n2 + b) l Hl).
    unfold p. ring. }
  split; [|split; [|split]].
  - symmetry.
    apply (Nat.div_unique p (n1 * n2 * w) c ((a * n2 + b) * w + l) B2).
    unfold p. ring.
  - rewrite Q1. symmetry. apply (Nat.mod_unique (c * n1 + a) n1 c a Ha). ring.
  - rewrite Q2. symmetry.
    apply (Nat.mod_unique ((c * n1 + a) * n2 + b) n2 (c * n1 + a) b Hb). ring.
  - symmetry. apply (Nat.mod_unique p w ((c * n1 + a) * n2 + b) l Hl).
    unfold p. ring.
Qed.

(** The window of a sample that has a full window. *)
Lemma filter_window_run (indata : ndarray4) (window z : nat) :
  e0 indata = 3%nat ->
  (window / 2 <= z < e3 indata - window / 2)%nat ->
  exists pts,
    filter_window indata window z = Done pts /\
    nrows pts = 3%nat /\
    ncols pts = (e1 indata * e2 indata * (2 * (window / 2) + 1))%nat /\
    forall c a b l,
      (c < 3)%nat -> (a < e1 indata)%nat -> (b < e2 indata)%nat ->
      (l < 2 * (window / 2) + 1)%nat ->
      ent pts c (flat_index (e2 indata) (2 * (window / 2) + 1) a b l)
      = data4 indata c a b (z - window / 2 + l)%nat.
Proof.
  intros H0 Hz. pose proof (half_of_nat window) as Hw.
  set (h := (window / 2)%nat) in *.
  unfold filter_window, slice_last, py_slice. rewrite <- Hw.
  replace (Z.of_nat z - Z.of_nat h <? 0)%Z with false
    by (symmetry; apply Z.ltb_ge; lia).
  replace (Z.of_nat z + Z.of_nat h + 1 <? 0)%Z with false
    by (symmetry; apply Z.ltb_ge; lia).
  rewrite !Z.min_l by lia.
  replace (Z.to_nat (Z.of_nat z + Z.of_nat h + 1 - (Z.of_nat z - Z.of_nat h)))
    with (2 * h + 1)%nat by lia.
  replace (Z.to_nat (Z.of_nat z - Z.of_nat h)) with (z - h)%nat by lia.
  unfold reshape3. cbn [e0 e1 e2 e3 data4]. rewrite H0.
  set (w := (2 * h + 1)%nat).
  replace (3 * e1 indata * e2 indata * w)%nat
    with (e1 indata * e2 indata * w * 3)%nat by ring.
  rewrite Nat.Div0.mod_mul, Nat.div_mul by discriminate.
  cbn [Nat.eqb]. eexists. split; [reflexivity|].
  split; [reflexivity|]. split; [reflexivity|].
  intros c a b l Hc Ha Hb Hl. cbn [ent]. unfold flat4. cbn [e1 e2 e3 data4].
  destruct (flat_position (e1 indata) (e2 indata) w c a b l Ha Hb Hl)
    as [P1 [P2 [P3 P4]]].
  rewrite P1, P2, P3, P4. reflexivity.
Qed.

(** For a field of three components, the window handed to the filter at
    a sample with a full window has one column for every trace and every
    sample of the window, [2 * (window / 2) + 1] samples whatever the
    parity of [window]; the column holds the three components there. *)
Theorem filter_window_points (indata : ndarray4) (window z : nat) :
  e0 indata = 3%nat ->
  (window / 2 <= z < e3 indata - window / 2)%nat ->
  exists pts,
    filter_window indata window z = Done pts /\
    nrows pts = 3%nat /\
    ncols pts = (e1 indata * e2 indata * (2 * (window / 2) + 1))%nat /\
    forall c a b l,
      (c < 3)%nat -> (a < e1 indata)%nat -> (b < e2 indata)%nat ->
      (l < 2 * (window / 2) + 1)%nat ->
      ent pts c (flat_index (e2 indata) (2 * (window / 2) + 1) a b l)
      = data4 indata c a b (z - window / 2 + l)%nat.
Proof. exact (filter_window_run indata window z). Qed.

Lemma filter_window_points_witness :
  exists pts,
    filter_window field5 3 2 = Done pts /\
    nrows pts = 3%nat /\
    ncols pts = (e1 field5 * e2 field5 * (2 * (3 / 2) + 1))%nat /\
    forall c a b l,
      (c < 3)%nat -> (a < e1 field5)%nat -> (b < e2 field5)%nat ->
      (l < 2 * (3 / 2) + 1)%nat ->
      ent pts c (flat_index (e2 field5) (2 * (3 / 2) + 1) a b l)
      = data4 field5 c a b (2 - 3 / 2 + l)%nat.
Proof. apply (filter_window_points field5 3 2); cbn; lia. Defined.

(** Every sample with a full window gets the filter's vector for its
    window; the samples before the first and after the last of them get
    a copy of the nearest one. *)
Theorem vecFilter_clamps (indata : ndarray4) (window : nat)
        (filtFunc : matrix -> outcome (list R)) (outdata : matrix)
        (F : nat -> list R) :
  ncols outdata = e3 indata ->
  (2 * (window / 2) < e3 indata)%nat ->
  (forall z, (window / 2 <= z < e3 indata - window / 2)%nat ->
     exists pts,
       filter_window indata window z = Done pts /\
       filtFunc pts = Done (F z) /\
       length (F z) = nrows outdata) ->
  exists out',
    vecFilter indata window filtFunc outdata = Done out' /\
    nrows out' = nrows outdata /\ ncols out' = e3 indata /\
    forall r z, (r < nrows outdata)%nat -> (z < e3 indata)%nat ->
      ent out' r z = nth r (F (clamp_sample (e3 indata) (window / 2) z)) 0.
Proof. exact (vecFilter_run indata window filtFunc outdata F). Qed.

Lemma vecFilter_clamps_witness :
  exists out',
    vecFilter field5 3 (fun _ => Done [1; 2; 3]) ones35 = Done out' /\
    nrows out' = nrows ones35 /\ ncols out' = e3 field5 /\
    forall r z, (r < nrows ones35)%nat -> (z < e3 field5)%nat ->
      ent out' r z = nth r [1; 2; 3] 0.
Proof.
  apply (vecFilter_clamps field5 3 (fun _ => Done [1; 2; 3]) ones35
           (fun _ => [1; 2; 3])).
  - reflexivity.
  - cbn; lia.
  - intros z Hz.
    destruct (filter_window_run field5 3 z eq_refl Hz) as [pts [E _]].
    exists pts. split; [exact E|]. split; reflexivity.
Defined.

Lemma vecmean_value (pts : matrix) :
  (3 <= nrows pts)%nat -> (1 <= ncols pts)%nat ->
  vecmean pts =
    Ok [ rsum (ncols pts) (fun i => ent pts 0 i) / INR (ncols pts);
         rsum (ncols pts) (fun i => ent pts 1 i) / INR (ncols pts);
         rsum (ncols pts) (fun i => ent pts 2 i) / INR (ncols pts) ].
Proof.
  intros Hr Hn.
  assert (P : 0 < INR (ncols pts)) by (apply lt_0_INR; lia).
  unfold vecmean. cbv zeta. rewrite vecmean_loop by lia. cbn [bind].
  rewrite arr_div_ok by lra. cbn [map].
  rewrite !Rplus_0_l. reflexivity.
Qed.

(** [vecFilter] with [vecmean] as its filter is a moving average: every
    output vector is the mean, over all traces and the samples of the
    window, of the input vectors around the nearest sample that has a
    full window. *)
Theorem vecFilter_vecmean (indata : ndarray4) (window : nat) (outdata : matrix) :
  e0 indata = 3%nat -> (1 <= e1 indata)%nat -> (1 <= e2 indata)%nat ->
  nrows outdata = 3%nat -> ncols outdata = e3 indata ->
  (2 * (window / 2) < e3 indata)%nat ->
  exists out',
    vecFilter indata window (fun pts => lift (vecmean pts)) outdata = Done out' /\
    nrows out' = 3%nat /\ ncols out' = e3 indata /\
    forall c z, (c < 3)%nat -> (z < e3 indata)%nat ->
      ent out' c z =
      window_mean indata (window / 2) c
                  (clamp_sample (e3 indata) (window / 2) z).
Proof.
  intros H0 H1 H2 Hr Hc Hh.
  set (h := (window / 2)%nat) in *.
  destruct (vecFilter_run indata window (fun pts => lift (vecmean pts)) outdata
              (fun z => [window_mean indata h 0 z; window_mean indata h 1 z;
                         window_mean indata h 2 z]) Hc Hh)
    as [out' [E [R' [C' N]]]].
  - intros z Hz.
    destruct (filter_window_run indata window z H0 Hz) as [pts [Ew [Pr [Pc Pe]]]].
    fold h in Pc, Pe.
    exists pts. split; [exact Ew|]. split; [|rewrite Hr; reflexivity].
    assert (Hn : (1 <= ncols pts)%nat).
    { rewrite Pc.
      assert (1 * 1 * 1 <= e1 indata * e2 indata * (2 * h + 1))%nat
        by (repeat apply Nat.mul_le_mono; lia).
      lia. }
    rewrite vecmean_value by lia. cbn [lift].
    assert (S : forall c, (c < 3)%nat ->
              rsum (ncols pts) (fun i => ent pts c i) / INR (ncols pts)
              = window_mean indata h c z).
    { intros c Hc3. unfold window_mean. rewrite Pc. apply (f_equal (fun v => v / _)).
      rewrite rsum_flat.
      apply rsum_ext. intros a Ha. apply rsum_ext. intros b Hb.
      apply rsum_ext. intros l Hl. apply Pe; assumption. }
    rewrite !S by lia. reflexivity.
  - exists out'. split; [exact E|]. split; [rewrite R'; exact Hr|].
    split; [exact C'|].
    intros c z Hc3 Hz. rewrite N by (rewrite ?Hr; assumption).
    destruct c as [|[|[|c]]]; try reflexivity. lia.
Qed.

Lemma vecFilter_vecmean_witness :
  exists out',
    vecFilter field5 3 (fun pts => lift (vecmean pts)) ones35 = Done out' /\
    nrows out' = 3%nat /\ ncols out' = e3 field5 /\
    forall c z, (c < 3)%nat -> (z < e3 field5)%nat ->
      ent out' c z =
      window_mean field5 (3 / 2) c (clamp_sample (e3 field5) (3 / 2) z).
Proof.
  apply (vecFilter_vecmean field5 3 ones35); cbn; try reflexivity; lia.
Defined.

(** When the traces are longer than half a window but no sample has a
    full window, the filter is never called and the output is all zeros;
    when they are not longer than half a window, [vecFilter] raises
    [IndexError]. *)
Theorem vecFilter_short_traces (indata : ndarray4) (window : nat)
        (filtFunc : matrix -> outcome (list R)) (outdata : matrix) :
  ncols outdata = e3 indata ->
  (e3 indata <= 2 * (window / 2))%nat ->
  ((window / 2 < e3 indata)%nat ->
   exists out',
     vecFilter indata window filtFunc outdata = Done out' /\
     nrows out' = nrows outdata /\ ncols out' = e3 indata /\
     forall r z, (r < nrows outdata)%nat -> ent out' r z = 0) /\
  ((e3 indata <= window / 2)%nat -> (0 < window / 2)%nat ->
   vecFilter indata window filtFunc outdata = Fail (Py IndexError)).
Proof.
  intros Hc Hs. pose proof (half_of_nat window) as Hw.
  set (h := (window / 2)%nat) in *. set (nz := e3 indata) in *.
  unfold vecFilter. cbv zeta. fold nz. rewrite <- Hw.
  rewrite (py_range_empty (Z.of_nat h) (Z.of_nat nz - Z.of_nat h)) by lia.
  cbn [ofor_each obind]. split.
  - intros Hlt.
    destruct (loop_copycol (Z.of_nat h) (nrows outdata) nz
                (py_range 0 (Z.of_nat h))) with (out0 := fill outdata 0)
      as [out2 [E2 [R2 [C2 N2]]]].
    + lia.
    + rewrite in_py_range. lia.
    + intros z Hz. apply in_py_range in Hz. lia.
    + reflexivity.
    + exact Hc.
    + rewrite E2. cbn [obind].
      destruct (loop_copycol (Z.of_nat nz - Z.of_nat h - 1) (nrows outdata) nz
                  (py_range (Z.of_nat nz - Z.of_nat h) (Z.of_nat nz)))
        with (out0 := out2) as [out3 [E3 [R3 [C3 N3]]]]; try assumption.
      * lia.
      * rewrite in_py_range. lia.
      * intros z Hz. apply in_py_range in Hz. lia.
      * exists out3. split; [exact E3|]. split; [exact R3|]. split; [exact C3|].
        intros r z Hr.
        assert (Z2 : forall c, ent out2 r c = 0).
        { intros c. destruct (N2 r c Hr) as [A B].
          destruct (in_dec Z.eq_dec (Z.of_nat c) (py_range 0 (Z.of_nat h)))
            as [Hin|Hnin]; [rewrite (A Hin) | rewrite (B Hnin)]; reflexivity. }
        destruct (N3 r z Hr) as [A B].
        destruct (in_dec Z.eq_dec (Z.of_nat z)
                    (py_range (Z.of_nat nz - Z.of_nat h) (Z.of_nat nz)))
          as [Hin|Hnin]; [rewrite (A Hin) | rewrite (B Hnin)]; apply Z2.
  - intros Hle Hpos.
    rewrite (py_range_cons 0 (Z.of_nat h)) by lia.
    cbn [ofor_each]. unfold getcol at 1. cbn [fill ncols].
    rewrite norm_index_out by (right; lia). reflexivity.
Qed.

Lemma vecFilter_short_traces_witness :
  (exists out',
     vecFilter field5 6 failing_filter ones35 = Done out' /\
     nrows out' = nrows ones35 /\ ncols out' = e3 field5 /\
     forall r z, (r < nrows ones35)%nat -> ent out' r z = 0) /\
  vecFilter field5 10 failing_filter ones35 = Fail (Py IndexError).
Proof.
  split.
  - apply (proj1 (vecFilter_short_traces field5 6 failing_filter ones35
                    eq_refl ltac:(cbn; lia))).
    cbn; lia.
  - apply (proj2 (vecFilter_short_traces field5 10 failing_filter ones35
                    eq_refl ltac:(cbn; lia))); cbn; lia.
Defined.

(** ** [rolling_window] *)

Lemma byte_offset_app (idx idx2 : list nat) (st st2 : list Z) :
  length idx = length st ->
  byte_offset (idx ++ idx2) (st ++ st2)
  = (byte_offset idx st + byte_offset idx2 st2)%Z.
Proof.
  revert st. induction idx as [|i idx IH]; intros [|s st] H;
    try discriminate; cbn [app byte_offset]; [reflexivity|].
  rewrite IH by (injection H; auto). ring.
Qed.

(** For an array whose last axis has [n] entries and a window of at
    most [n + 1], [rolling_window] returns a view with the last axis
    replaced by [n - window + 1] windows of [window] entries; entry [j]
    of window [i] is entry [i + j] of the array, which lies inside the
    array for every window and entry of the view. *)
Theorem rolling_window_view (a : strided) (window : nat)
        (pre : list nat) (n : nat) (spre : list Z) (s : Z) :
  shape a = pre ++ [n] -> strides a = spre ++ [s] ->
  length spre = length pre ->
  (window <= n + 1)%nat ->
  exists v,
    rolling_window a window = Done v /\
    shape v = pre ++ [(n + 1 - window)%nat; window] /\
    forall idx i j, length idx = length pre ->
      view_at v (idx ++ [i; j]) = view_at a (idx ++ [(i + j)%nat]) /\
      ((i < n + 1 - window)%nat -> (j < window)%nat -> (i + j < n)%nat).
Proof.
  intros Hs Ht Hl Hw. unfold rolling_window.
  destruct (shape a) as [|x l]; [destruct pre; discriminate|].
  destruct (strides a) as [|y t] eqn:E; [destruct spre; discriminate|].
  rewrite Hs, Ht. rewrite !last_last, removelast_last. cbv zeta.
  replace (Z.of_nat n - Z.of_nat window + 1 <? 0)%Z with false
    by (symmetry; apply Z.ltb_ge; lia).
  eexists. split; [reflexivity|]. cbn [shape].
  split; [do 3 f_equal; lia|].
  intros idx i j Hi. split; [|lia].
  unfold view_at. cbn [memory first_byte strides]. rewrite E, Ht.
  f_equal. rewrite <- app_assoc. cbn [app].
  rewrite !byte_offset_app by congruence.
  cbn [byte_offset]. lia.
Qed.

Lemma rolling_window_view_witness :
  exists v,
    rolling_window line5 3 = Done v /\
    shape v = [] ++ [(5 + 1 - 3)%nat; 3%nat] /\
    forall idx i j, length idx = length (@nil nat) ->
      view_at v (idx ++ [i; j]) = view_at line5 (idx ++ [(i + j)%nat]) /\
      ((i < 5 + 1 - 3)%nat -> (j < 3)%nat -> (i + j < 5)%nat).
Proof.
  apply (rolling_window_view line5 3 [] 5 [] 8%Z);
    try reflexivity; lia.
Defined.
